(** * Cafe Finder: a shallow embedding of [script.js]

    The script geolocates a visitor, asks the Overpass API for the cafes
    around that point, falls back to a bundled JSON file, sorts the result
    by great-circle distance and keeps a Leaflet map and a side list in
    step.  This development embeds the functions of the script as Rocq
    functions and proves properties of them.

    Conventions of the embedding.
    - A JavaScript number is idealised as a real number (a double of
      unbounded range and precision); [NaN] and the infinities are separate
      constructors of [number], used where the script can produce them.
    - A property that may be missing is an [option]; [None] is
      [undefined] (or [null]).  A coordinate, a rating or a preference is a
      number or missing; a tag, a name or an area is a string or missing.
    - A string is a [string] of the Standard Library, its characters read
      as code units.  [String.prototype.toLowerCase] and
      [String.prototype.trim] follow the Unicode tables of the host, which
      are no part of the script: the functions of the script take them as
      the parameter [Host], and every property is proved for every host.
    - An object used as a dictionary is a [gmap] with string keys.
    - Module-level variables and the parts of the page, the map and the
      browser the script reads and writes are the fields of [State]; a
      function that can throw runs in the monad [M].  Calls that leave the
      script (requests, alerts, console output, calls into the map) are
      logged in [calls].  Calls into the page and the map succeed, but for
      the two that [renderMarkers] makes with values that can be out of
      range: [String.prototype.repeat], which refuses a negative count, and
      [L.marker], which refuses a coordinate that is not a number.
    - A card of the side list is shared between the list and the registry
      [idToCard]: the registry holds the position of the card in the list.
    - The text of cards and popups, which no function reads back, is left
      out of the page model. *)

From Stdlib Require Import Reals Lra Lia String Ascii List.
From Stdlib Require Import Sorting.Sorted Sorting.Permutation.
From stdpp Require Import gmap strings list fin_maps pretty.

(** ** JavaScript values and built-ins *)

Module Js.

(** Numbers that arithmetic can yield. *)
Inductive number : Type :=
  | Num (r : R)
  | NaN
  | Infinity
  | NegInfinity.

(** [a - b]. *)
Definition sub (a b : number) : number :=
  match a, b with
  | Num x, Num y => Num (x - y)
  | NaN, _ | _, NaN => NaN
  | Infinity, Infinity | NegInfinity, NegInfinity => NaN
  | Infinity, _ | _, NegInfinity => Infinity
  | NegInfinity, _ | _, Infinity => NegInfinity
  end.

(** [v ?? d]. *)
Definition nullish {A : Type} (v : option A) (d : A) : A :=
  match v with Some x => x | None => d end.

(** Truthiness of a number: [0] is falsy (and so is [NaN], which a parsed
    JSON document never holds). *)
Definition truthyR (x : R) : bool :=
  if Req_dec_T x 0 then false else true.

(** Truthiness of a property holding a number. *)
Definition truthyNum (v : option R) : bool :=
  match v with Some x => truthyR x | None => false end.

(** Truthiness of a string: the empty string is falsy. *)
Definition truthyStr (s : string) : bool :=
  match s with EmptyString => false | String _ _ => true end.

(** [v || d] on a property holding a string. *)
Definition orStr (v : option string) (d : string) : string :=
  match v with
  | Some s => if truthyStr s then s else d
  | None => d
  end.

(** [a || b] where [b] may be missing too. *)
Definition orOpt (a b : option string) : option string :=
  match a with
  | Some s => if truthyStr s then a else b
  | None => b
  end.

Definition isUpper (c : ascii) : bool :=
  let n := nat_of_ascii c in (65 <=? n)%nat && (n <=? 90)%nat.

Definition lowerChar (c : ascii) : ascii :=
  if isUpper c then ascii_of_nat (nat_of_ascii c + 32) else c.

(** [s.toLowerCase()] on ASCII text. *)
Fixpoint asciiLowerCase (s : string) : string :=
  match s with
  | EmptyString => EmptyString
  | String c r => String (lowerChar c) (asciiLowerCase r)
  end.

(** White space and line terminators among the ASCII characters. *)
Definition isWhiteSpace (c : ascii) : bool :=
  let n := nat_of_ascii c in
  ((9 <=? n)%nat && (n <=? 13)%nat) || (n =? 32)%nat.

Fixpoint trimStart (s : string) : string :=
  match s with
  | EmptyString => EmptyString
  | String c r => if isWhiteSpace c then trimStart r else s
  end.

Fixpoint trimEnd (s : string) : string :=
  match s with
  | EmptyString => EmptyString
  | String c r =>
      match trimEnd r with
      | EmptyString => if isWhiteSpace c then EmptyString else String c EmptyString
      | r' => String c r'
      end
  end.

(** [s.trim()] on ASCII text. *)
Definition asciiTrim (s : string) : string := trimEnd (trimStart s).

(** The two built-ins of strings whose result depends on the Unicode
    tables of the host: [s.toLowerCase()], which folds every cased letter
    and is not character by character, and [s.trim()], which strips every
    white space and line terminator of Unicode.  The script is read over
    any such pair of functions. *)
Class Host : Type := {
  toLowerCase : string -> string;
  trim : string -> string;
}.

(** A host for text that is ASCII throughout, on which the built-ins do
    what [asciiLowerCase] and [asciiTrim] do.  It serves to run the script
    on sample data. *)
Definition asciiHost : Host :=
  {| toLowerCase := asciiLowerCase; trim := asciiTrim |}.

(** [Math.round(x)]: the nearest integer, a half going up.  On a double the
    result is exact. *)
Definition round (x : R) : Z := Zfloor (x + 1 / 2).

(** [s.includes(q)]. *)
Fixpoint includes (s q : string) : bool :=
  String.prefix q s ||
  match s with
  | EmptyString => false
  | String _ r => includes r q
  end.

(** [s] between double quotes. *)
Definition quoted (s : string) : string :=
  String (ascii_of_nat 34) s +:+ String (ascii_of_nat 34) EmptyString.

(** [parts.join(sep)]. *)
Fixpoint join (sep : string) (parts : list string) : string :=
  match parts with
  | [] => EmptyString
  | [p] => p
  | p :: rest => p +:+ sep +:+ join sep rest
  end.

(** [l.filter(Boolean)] on a list of properties holding strings: the
    missing ones and the empty ones go. *)
Fixpoint truthyStrings (l : list (option string)) : list string :=
  match l with
  | [] => []
  | Some s :: r => if truthyStr s then s :: truthyStrings r else truthyStrings r
  | None :: r => truthyStrings r
  end.

(** [l.filter(Boolean)] on a list whose falsy entries are [null]. *)
Fixpoint filterBoolean {A : Type} (l : list (option A)) : list A :=
  match l with
  | [] => []
  | Some x :: r => x :: filterBoolean r
  | None :: r => filterBoolean r
  end.

(** The sign a comparator result has for [Array.prototype.sort]: [NaN] is
    read as [0]. *)
Definition isPositive (v : number) : bool :=
  match v with
  | Num r => if Rlt_dec 0 r then true else false
  | Infinity => true
  | NaN | NegInfinity => false
  end.

(** [l.sort(compareFn)].  ECMAScript requires the sort to be stable and
    leaves the algorithm open; for a consistent comparator the result is
    the same whatever the algorithm.  It is taken here as the stable
    insertion sort: an element moves right only past elements it compares
    strictly greater than. *)
Fixpoint sortInsert {A : Type} (compareFn : A -> A -> number) (x : A) (l : list A) : list A :=
  match l with
  | [] => [x]
  | y :: r =>
      if isPositive (compareFn x y) then y :: sortInsert compareFn x r
      else x :: l
  end.

Fixpoint sort {A : Type} (compareFn : A -> A -> number) (l : list A) : list A :=
  match l with
  | [] => []
  | x :: r => sortInsert compareFn x (sort compareFn r)
  end.

#[global] Instance R_eq_dec : EqDecision R := Req_dec_T.

#[global] Instance number_eq_dec : EqDecision number.
Proof. solve_decision. Defined.


(** What a statement can complete with. *)
Inductive Error : Type :=
  | TypeError (msg : string)
  | SyntaxError
  | RangeError (msg : string)
  | ErrorMsg (msg : string).

End Js.

(** ** Geometry *)

Module Geometry.
Import Js.
Local Open Scope R_scope.

(** [Math.atan2(y, x)]. *)
Definition atan2 (y x : R) : R :=
  if Rlt_dec 0 x then atan (y / x)
  else if Rlt_dec x 0 then
    (if Rle_dec 0 y then atan (y / x) + PI else atan (y / x) - PI)
  else if Rlt_dec 0 y then PI / 2
  else if Rlt_dec y 0 then - (PI / 2)
  else 0.

Definition toRad (x : R) : R := (x * PI) / 180.

(** The argument of the square roots in [haversineDistance]. *)
Definition haversine (lat1 lon1 lat2 lon2 : R) : R :=
  let φ1 := toRad lat1 in
  let φ2 := toRad lat2 in
  let Δφ := toRad (lat2 - lat1) in
  let Δλ := toRad (lon2 - lon1) in
  sin (Δφ / 2) ^ 2 + cos φ1 * cos φ2 * sin (Δλ / 2) ^ 2.

(** Haversine distance between two lat/lng points in meters. *)
Definition haversineDistance (lat1 lon1 lat2 lon2 : R) : R :=
  let R := 6371e3 in
  let a := haversine lat1 lon1 lat2 lon2 in
  let c := 2 * atan2 (sqrt a) (sqrt (1 - a)) in
  R * c.

End Geometry.

(** ** Records *)

Module Data.
Import Js.

(** A cafe as the script holds it.  [lat] and [lng] are whatever the source
    record carried under those names; [distanceMeters] is missing until
    [attachDistances] has run. *)
Record Cafe : Type := {
  id : string;
  name : option string;
  area : option string;
  address : string;
  contact : string;
  lat : option R;
  lng : option R;
  rating : option R;
  distanceMeters : option number;
}.

(** An element of an Overpass reply: [{ id, tags, lat, lon, center }].
    [center] is an object of numeric properties. *)
Record Element : Type := {
  el_id : N;
  el_tags : option (gmap string string);
  el_lat : option R;
  el_lon : option R;
  el_center : option (gmap string R);
}.

(** An entry of [data/cafes.json]. *)
Record Item : Type := {
  it_id : N;
  it_name : option string;
  it_area : option string;
  it_location : option string;
  it_contact : option string;
  it_lat : option R;
  it_lng : option R;
  it_rating : option R;
}.

Definition setDistance (d : number) (c : Cafe) : Cafe :=
  {| id := id c; name := name c; area := area c; address := address c;
     contact := contact c; lat := lat c; lng := lng c; rating := rating c;
     distanceMeters := Some d |}.

End Data.

(** ** Result assembly *)

Module Assembler.
Import Js Data.

(** The callback of [elements.map] in [fetchOverpassCafes]; [None] is its
    [null]. *)
Definition normalizeElement (el : Element) : option Cafe :=
  let id := el_id el in
  let tags := nullish (el_tags el) ∅ in
  let center := el_center el in
  let latLng : option (gmap string R) :=
    match el_lat el, el_lon el with
    | Some nlat, Some nlon =>
        if truthyR nlat && truthyR nlon
        then Some (<["lat" := nlat]> (<["lng" := nlon]> ∅))
        else center
    | _, _ => center
    end in
  match latLng with
  | None => None
  | Some latLng =>
      let addressParts :=
        join ", "
          (truthyStrings
             [tags !! "addr:housename"; tags !! "addr:housenumber";
              tags !! "addr:street"; tags !! "addr:suburb";
              tags !! "addr:city"]) in
      Some {| id := pretty id;
              name := Some (orStr (tags !! "name") "Cafe");
              area := Some (orStr (orOpt (tags !! "addr:suburb") (tags !! "addr:city")) "");
              address := addressParts;
              contact := orStr (orOpt (tags !! "contact:phone") (tags !! "phone")) "";
              lat := latLng !! "lat";
              lng := latLng !! "lng";
              rating := None;
              distanceMeters := None |}
  end.

(** [elements.map(...).filter(Boolean)]. *)
Definition normalize (elements : list Element) : list Cafe :=
  filterBoolean (map normalizeElement elements).

(** The callback of [items.map] in [loadFallbackCafes]. *)
Definition normalizeItem (c : Item) : Cafe :=
  {| id := pretty (it_id c);
     name := it_name c;
     area := Some (orStr (it_area c) "");
     address := orStr (it_location c) "";
     contact := orStr (it_contact c) "";
     lat := it_lat c;
     lng := it_lng c;
     rating := it_rating c;
     distanceMeters := None |}.

(** [haversineDistance(originLat, originLng, c.lat, c.lng)] on a record:
    a missing coordinate is [undefined], which the arithmetic of
    [haversineDistance] turns into [NaN] and carries to its result. *)
Definition distanceFrom (originLat originLng : R) (c : Cafe) : number :=
  match lat c, lng c with
  | Some clat, Some clng => Num (Geometry.haversineDistance originLat originLng clat clng)
  | _, _ => NaN
  end.

(** The comparator [(a, b) => (a.distanceMeters ?? Infinity) - (b.distanceMeters ?? Infinity)]. *)
Definition byDistance (a b : Cafe) : number :=
  sub (nullish (distanceMeters a) Infinity) (nullish (distanceMeters b) Infinity).

(** [attachDistances]: the array after the call. *)
Definition attachDistances (cafes : list Cafe) (originLat originLng : R) : list Cafe :=
  let cafes := map (fun c => setDistance (distanceFrom originLat originLng c) c) cafes in
  sort byDistance cafes.

(** The element with its own [lat] and [lon] taken away. *)
Definition withoutCoordinates (el : Element) : Element :=
  {| el_id := el_id el; el_tags := el_tags el; el_lat := None; el_lon := None;
     el_center := el_center el |}.

(** The element has coordinates of its own that pass the test
    [nlat && nlon]. *)
Definition directCoordinates (el : Element) : Prop :=
  exists nlat nlon : R,
    el_lat el = Some nlat /\ el_lon el = Some nlon /\ nlat <> 0%R /\ nlon <> 0%R.

(** A named cafe at a point. *)
Definition cafeAt (i : string) (clat clng : R) : Cafe :=
  {| id := i; name := Some i; area := None; address := ""; contact := "";
     lat := Some clat; lng := Some clng; rating := None; distanceMeters := None |}.

(** A way as Overpass returns it under [out tags center]: no coordinates
    of its own, a center with [lat] and [lon]. *)
Definition wayElement : Element :=
  {| el_id := 42%N;
     el_tags := Some {[ "name" := "Third Wave" ]};
     el_lat := None; el_lon := None;
     el_center := Some (<["lat" := 12.97%R]> (<["lon" := 77.59%R]> ∅)) |}.

(** A node on the prime meridian. *)
Definition meridianNode : Element :=
  {| el_id := 7%N;
     el_tags := Some {[ "name" := "Meridian Coffee" ]};
     el_lat := Some 51.48%R; el_lon := Some 0%R;
     el_center := None |}.





End Assembler.

(** ** Search filter *)

Module Filter.
Import Js Data.

Section WithHost.
Context {host : Host}.

(** The predicate of [allCafes.filter] in [handleSearchInput]. *)
Definition matches (q : string) (c : Cafe) : bool :=
  includes (toLowerCase (orStr (name c) "")) q ||
  includes (toLowerCase (orStr (area c) "")) q.

(** The words of the specification: the text, lower-cased, has the
    lower-cased query [q] as a substring. *)
Definition containsIgnoringCase (text q : string) : Prop :=
  exists pre post : string, toLowerCase text = pre +:+ q +:+ post.

(** The text of a field that may be missing: a missing field holds no
    text. *)
Definition textOf (v : option string) : string :=
  match v with Some s => s | None => EmptyString end.

(** The name or the area of the record contains [q], case aside. *)
Definition nameOrAreaContains (c : Cafe) (q : string) : Prop :=
  containsIgnoringCase (textOf (name c)) q \/ containsIgnoringCase (textOf (area c)) q.

End WithHost.

End Filter.

(** ** The page: state, effects and the monad of the handlers *)

Module Page.
Import Js Data.

(** A card of the side list: its [dataset.id] (the placeholder shown for
    an empty result has none) and whether its class list holds
    ['selected']. *)
Record Card : Type := {
  card_id : option string;
  card_selected : bool;
}.

(** A Leaflet marker, or a point handed to the map: the coordinates it was
    built from. *)
Definition Marker : Type := (option R * option R)%type.

(** What [localStorage] holds under a key: a text [JSON.parse] rejects, the
    empty text, or a document.  A document is an object of numeric
    properties, [null], or a number or boolean. *)
Inductive Json : Type :=
  | JObject (props : gmap string R)
  | JNull
  | JScalar.

Inductive Text : Type :=
  | Garbage
  | Blank
  | Doc (v : Json).

(** Calls that leave the script, in the order they are made. *)
Inductive Call : Type :=
  | FetchOverpass (lat lon radiusMeters : R)
  | FetchFallback
  | Alert (msg : string)
  | ConsoleWarn (e : Error)
  | ConsoleError (e : Error)
  | ScrollIntoView (card : nat)
  | OpenPopup (marker : Marker)
  | FlyTo (target : Marker) (zoom : R).

(** The module-level variables of the script and the parts of the page,
    the map and the browser it reads and writes.  [radiusSelect] is the
    number the value of the select denotes; [idToCard] maps an id to the
    position of its card among the children of [cafeListEl]. *)
Record State : Type := {
  searchInput : string;
  radiusSelect : R;
  resultSummary : string;
  spinnerHidden : bool;
  cafeListEl : list Card;
  cafeLayer : list Marker;
  userMarker : option Marker;
  mapView : Marker * R;
  allCafes : list Cafe;
  filteredCafes : list Cafe;
  selectedCafeId : option string;
  idToMarker : gmap string Marker;
  idToCard : gmap string nat;
  localStorage : option Text;
  calls : list Call;
}.

Definition set_searchInput (v : string) (s : State) : State :=
  {| searchInput := v; radiusSelect := radiusSelect s;
     resultSummary := resultSummary s; spinnerHidden := spinnerHidden s;
     cafeListEl := cafeListEl s; cafeLayer := cafeLayer s;
     userMarker := userMarker s; mapView := mapView s;
     allCafes := allCafes s; filteredCafes := filteredCafes s;
     selectedCafeId := selectedCafeId s; idToMarker := idToMarker s;
     idToCard := idToCard s; localStorage := localStorage s;
     calls := calls s |}.

Definition set_radiusSelect (v : R) (s : State) : State :=
  {| searchInput := searchInput s; radiusSelect := v;
     resultSummary := resultSummary s; spinnerHidden := spinnerHidden s;
     cafeListEl := cafeListEl s; cafeLayer := cafeLayer s;
     userMarker := userMarker s; mapView := mapView s;
     allCafes := allCafes s; filteredCafes := filteredCafes s;
     selectedCafeId := selectedCafeId s; idToMarker := idToMarker s;
     idToCard := idToCard s; localStorage := localStorage s;
     calls := calls s |}.

Definition set_resultSummary (v : string) (s : State) : State :=
  {| searchInput := searchInput s; radiusSelect := radiusSelect s;
     resultSummary := v; spinnerHidden := spinnerHidden s;
     cafeListEl := cafeListEl s; cafeLayer := cafeLayer s;
     userMarker := userMarker s; mapView := mapView s;
     allCafes := allCafes s; filteredCafes := filteredCafes s;
     selectedCafeId := selectedCafeId s; idToMarker := idToMarker s;
     idToCard := idToCard s; localStorage := localStorage s;
     calls := calls s |}.

Definition set_spinnerHidden (v : bool) (s : State) : State :=
  {| searchInput := searchInput s; radiusSelect := radiusSelect s;
     resultSummary := resultSummary s; spinnerHidden := v;
     cafeListEl := cafeListEl s; cafeLayer := cafeLayer s;
     userMarker := userMarker s; mapView := mapView s;
     allCafes := allCafes s; filteredCafes := filteredCafes s;
     selectedCafeId := selectedCafeId s; idToMarker := idToMarker s;
     idToCard := idToCard s; localStorage := localStorage s;
     calls := calls s |}.

Definition set_cafeListEl (v : list Card) (s : State) : State :=
  {| searchInput := searchInput s; radiusSelect := radiusSelect s;
     resultSummary := resultSummary s; spinnerHidden := spinnerHidden s;
     cafeListEl := v; cafeLayer := cafeLayer s; userMarker := userMarker s;
     mapView := mapView s; allCafes := allCafes s;
     filteredCafes := filteredCafes s; selectedCafeId := selectedCafeId s;
     idToMarker := idToMarker s; idToCard := idToCard s;
     localStorage := localStorage s; calls := calls s |}.

Definition set_cafeLayer (v : list Marker) (s : State) : State :=
  {| searchInput := searchInput s; radiusSelect := radiusSelect s;
     resultSummary := resultSummary s; spinnerHidden := spinnerHidden s;
     cafeListEl := cafeListEl s; cafeLayer := v; userMarker := userMarker s;
     mapView := mapView s; allCafes := allCafes s;
     filteredCafes := filteredCafes s; selectedCafeId := selectedCafeId s;
     idToMarker := idToMarker s; idToCard := idToCard s;
     localStorage := localStorage s; calls := calls s |}.

Definition set_userMarker (v : option Marker) (s : State) : State :=
  {| searchInput := searchInput s; radiusSelect := radiusSelect s;
     resultSummary := resultSummary s; spinnerHidden := spinnerHidden s;
     cafeListEl := cafeListEl s; cafeLayer := cafeLayer s; userMarker := v;
     mapView := mapView s; allCafes := allCafes s;
     filteredCafes := filteredCafes s; selectedCafeId := selectedCafeId s;
     idToMarker := idToMarker s; idToCard := idToCard s;
     localStorage := localStorage s; calls := calls s |}.

Definition set_mapView (v : Marker * R) (s : State) : State :=
  {| searchInput := searchInput s; radiusSelect := radiusSelect s;
     resultSummary := resultSummary s; spinnerHidden := spinnerHidden s;
     cafeListEl := cafeListEl s; cafeLayer := cafeLayer s;
     userMarker := userMarker s; mapView := v; allCafes := allCafes s;
     filteredCafes := filteredCafes s; selectedCafeId := selectedCafeId s;
     idToMarker := idToMarker s; idToCard := idToCard s;
     localStorage := localStorage s; calls := calls s |}.

Definition set_allCafes (v : list Cafe) (s : State) : State :=
  {| searchInput := searchInput s; radiusSelect := radiusSelect s;
     resultSummary := resultSummary s; spinnerHidden := spinnerHidden s;
     cafeListEl := cafeListEl s; cafeLayer := cafeLayer s;
     userMarker := userMarker s; mapView := mapView s; allCafes := v;
     filteredCafes := filteredCafes s; selectedCafeId := selectedCafeId s;
     idToMarker := idToMarker s; idToCard := idToCard s;
     localStorage := localStorage s; calls := calls s |}.

Definition set_filteredCafes (v : list Cafe) (s : State) : State :=
  {| searchInput := searchInput s; radiusSelect := radiusSelect s;
     resultSummary := resultSummary s; spinnerHidden := spinnerHidden s;
     cafeListEl := cafeListEl s; cafeLayer := cafeLayer s;
     userMarker := userMarker s; mapView := mapView s;
     allCafes := allCafes s; filteredCafes := v;
     selectedCafeId := selectedCafeId s; idToMarker := idToMarker s;
     idToCard := idToCard s; localStorage := localStorage s;
     calls := calls s |}.

Definition set_selectedCafeId (v : option string) (s : State) : State :=
  {| searchInput := searchInput s; radiusSelect := radiusSelect s;
     resultSummary := resultSummary s; spinnerHidden := spinnerHidden s;
     cafeListEl := cafeListEl s; cafeLayer := cafeLayer s;
     userMarker := userMarker s; mapView := mapView s;
     allCafes := allCafes s; filteredCafes := filteredCafes s;
     selectedCafeId := v; idToMarker := idToMarker s; idToCard := idToCard s;
     localStorage := localStorage s; calls := calls s |}.

Definition set_idToMarker (v : gmap string Marker) (s : State) : State :=
  {| searchInput := searchInput s; radiusSelect := radiusSelect s;
     resultSummary := resultSummary s; spinnerHidden := spinnerHidden s;
     cafeListEl := cafeListEl s; cafeLayer := cafeLayer s;
     userMarker := userMarker s; mapView := mapView s;
     allCafes := allCafes s; filteredCafes := filteredCafes s;
     selectedCafeId := selectedCafeId s; idToMarker := v;
     idToCard := idToCard s; localStorage := localStorage s;
     calls := calls s |}.

Definition set_idToCard (v : gmap string nat) (s : State) : State :=
  {| searchInput := searchInput s; radiusSelect := radiusSelect s;
     resultSummary := resultSummary s; spinnerHidden := spinnerHidden s;
     cafeListEl := cafeListEl s; cafeLayer := cafeLayer s;
     userMarker := userMarker s; mapView := mapView s;
     allCafes := allCafes s; filteredCafes := filteredCafes s;
     selectedCafeId := selectedCafeId s; idToMarker := idToMarker s;
     idToCard := v; localStorage := localStorage s; calls := calls s |}.

Definition set_localStorage (v : option Text) (s : State) : State :=
  {| searchInput := searchInput s; radiusSelect := radiusSelect s;
     resultSummary := resultSummary s; spinnerHidden := spinnerHidden s;
     cafeListEl := cafeListEl s; cafeLayer := cafeLayer s;
     userMarker := userMarker s; mapView := mapView s;
     allCafes := allCafes s; filteredCafes := filteredCafes s;
     selectedCafeId := selectedCafeId s; idToMarker := idToMarker s;
     idToCard := idToCard s; localStorage := v; calls := calls s |}.

Definition set_calls (v : list Call) (s : State) : State :=
  {| searchInput := searchInput s; radiusSelect := radiusSelect s;
     resultSummary := resultSummary s; spinnerHidden := spinnerHidden s;
     cafeListEl := cafeListEl s; cafeLayer := cafeLayer s;
     userMarker := userMarker s; mapView := mapView s;
     allCafes := allCafes s; filteredCafes := filteredCafes s;
     selectedCafeId := selectedCafeId s; idToMarker := idToMarker s;
     idToCard := idToCard s; localStorage := localStorage s; calls := v |}.

(** How a statement completes. *)
Inductive Completion (A : Type) : Type :=
  | Normal (a : A)
  | Throw (e : Error).
Arguments Normal {A} a.
Arguments Throw {A} e.

(** A computation over the state that may throw; the state written before
    a throw stays written. *)
Definition M (A : Type) : Type := State -> Completion A * State.

Definition ret {A : Type} (a : A) : M A := fun s => (Normal a, s).

Definition bind {A B : Type} (m : M A) (k : A -> M B) : M B :=
  fun s =>
    match m s with
    | (Normal a, s') => k a s'
    | (Throw e, s') => (Throw e, s')
    end.

Definition throw {A : Type} (e : Error) : M A := fun s => (Throw e, s).

(** Complete as [r] does. *)
Definition complete {A : Type} (r : Completion A) : M A := fun s => (r, s).

Definition modify (f : State -> State) : M unit := fun s => (Normal tt, f s).

Definition gets {A : Type} (f : State -> A) : M A := fun s => (Normal (f s), s).

(** [try { body } catch (e) { handler }]. *)
Definition tryCatch {A : Type} (body : M A) (handler : Error -> M A) : M A :=
  fun s =>
    match body s with
    | (Normal a, s') => (Normal a, s')
    | (Throw e, s') => handler e s'
    end.

(** [try { body } finally { final }]. *)
Definition tryFinally {A : Type} (body : M A) (final : M unit) : M A :=
  fun s =>
    match body s with
    | (r, s') =>
        match final s' with
        | (Normal _, s'') => (r, s'')
        | (Throw e, s'') => (Throw e, s'')
        end
    end.

Declare Scope js_scope.
Delimit Scope js_scope with js.
Notation "x <- m ;; k" := (bind m (fun x => k))
  (at level 100, m at next level, right associativity) : js_scope.
Notation "m ;; k" := (bind m (fun _ => k))
  (at level 100, right associativity) : js_scope.

Definition call (c : Call) : M unit :=
  modify (fun s => set_calls (calls s ++ [c]) s).

(** [l.forEach(callback)]: a throw of the callback ends the loop. *)
Fixpoint forEach {A : Type} (l : list A) (callback : A -> M unit) : M unit :=
  match l with
  | [] => ret tt
  | x :: r => (callback x;; forEach r callback)%js
  end.

(** The state a computation leaves, however it completes. *)
Definition exec {A : Type} (m : M A) (s : State) : State := snd (m s).

(** What the network answers to a request. *)
Inductive Reply (A : Type) : Type :=
  | Rejected
  | NotOk (status : nat)
  | NotJson
  | Body (data : A).
Arguments Rejected {A}.
Arguments NotOk {A} status.
Arguments NotJson {A}.
Arguments Body {A} data.

(** The servers: the Overpass interpreter, whose reply [data] has
    [data.elements] (an array, or [None] when it is not one), and the file
    [data/cafes.json] (an array of entries, or [None] when it is not
    one). *)
Record World : Type := {
  overpass : R -> R -> R -> Reply (option (list Element));
  cafes_json : Reply (option (list Item));
}.

End Page.

(** ** The functions of the script *)

Module Script.
Import Js Data Assembler Filter Page.
Local Open Scope js_scope.

Definition INDIA_CENTER : Marker := (Some 22.9734%R, Some 78.6569%R).
Definition INDIA_ZOOM : R := 5%R.

Definition setSummary (text : string) : State -> State :=
  set_resultSummary text.

(** [spinnerEl] is in the page. *)
Definition showSpinner (show : bool) : State -> State :=
  set_spinnerHidden (negb show).

Definition setView (center : Marker) (zoom : R) : State -> State :=
  set_mapView (center, zoom).

Definition clearCafes (s : State) : State :=
  let s := set_cafeLayer [] s in
  let s := set_idToMarker ∅ s in
  let s := set_idToCard ∅ s in
  let s := set_cafeListEl [] s in
  set_selectedCafeId None s.

Definition removeSelected (el : Card) : Card :=
  {| card_id := card_id el; card_selected := false |}.

Definition addSelected (el : Card) : Card :=
  {| card_id := card_id el; card_selected := true |}.

(** [map.flyTo] is logged and the view is set to where the flight ends. *)
Definition selectCafe (cafeId : string) (fly : bool) (s : State) : State :=
  let s :=
    foldl (fun s el => set_cafeListEl (alter removeSelected el (cafeListEl s)) s)
      s (map_to_list (idToCard s)).*2 in
  let s :=
    match idToCard s !! cafeId with
    | Some card =>
        let s := set_cafeListEl (alter addSelected card (cafeListEl s)) s in
        set_calls (calls s ++ [ScrollIntoView card]) s
    | None => s
    end in
  let s :=
    match idToMarker s !! cafeId with
    | Some marker =>
        let s := set_calls (calls s ++ [OpenPopup marker]) s in
        if fly then
          let zoom := Rmax (snd (mapView s)) 15 in
          set_mapView (marker, zoom) (set_calls (calls s ++ [FlyTo marker zoom]) s)
        else s
    | None => s
    end in
  set_selectedCafeId (Some cafeId) s.

(** [text.repeat(count)] for what it can throw: a negative count is a
    [RangeError].  The text it gives goes into a popup, which is not
    kept. *)
Definition String_repeat (count : Z) : M unit :=
  if (count <? 0)%Z then throw (RangeError ("Invalid count value: " +:+ pretty count))
  else ret tt.

(** The [stars] of a popup: a rating that is a number is rounded, and shown
    as that many full stars followed by the empty ones that make five. *)
Definition stars (rating : option R) : M unit :=
  match rating with
  | Some rating =>
      String_repeat (round rating);;
      String_repeat (5 - round rating)
  | None => ret tt
  end.

(** [L.marker([lat, lng])].  Leaflet is no part of the script; its
    [LatLng], which [L.marker] builds from the pair, throws
    [Invalid LatLng object] when [isNaN] holds of a coordinate, as it does
    of [undefined]. *)
Definition L_marker (lat lng : option R) : M Marker :=
  match lat, lng with
  | Some _, Some _ => ret (lat, lng)
  | _, _ => throw (ErrorMsg "Invalid LatLng object")
  end.

Definition renderMarkers (cafes : list Cafe) : M unit :=
  modify (set_cafeLayer []);;
  modify (set_idToMarker ∅);;
  forEach cafes (fun cafe =>
    stars (rating cafe);;
    marker <- L_marker (lat cafe) (lng cafe);;
    modify (fun s => set_cafeLayer (cafeLayer s ++ [marker]) s);;
    modify (fun s => set_idToMarker (<[id cafe := marker]> (idToMarker s)) s)).

Definition renderList (cafes : list Cafe) (s : State) : State :=
  let s := set_cafeListEl [] s in
  let s := set_idToCard ∅ s in
  match cafes with
  | [] =>
      let emptyEl := {| card_id := None; card_selected := false |} in
      set_cafeListEl (cafeListEl s ++ [emptyEl]) s
  | _ =>
      foldl (fun s cafe =>
               let card := {| card_id := Some (id cafe); card_selected := false |} in
               let handle := length (cafeListEl s) in
               let s := set_cafeListEl (cafeListEl s ++ [card]) s in
               set_idToCard (<[id cafe := handle]> (idToCard s)) s)
        s cafes
  end.

Definition updateUI (cafes : list Cafe) (from : string) : M unit :=
  modify (set_filteredCafes cafes);;
  shown <- gets filteredCafes;;
  renderMarkers shown;;
  shown <- gets filteredCafes;;
  modify (renderList shown);;
  if negb (String.eqb from "search")
  then
    shown <- gets filteredCafes;;
    modify (setSummary (pretty (length shown) +:+ " cafe(s) found"))
  else ret tt.

(** [fetchOverpassCafes] from the reply on: the status check, the body
    and the normalization. *)
Definition readOverpass (reply : Reply (option (list Element))) : Completion (list Cafe) :=
  match reply with
  | Rejected => Throw (TypeError "Failed to fetch")
  | NotOk status => Throw (ErrorMsg ("Overpass error " +:+ pretty status))
  | NotJson => Throw SyntaxError
  | Body data =>
      let elements := match data with Some elements => elements | None => [] end in
      Normal (normalize elements)
  end.

Definition fetchOverpassCafes (w : World) (lat lon radiusMeters : R) : M (list Cafe) :=
  call (FetchOverpass lat lon radiusMeters);;
  complete (readOverpass (overpass w lat lon radiusMeters)).

(** [loadFallbackCafes] from the reply on. *)
Definition readFallback (reply : Reply (option (list Item))) : Completion (list Cafe) :=
  match reply with
  | Rejected => Throw (TypeError "Failed to fetch")
  | NotOk _ => Throw (ErrorMsg "Failed to load fallback data")
  | NotJson => Throw SyntaxError
  | Body None => Throw (TypeError "items.map is not a function")
  | Body (Some items) => Normal (map normalizeItem items)
  end.

Definition loadFallbackCafes (w : World) : M (list Cafe) :=
  call FetchFallback;;
  complete (readFallback (cafes_json w)).

(** [JSON.parse(localStorage.getItem('cf_prefs') || '{}')]. *)
Definition parsePrefs : M Json :=
  stored <- gets localStorage;;
  match stored with
  | None | Some Blank => ret (JObject ∅)
  | Some Garbage => throw SyntaxError
  | Some (Doc p) => ret p
  end.

(** [p.key]. *)
Definition prop (p : Json) (key : string) : M (option R) :=
  match p with
  | JObject props => ret (props !! key)
  | JNull => throw (TypeError "Cannot read properties of null")
  | JScalar => ret None
  end.

(** [{ ...p }]. *)
Definition spread (p : Json) : gmap string R :=
  match p with
  | JObject props => props
  | JNull | JScalar => ∅
  end.

Definition savePrefs (partial : gmap string R) : M unit :=
  p <- parsePrefs;;
  modify (set_localStorage (Some (Doc (JObject (partial ∪ spread p))))).

(** The function declared as [placeOrUpdateUserMarker]. *)
Definition _placeOrUpdate (lat lng : R) : State -> State :=
  set_userMarker (Some (Some lat, Some lng)).

(** The function [placeOrUpdateUserMarker] names once the script has run:
    the declared one followed by [savePrefs]. *)
Definition placeOrUpdateUserMarker (lat lng : R) : M unit :=
  modify (_placeOrUpdate lat lng);;
  savePrefs (<["lastLat" := lat]> (<["lastLng" := lng]> ∅)).

Definition loadPrefs : M unit :=
  tryCatch
    (p <- parsePrefs;;
     radius <- prop p "radius";;
     match radius with
     | Some radius => if truthyR radius then modify (set_radiusSelect radius) else ret tt
     | None => ret tt
     end;;
     lastLat <- prop p "lastLat";;
     lastLng <- prop p "lastLng";;
     match lastLat, lastLng with
     | Some lastLat, Some lastLng =>
         if truthyR lastLat && truthyR lastLng then
           placeOrUpdateUserMarker lastLat lastLng;;
           modify (setView (Some lastLat, Some lastLng) 13%R)
         else ret tt
     | _, _ => ret tt
     end)
    (fun _ => ret tt).

(** The [try] statement of the position callback of [handleFindNearMe],
    which the click callback of [handlePickOnMap] repeats. *)
Definition searchNearby (w : World) (latitude longitude radiusMeters : R) : M unit :=
  tryFinally
    (tryCatch
       (modify (showSpinner true);;
        modify (setSummary "Searching nearby cafes…");;
        cafes <- fetchOverpassCafes w latitude longitude radiusMeters;;
        match cafes with
        | [] => throw (ErrorMsg "No Overpass results")
        | _ =>
            let cafes := attachDistances cafes latitude longitude in
            modify (set_allCafes cafes);;
            all <- gets allCafes;;
            updateUI all "fetch"
        end)
       (fun err =>
          call (ConsoleWarn err);;
          tryCatch
            (fallback <- loadFallbackCafes w;;
             let fallback := attachDistances fallback latitude longitude in
             modify (set_allCafes fallback);;
             all <- gets allCafes;;
             updateUI all "fetch";;
             modify (setSummary "Showing fallback cafes"))
            (fun e2 =>
               modify (setSummary "Could not load cafes.");;
               call (ConsoleError e2))))
    (modify (showSpinner false)).

(** What [navigator.geolocation] answers. *)
Inductive Geolocation : Type :=
  | Unsupported
  | Position (latitude longitude : R)
  | PositionError (message : string).

(** [handleFindNearMe], with what [getCurrentPosition] calls back. *)
Definition handleFindNearMe (w : World) (geo : Geolocation) : M unit :=
  match geo with
  | Unsupported => call (Alert "Geolocation is not supported by your browser.")
  | Position latitude longitude =>
      modify (setSummary "Locating you…");;
      radiusMeters <- gets radiusSelect;;
      placeOrUpdateUserMarker latitude longitude;;
      modify (setView (Some latitude, Some longitude) 14%R);;
      searchNearby w latitude longitude radiusMeters
  | PositionError message =>
      modify (setSummary "Locating you…");;
      call (ConsoleError (ErrorMsg message));;
      call (Alert ("Unable to retrieve your location. " +:+ message +:+
                   " You can use " +:+ quoted "Pick on Map" +:+
                   " to set a point manually."));;
      modify (setSummary "Location permission needed. Or use Pick on Map.")
  end.

(** [handlePickOnMap] followed by the click at [lat], [lng]. *)
Definition handlePickOnMap (w : World) (lat lng : R) : M unit :=
  modify (setSummary "Click on the map to set your location…");;
  placeOrUpdateUserMarker lat lng;;
  modify (setView (Some lat, Some lng) 14%R);;
  radiusMeters <- gets radiusSelect;;
  searchNearby w lat lng radiusMeters.

Definition handleSearchInput {host : Host} : M unit :=
  value <- gets searchInput;;
  let q := toLowerCase (trim value) in
  if negb (truthyStr q) then
    all <- gets allCafes;;
    updateUI all "search";;
    all <- gets allCafes;;
    modify (setSummary (pretty (length all) +:+ " cafe(s) found"))
  else
    all <- gets allCafes;;
    let matches := List.filter (matches q) all in
    updateUI matches "search";;
    modify (setSummary (pretty (length matches) +:+ " result(s) for " +:+ quoted q)).

Definition handleReset (s : State) : State :=
  let s := set_searchInput "" s in
  let s := set_radiusSelect 1000%R s in
  let s := clearCafes s in
  let s := set_userMarker None s in
  let s := setSummary "Ready when you are." s in
  setView INDIA_CENTER INDIA_ZOOM s.

(** The listener of [radiusSelect]'s [change]. *)
Definition radiusChanged : M unit :=
  radius <- gets radiusSelect;;
  savePrefs (<["radius" := radius]> ∅).

End Script.

(** ** The page as a transition system *)

Module App.
Import Js Data Page Script.
Local Open Scope js_scope.

(** What the visitor and the browser can do to the page. *)
Inductive Event : Type :=
  | ClickLocate (geo : Geolocation)
  | ClickPick (lat lng : R)
  | ClickReset
  | InputSearch (value : string)
  | ChangeRadius (value : R)
  | ClickCard (cafeId : string)
  | ClickMarker (cafeId : string).

Section WithHost.
Context {host : Host}.

Definition handle (w : World) (e : Event) : M unit :=
  match e with
  | ClickLocate geo => handleFindNearMe w geo
  | ClickPick lat lng => handlePickOnMap w lat lng
  | ClickReset => modify handleReset
  | InputSearch value =>
      modify (set_searchInput value);;
      handleSearchInput
  | ChangeRadius value =>
      modify (set_radiusSelect value);;
      radiusChanged
  | ClickCard cafeId => modify (selectCafe cafeId true)
  | ClickMarker cafeId => modify (selectCafe cafeId false)
  end.

(** One turn of the event loop: an exception a handler lets through ends
    the turn and leaves the state as written so far. *)
Definition step (w : World) (e : Event) (s : State) : State :=
  exec (handle w e) s.

End WithHost.

(** The page as loaded, before [loadPrefs] runs. *)
Definition loaded (radius : R) (stored : option Text) : State :=
  {| searchInput := ""; radiusSelect := radius;
     resultSummary := "Ready when you are."; spinnerHidden := true;
     cafeListEl := []; cafeLayer := []; userMarker := None;
     mapView := (INDIA_CENTER, INDIA_ZOOM);
     allCafes := []; filteredCafes := []; selectedCafeId := None;
     idToMarker := ∅; idToCard := ∅; localStorage := stored; calls := [] |}.

Definition boot (radius : R) (stored : option Text) : State :=
  exec loadPrefs (loaded radius stored).

(** The error the [catch] clause of [searchNearby] receives, when the
    primary source gives no cafes. *)
Definition primaryFailure (w : World) (lat lon radiusMeters : R) : option Error :=
  match readOverpass (overpass w lat lon radiusMeters) with
  | Throw e => Some e
  | Normal [] => Some (ErrorMsg "No Overpass results")
  | Normal (_ :: _) => None
  end.

(** The state in which [searchNearby] reads the reply of Overpass: the
    spinner shows, the summary says the search is on, and the request is
    out. *)
Definition asked (lat lng radiusMeters : R) (s : State) : State :=
  let s := setSummary "Searching nearby cafes…" (showSpinner true s) in
  set_calls (calls s ++ [FetchOverpass lat lng radiusMeters]) s.

(** The state in which its [catch] clause reads the bundled file: the
    error is logged and the request is out. *)
Definition warned (err : Error) (s : State) : State :=
  let s := set_calls (calls s ++ [ConsoleWarn err]) s in
  set_calls (calls s ++ [FetchFallback]) s.

(** The state in which the inner [catch] clause leaves the search. *)
Definition gaveUp (e2 : Error) (s : State) : State :=
  let s := setSummary "Could not load cafes." s in
  set_calls (calls s ++ [ConsoleError e2]) s.

(** The requests to the two data sources among the calls made so far. *)
Definition isFetch (c : Call) : bool :=
  match c with
  | FetchOverpass _ _ _ | FetchFallback => true
  | _ => false
  end.

Definition fetches (s : State) : list Call := List.filter isFetch (calls s).

(** The records of the canonical set that match the text in the search
    box. *)
Definition matching {host : Host} (s : State) : list Cafe :=
  let q := toLowerCase (trim (searchInput s)) in
  if decide (q = "") then allCafes s else List.filter (Filter.matches q) (allCafes s).

(** The summary [handleSearchInput] writes for the text in the search
    box. *)
Definition matchingSummary {host : Host} (s : State) : string :=
  let q := toLowerCase (trim (searchInput s)) in
  if decide (q = "") then pretty (length (allCafes s)) +:+ " cafe(s) found"
  else pretty (length (matching s)) +:+ " result(s) for " +:+ quoted q.

(** A world where Overpass cannot be reached and the bundled file holds
    one cafe. *)
Definition offlineWorld : World :=
  {| overpass := fun _ _ _ => Rejected;
     cafes_json :=
       Body (Some [ {| it_id := 1%N; it_name := Some "Blue Tokai";
                       it_area := Some "Indiranagar"; it_location := None;
                       it_contact := None; it_lat := Some 12.97%R;
                       it_lng := Some 77.64%R; it_rating := Some 4.5%R |} ]) |}.

(** The page with [stored] under the key [cf_prefs]. *)
Definition withStored (stored : option Text) (s : State) : State :=
  set_localStorage stored s.

(** The text [JSON.stringify] gives for an object of preferences. *)
Definition prefsText (p : gmap string R) : Text := Doc (JObject p).

(** The properties of the document stored before, none when nothing was
    stored. *)
Definition storedProps (before : option Json) : gmap string R :=
  match before with Some p => spread p | None => ∅ end.

Inductive reachable {host : Host} : State -> Prop :=
  | reachable_boot (radius : R) (stored : option Text) :
      reachable (boot radius stored)
  | reachable_step (w : World) (e : Event) (s : State) :
      reachable s -> reachable (step w e s).

(** The cards that show as selected. *)
Definition highlighted (s : State) (i : nat) : Prop :=
  exists el : Card, cafeListEl s !! i = Some el /\ card_selected el = true.

(** Every highlighted card is the card registered for the selected id. *)
Definition selectionInvariant (s : State) : Prop :=
  forall i : nat, highlighted s i ->
    exists cafeId : string, selectedCafeId s = Some cafeId /\ idToCard s !! cafeId = Some i.

(** [s'] has the list, the card registry and the selection of [s]. *)
Definition sameSelection (s s' : State) : Prop :=
  cafeListEl s' = cafeListEl s /\ idToCard s' = idToCard s
  /\ selectedCafeId s' = selectedCafeId s.

(** No card of [s] shows as selected. *)
Definition noHighlight (s : State) : Prop :=
  Forall (fun el => card_selected el = false) (cafeListEl s).

(** Every registered card is among the children of the list. *)
Definition handlesValid (s : State) : Prop :=
  forall (k : string) (h : nat), idToCard s !! k = Some h -> h < length (cafeListEl s).

(** The list as [renderList] or [clearCafes] leaves it. *)
Definition freshList (s : State) : Prop := noHighlight s /\ handlesValid s.

(** From [s] to [s'] the list was left alone or made anew. *)
Definition calm (s s' : State) : Prop := sameSelection s s' \/ freshList s'.

(** A computation that leaves the list alone or makes it anew. *)
Definition calmly {A : Type} (m : M A) : Prop := forall s : State, calm s (exec m s).

End App.

(** ** Sample data *)

Module Samples.
Import Data.

(** A node with coordinates of its own and an address. *)
Definition streetNode : Element :=
  {| el_id := 1001%N;
     el_tags := Some (<["name" := "Corner House"]> (<["addr:street" := "MG Road"]>
                     (<["addr:housenumber" := "12"]> (<["addr:city" := "Bengaluru"]> ∅))));
     el_lat := Some 12.97%R; el_lon := Some 77.59%R;
     el_center := None |}.

(** The same node, with a center besides. *)
Definition streetNodeWithCenter : Element :=
  {| el_id := 1001%N;
     el_tags := el_tags streetNode;
     el_lat := Some 12.97%R; el_lon := Some 77.59%R;
     el_center := Some (<["lat" := 13%R]> (<["lon" := 78%R]> ∅)) |}.

(** A way with an address and a center. *)
Definition streetWay : Element :=
  {| el_id := 2002%N;
     el_tags := el_tags streetNode;
     el_lat := None; el_lon := None;
     el_center := Some (<["lat" := 12.97%R]> (<["lon" := 77.59%R]> ∅)) |}.

End Samples.

(** ** What the list and the map show *)

Module View.
Import Js Data Assembler Page Script App.

(** A page on which nothing was rendered. *)
Definition blank : State := loaded 0 None.

(** The card [renderList] makes for a cafe, and the one it shows for an
    empty result. *)
Definition cardOf (cafe : Cafe) : Card :=
  {| card_id := Some (id cafe); card_selected := false |}.

Definition emptyEl : Card := {| card_id := None; card_selected := false |}.

Definition cardsFor (cafes : list Cafe) : list Card :=
  match cafes with
  | [] => [emptyEl]
  | _ => map cardOf cafes
  end.

(** The marker [renderMarkers] makes for a cafe. *)
Definition markerOf (cafe : Cafe) : Marker := (lat cafe, lng cafe).

(** The registry [renderList] builds for [cafes]. *)
Definition cardRegistry (cafes : list Cafe) : gmap string nat :=
  idToCard (renderList cafes blank).

(** The registry of the markers of [cafes], each under the id of its
    cafe, a later cafe replacing an earlier one of the same id. *)
Definition markerRegistry (cafes : list Cafe) : gmap string Marker :=
  foldl (fun markers cafe => <[id cafe := markerOf cafe]> markers) ∅ cafes.

(** The two counts [stars] hands to [repeat] for the rating are not
    negative: the rating is no number, or it rounds to one of 0 to 5. *)
Definition starsFit (rating : option R) : bool :=
  match rating with
  | Some rating => (0 <=? round rating)%Z && (round rating <=? 5)%Z
  | None => true
  end.

(** [renderMarkers] gets past the cafe: its stars fit and it has both
    coordinates. *)
Definition drawable (cafe : Cafe) : bool :=
  starsFit (rating cafe) &&
  match lat cafe, lng cafe with
  | Some _, Some _ => true
  | _, _ => false
  end.

(** The cafes before the first one that is not drawable. *)
Fixpoint drawn (cafes : list Cafe) : list Cafe :=
  match cafes with
  | [] => []
  | cafe :: rest => if drawable cafe then cafe :: drawn rest else []
  end.

(** The page after [updateUI] has written the filtered set and
    [renderMarkers] has run on it. *)
Definition marked (cafes : list Cafe) (s : State) : State :=
  set_idToMarker (markerRegistry (drawn cafes))
    (set_cafeLayer (map markerOf (drawn cafes)) (set_filteredCafes cafes s)).

(** The error [renderMarkers] throws on [cafes], when it throws. *)
Definition drawError (cafes : list Cafe) : Error :=
  match fst (renderMarkers cafes blank) with
  | Throw e => e
  | Normal _ => ErrorMsg ""
  end.

(** The page after [updateUI cafes 'search'] has returned, and after
    [updateUI cafes 'fetch'] has. *)
Definition listed (cafes : list Cafe) (s : State) : State :=
  renderList cafes (marked cafes s).

Definition fetched (cafes : list Cafe) (s : State) : State :=
  setSummary (pretty (length cafes) +:+ " cafe(s) found") (listed cafes s).

(** The page the [catch] clause of [searchNearby] leaves, entered with
    [err]: the bundled file is shown, or the search gives up because the
    file could not be loaded or could not be rendered. *)
Definition caught (w : World) (lat lng : R) (err : Error) (s : State) : State :=
  let s := warned err s in
  match readFallback (cafes_json w) with
  | Throw e2 => gaveUp e2 s
  | Normal items =>
      let fallback := attachDistances items lat lng in
      let s := set_allCafes fallback s in
      if forallb drawable fallback
      then setSummary "Showing fallback cafes" (fetched fallback s)
      else gaveUp (drawError fallback) (marked fallback s)
  end.

(** The page [searchNearby] leaves. *)
Definition searched (w : World) (lat lng radiusMeters : R) (s : State) : State :=
  let s := asked lat lng radiusMeters s in
  showSpinner false
    match readOverpass (overpass w lat lng radiusMeters) with
    | Normal [] => caught w lat lng (ErrorMsg "No Overpass results") s
    | Normal (c :: cs) =>
        let cafes := attachDistances (c :: cs) lat lng in
        let s := set_allCafes cafes s in
        if forallb drawable cafes then fetched cafes s
        else caught w lat lng (drawError cafes) (marked cafes s)
    | Throw e => caught w lat lng e s
    end.

(** [h] is the last position of [cafes] that holds a cafe of id [k]. *)
Definition lastWith (cafes : list Cafe) (k : string) (h : nat) : Prop :=
  (exists c : Cafe, cafes !! h = Some c /\ id c = k)
  /\ forall (j : nat) (c' : Cafe), h < j -> cafes !! j = Some c' -> id c' <> k.

(** The list and the map show [cafes], the highlight aside. *)
Definition shows (s : State) (cafes : list Cafe) : Prop :=
  map card_id (cafeListEl s) = map card_id (cardsFor cafes)
  /\ idToCard s = cardRegistry cafes
  /\ idToMarker s = markerRegistry cafes
  /\ cafeLayer s = map markerOf cafes.

(** The list and the map show nothing, as after [clearCafes]. *)
Definition cleared (s : State) : Prop :=
  cafeListEl s = [] /\ idToCard s = ∅ /\ idToMarker s = ∅ /\ cafeLayer s = [].

(** A rendering that stopped at a cafe that is not drawable: the map
    shows the cafes before it, and the list is the one of an earlier
    rendering, or empty. *)
Definition torn (s : State) (cafes : list Cafe) : Prop :=
  idToMarker s = markerRegistry (drawn cafes)
  /\ cafeLayer s = map markerOf (drawn cafes)
  /\ ((cafeListEl s = [] /\ idToCard s = ∅)
      \/ exists before : list Cafe,
           map card_id (cafeListEl s) = map card_id (cardsFor before)
           /\ idToCard s = cardRegistry before).

(** The list and the map show the filtered set, or nothing, or the
    rendering of the filtered set stopped half-way. *)
Definition inStep (s : State) : Prop :=
  (forallb drawable (filteredCafes s) = true /\ shows s (filteredCafes s))
  \/ cleared s
  \/ (forallb drawable (filteredCafes s) = false /\ torn s (filteredCafes s)).

(** The fields that say what is shown and selected are the same in [s]
    and [s'], the highlight aside. *)
Definition sameView (s s' : State) : Prop :=
  map card_id (cafeListEl s') = map card_id (cafeListEl s)
  /\ idToCard s' = idToCard s
  /\ idToMarker s' = idToMarker s
  /\ cafeLayer s' = cafeLayer s
  /\ filteredCafes s' = filteredCafes s.

(** A handler respects a relation on states when it relates the state it
    starts from to the state it leaves. *)
Definition respects (rel : State -> State -> Prop) {A : Type} (m : M A) : Prop :=
  forall s : State, rel s (exec m s).

(** The fields a search has no business with are the same in [s] and
    [s']. *)
Definition untouched (s s' : State) : Prop :=
  searchInput s' = searchInput s
  /\ selectedCafeId s' = selectedCafeId s
  /\ userMarker s' = userMarker s
  /\ radiusSelect s' = radiusSelect s
  /\ localStorage s' = localStorage s
  /\ mapView s' = mapView s.

(** A step from [s] to [s'] keeps the list and the map in step. *)
Definition stays (s s' : State) : Prop := inStep s -> inStep s'.

End View.

(** ** Sample worlds *)

Module Worlds.
Import Data Page.

(** A world where Overpass answers with one node. *)
Definition onlineWorld : World :=
  {| overpass := fun _ _ _ => Body (Some [Samples.streetNode]);
     cafes_json := Rejected |}.

(** The records the bundled file of [offlineWorld] gives. *)
Definition offlineCafes : list Cafe :=
  match Script.readFallback (cafes_json App.offlineWorld) with
  | Normal items => items
  | Throw _ => []
  end.

(** The page after a point in Bengaluru is picked in [offlineWorld], on
    the page as loaded with nothing stored. *)
Definition picked : State :=
  App.step (host := Js.asciiHost) App.offlineWorld (App.ClickPick 12.97 77.59)
    (App.boot 1000 None).

(** A world where Overpass answers with a node and a way, as it does
    under [out tags center], and the bundled file holds one cafe. *)
Definition wayWorld : World :=
  {| overpass := fun _ _ _ => Body (Some [Samples.streetNode; Samples.streetWay]);
     cafes_json := cafes_json App.offlineWorld |}.

End Worlds.

(** * Properties *)

(** ** Geometry *)

Module GeometryFacts.
Import Geometry.
Local Open Scope R_scope.

Lemma toRad_sub (x y : R) : toRad (x - y) = toRad x - toRad y.
Proof. unfold toRad. field. Qed.

Lemma toRad_swap (x y : R) : toRad (x - y) / 2 = - (toRad (y - x) / 2).
Proof. unfold toRad. field. Qed.

Lemma sin_half_sq (x : R) : sin (x / 2) ^ 2 = (1 - cos x) / 2.
Proof.
  replace (cos x) with (cos (2 * (x / 2))) by (f_equal; field).
  rewrite cos_2a_sin. field.
Qed.

Lemma unit_product_bound (sx cx sy cy k : R) :
  sx * sx + cx * cx = 1 -> sy * sy + cy * cy = 1 -> -1 <= k <= 1 ->
  -1 <= sx * sy + cx * cy * k <= 1.
Proof.
  intros Hx Hy Hk.
  assert (Hsq : (sx * sy + cx * cy * k) ^ 2 <= 1).
  { assert (Hcs : (sx * sy + cx * cy * k) ^ 2 =
                  (sx * sx + cx * cx) * (sy * sy + cy * cy * k * k)
                  - (sx * cy * k - cx * sy) ^ 2) by ring.
    pose proof (pow2_ge_0 (sx * cy * k - cx * sy)) as Hpos.
    assert (Hc : cy * cy * k * k <= cy * cy).
    { assert (0 <= cy * cy) by nra. assert (k * k <= 1) by nra. nra. }
    rewrite Hcs, Hx. nra. }
  split; nra.
Qed.

(** The quantity under the square roots is the haversine of the central
    angle: it stays within [0, 1], so neither square root is taken of a
    negative number. *)
Lemma haversine_range (lat1 lon1 lat2 lon2 : R) :
  0 <= haversine lat1 lon1 lat2 lon2 <= 1.
Proof.
  unfold haversine. cbv zeta.
  rewrite !sin_half_sq, toRad_sub, cos_minus.
  set (x := toRad lat1). set (y := toRad lat2).
  set (k := cos (toRad (lon2 - lon1))).
  assert (Hx : sin x * sin x + cos x * cos x = 1).
  { pose proof (sin2_cos2 x) as H. unfold Rsqr in H. exact H. }
  assert (Hy : sin y * sin y + cos y * cos y = 1).
  { pose proof (sin2_cos2 y) as H. unfold Rsqr in H. exact H. }
  assert (Hk : -1 <= k <= 1) by apply COS_bound.
  pose proof (unit_product_bound (sin x) (cos x) (sin y) (cos y) k Hx Hy Hk) as Hb.
  split; nra.
Qed.

Lemma haversine_sym (lat1 lon1 lat2 lon2 : R) :
  haversine lat1 lon1 lat2 lon2 = haversine lat2 lon2 lat1 lon1.
Proof.
  unfold haversine. cbv zeta.
  rewrite (toRad_swap lat2 lat1), (toRad_swap lon2 lon1), !sin_neg.
  ring.
Qed.

Lemma haversine_same (lat lon : R) : haversine lat lon lat lon = 0.
Proof.
  unfold haversine, toRad. cbv zeta.
  replace ((lat - lat) * PI / 180 / 2) with 0 by field.
  replace ((lon - lon) * PI / 180 / 2) with 0 by field.
  rewrite sin_0. ring.
Qed.

Lemma atan2_0_1 : atan2 0 1 = 0.
Proof.
  unfold atan2. destruct (Rlt_dec 0 1) as [_ | H]; [| lra].
  replace (0 / 1) with 0 by field. apply atan_0.
Qed.

(** C5. The distance does not depend on the order of the two points, and a
    point is at distance 0 from itself. *)
Theorem haversineDistance_symmetric_and_zero :
  (forall lat1 lon1 lat2 lon2 : R,
      haversineDistance lat1 lon1 lat2 lon2 = haversineDistance lat2 lon2 lat1 lon1) /\
  (forall lat lon : R, haversineDistance lat lon lat lon = 0).
Proof.
  split.
  - intros lat1 lon1 lat2 lon2. unfold haversineDistance. cbv zeta.
    now rewrite (haversine_sym lat1 lon1 lat2 lon2).
  - intros lat lon. unfold haversineDistance. cbv zeta.
    rewrite haversine_same, Rminus_0_r, sqrt_0, sqrt_1, atan2_0_1. ring.
Qed.

(** The distance is never negative. *)
Lemma haversineDistance_nonneg (lat1 lon1 lat2 lon2 : R) :
  0 <= haversineDistance lat1 lon1 lat2 lon2.
Proof.
  unfold haversineDistance. cbv zeta.
  pose proof (haversine_range lat1 lon1 lat2 lon2) as [Ha0 Ha1].
  set (a := haversine lat1 lon1 lat2 lon2) in *.
  pose proof (sqrt_pos a) as Hy. pose proof (sqrt_pos (1 - a)) as Hx.
  assert (Hc : 0 <= atan2 (sqrt a) (sqrt (1 - a))).
  { unfold atan2.
    destruct (Rlt_dec 0 (sqrt (1 - a))) as [Hpos | Hnpos].
    - destruct (Rle_lt_or_eq_dec 0 (sqrt a) Hy) as [Hlt | Heq].
      + left. rewrite <- atan_0. apply atan_increasing.
        apply Rdiv_lt_0_compat; assumption.
      + rewrite <- Heq. replace (0 / sqrt (1 - a)) with 0 by (field; lra).
        rewrite atan_0. lra.
    - destruct (Rlt_dec (sqrt (1 - a)) 0) as [Hneg | _]; [lra |].
      destruct (Rlt_dec 0 (sqrt a)) as [_ | _].
      + pose proof PI_RGT_0. lra.
      + destruct (Rlt_dec (sqrt a) 0); lra. }
  nra.
Qed.

End GeometryFacts.

(** ** Sorting *)

Module SortFacts.
Import Js.

Section Insertion.
Context {A : Type} (compareFn : A -> A -> number).

Lemma sortInsert_perm (x : A) (l : list A) :
  Permutation (sortInsert compareFn x l) (x :: l).
Proof.
  induction l as [| y r IH]; simpl; [reflexivity |].
  destruct (isPositive (compareFn x y)); [| reflexivity].
  rewrite IH. apply perm_swap.
Qed.

Lemma sort_perm (l : list A) : Permutation (sort compareFn l) l.
Proof.
  induction l as [| x r IH]; simpl; [reflexivity |].
  rewrite sortInsert_perm. now constructor.
Qed.

(** A comparator that orders a class [dom] of values by a real key. *)
Context (dom : A -> Prop) (key : A -> R).
Hypothesis compare_key :
  forall x y : A, dom x -> dom y ->
    (isPositive (compareFn x y) = true <-> (key y < key x)%R).




End Insertion.

Example sort_numbers :
  sort (fun a b : R => sub (Num a) (Num b)) [3; 1; 2; 1]%R = [1; 1; 2; 3]%R.
Proof.
  simpl. repeat (destruct (Rlt_dec _ _) as [H | H]; try lra; simpl; clear H).
  reflexivity.
Qed.

End SortFacts.

(** ** Distances and order *)

Module AssemblerFacts.
Import Js Data Assembler SortFacts.






End AssemblerFacts.

(** ** Normalization of Overpass elements *)

Module NormalizeFacts.
Import Js Data Assembler.

Lemma truthyR_0 : truthyR 0 = false.
Proof. unfold truthyR. destruct (Req_dec_T 0 0) as [_ | H]; [reflexivity | now destruct H]. Qed.

Lemma truthyR_true (x : R) : truthyR x = true <-> x <> 0%R.
Proof.
  unfold truthyR. destruct (Req_dec_T x 0) as [H | H]; split; intros H'; congruence.
Qed.

Lemma filterBoolean_map_singleton {A B : Type} (f : A -> option B) (x : A) :
  filterBoolean (map f [x]) = match f x with Some y => [y] | None => [] end.
Proof. simpl. destruct (f x); reflexivity. Qed.

(** An element is dropped exactly when it has neither usable coordinates
    of its own nor a center. *)
Lemma directCoordinates_test (el : Element) :
  directCoordinates el <->
  match el_lat el, el_lon el with
  | Some nlat, Some nlon => truthyR nlat && truthyR nlon = true
  | _, _ => False
  end.
Proof.
  unfold directCoordinates. split.
  - intros (nlat & nlon & -> & -> & H1 & H2).
    apply truthyR_true in H1, H2. now rewrite H1, H2.
  - destruct (el_lat el) as [nlat |]; [| intros []].
    destruct (el_lon el) as [nlon |]; [| intros []].
    intros Ht. apply andb_true_iff in Ht as [H1 H2]. apply truthyR_true in H1, H2.
    exists nlat, nlon. auto.
Qed.

Lemma normalizeElement_None (el : Element) :
  normalizeElement el = None <-> ~ directCoordinates el /\ el_center el = None.
Proof.
  rewrite directCoordinates_test. unfold normalizeElement. cbv zeta.
  destruct (el_lat el) as [nlat |], (el_lon el) as [nlon |].
  1: destruct (truthyR nlat && truthyR nlon).
  1: { split; [discriminate |]. intros [Hn _]. now destruct Hn. }
  all: destruct (el_center el); split.
  all: try discriminate.
  all: try (intros [_ H]; discriminate H).
  all: try (intros _; split; [| reflexivity]).
  all: try tauto.
  all: try discriminate.
  all: try reflexivity.
Qed.

(** A record made from an element's own coordinates has both. *)
Lemma normalizeElement_direct (el : Element) :
  directCoordinates el ->
  exists c : Cafe,
    normalizeElement el = Some c /\ lat c = el_lat el /\ lng c = el_lon el.
Proof.
  intros (nlat & nlon & Hlat & Hlon & H1 & H2).
  apply truthyR_true in H1, H2.
  unfold normalizeElement. cbv zeta. rewrite Hlat, Hlon, H1, H2. simpl.
  eexists. split; [reflexivity |]. simpl. split; reflexivity.
Qed.

(** A record made from a center has what the center holds under [lat] and
    [lng]. *)
Lemma normalizeElement_center (el : Element) (center : gmap string R) :
  ~ directCoordinates el -> el_center el = Some center ->
  exists c : Cafe,
    normalizeElement el = Some c /\ lat c = center !! "lat" /\ lng c = center !! "lng".
Proof.
  intros Hn Hc. unfold normalizeElement. cbv zeta. rewrite Hc.
  destruct (el_lat el) as [nlat |] eqn:Hlat, (el_lon el) as [nlon |] eqn:Hlon;
    try (eexists; split; [reflexivity |]; simpl; split; reflexivity).
  destruct (truthyR nlat && truthyR nlon) eqn:Ht.
  - destruct Hn. unfold directCoordinates. rewrite Hlat, Hlon.
    apply andb_true_iff in Ht as [H1 H2]. apply truthyR_true in H1, H2.
    exists nlat, nlon. auto.
  - eexists; split; [reflexivity |]; simpl; split; reflexivity.
Qed.

Example normalizeElement_tags :
  (fun c => (Data.id c, name c, area c, address c, contact c)) <$>
    normalizeElement
      {| el_id := 42%N;
         el_tags := Some (<["name" := "Third Wave"]> (<["addr:street" := "MG Road"]>
                         (<["addr:housenumber" := "12"]> (<["addr:city" := "Bengaluru"]>
                         (<["phone" := "080-1234"]> ∅)))));
         el_lat := None; el_lon := None;
         el_center := Some ∅ |}
  = Some ("42", Some "Third Wave", Some "Bengaluru", "12, MG Road, Bengaluru", "080-1234").
Proof. reflexivity. Qed.

(** C3. On a way with a center, as Overpass returns it, normalization
    keeps a record whose [lng] is undefined: the center names its longitude
    [lon], the record reads [lng].  So not every normalized record has both
    coordinates. *)
Theorem normalize_center_without_lng :
  (exists c : Cafe,
      normalize [wayElement] = [c] /\ lat c = Some 12.97%R /\ lng c = None) /\
  ~ (forall elements : list Element,
        Forall (fun c => is_Some (lat c) /\ is_Some (lng c)) (normalize elements)).
Proof.
  assert (Hex : exists c : Cafe,
      normalize [wayElement] = [c] /\ lat c = Some 12.97%R /\ lng c = None).
  { assert (Hn : ~ directCoordinates wayElement).
    { intros (? & ? & H & _). discriminate. }
    destruct (normalizeElement_center wayElement _ Hn eq_refl) as (c & Hc & Hlat & Hlng).
    exists c. unfold normalize. rewrite filterBoolean_map_singleton, Hc.
    split; [reflexivity |]. rewrite Hlat, Hlng. split.
    - now rewrite lookup_insert_eq.
    - rewrite lookup_insert_ne by discriminate.
      rewrite lookup_insert_ne by discriminate. apply lookup_empty. }
  split; [exact Hex |].
  destruct Hex as (c & Hc & _ & Hlng). intros Hall.
  specialize (Hall [wayElement]). rewrite Hc in Hall.
  inversion Hall as [| ? ? [_ [v Hv]] _]; subst. congruence.
Qed.

(** C10. An element whose own latitude or longitude is 0 is handled as if
    it had no coordinates of its own: it is kept exactly when it has a
    center, and dropped otherwise. *)
Theorem zero_coordinate_needs_center (el : Element) :
  el_lat el = Some 0%R \/ el_lon el = Some 0%R ->
  normalizeElement el = normalizeElement (withoutCoordinates el)
  /\ (is_Some (normalizeElement el) <-> is_Some (el_center el))
  /\ (el_center el = None -> normalize [el] = []).
Proof.
  intros Hz.
  assert (Hn : ~ directCoordinates el).
  { intros (nlat & nlon & Hlat & Hlon & H1 & H2).
    destruct Hz as [Hz | Hz]; congruence. }
  assert (Hn' : ~ directCoordinates (withoutCoordinates el)).
  { intros (? & ? & H & _). discriminate. }
  assert (Hkept : is_Some (normalizeElement el) <-> is_Some (el_center el)).
  { split.
    - intros [c Hc]. destruct (el_center el) as [center |] eqn:Hcen; [eauto |].
      assert (Hnone : normalizeElement el = None) by (apply normalizeElement_None; auto).
      congruence.
    - intros [center Hcen].
      destruct (normalizeElement_center el center Hn Hcen) as (c & Hc & _). eauto. }
  split; [| split].
  - unfold normalizeElement. cbv zeta. simpl.
    destruct (el_lat el) as [nlat |] eqn:Hlat, (el_lon el) as [nlon |] eqn:Hlon;
      try reflexivity.
    destruct (truthyR nlat && truthyR nlon) eqn:Ht; [| reflexivity].
    apply andb_true_iff in Ht as [H1 H2]. apply truthyR_true in H1, H2.
    destruct Hz as [Hz | Hz]; congruence.
  - exact Hkept.
  - intros Hcen. unfold normalize. rewrite filterBoolean_map_singleton.
    assert (Hnone : normalizeElement el = None) by (apply normalizeElement_None; auto).
    now rewrite Hnone.
Qed.

(** C10 at a node on the prime meridian, which has no center. *)
Lemma zero_coordinate_needs_center_witness :
  normalize [meridianNode] = [].
Proof.
  refine (proj2 (proj2 (zero_coordinate_needs_center meridianNode _)) _).
  - right. reflexivity.
  - reflexivity.
Defined.

End NormalizeFacts.

(** ** Strings *)

Module StringFacts.
Import Js.

Lemma append_nil_r (s : string) : s +:+ "" = s.
Proof. induction s as [| c r IH]; [reflexivity |]. change (String c (r +:+ "") = String c r). now rewrite IH. Qed.

Lemma append_assoc (a b c : string) : (a +:+ b) +:+ c = a +:+ (b +:+ c).
Proof.
  induction a as [| x r IH]; [reflexivity |].
  change (String x ((r +:+ b) +:+ c) = String x (r +:+ (b +:+ c))). now rewrite IH.
Qed.

Lemma prefix_spec (q s : string) :
  String.prefix q s = true <-> exists post : string, s = q +:+ post.
Proof.
  revert s. induction q as [| c q IH]; intros s.
  - split; [intros _; now exists s | intros _; now destruct s].
  - destruct s as [| d s]; simpl.
    + split; [discriminate | intros [post H]; discriminate H].
    + destruct (ascii_dec c d) as [-> | Hne].
      * rewrite IH. split; intros [post H]; exists post.
        -- change (String d s = String d (q +:+ post)). now rewrite H.
        -- change (String d s = String d (q +:+ post)) in H. now inversion H.
      * split; [discriminate |]. intros [post H].
        change (String d s = String c (q +:+ post)) in H. inversion H. congruence.
Qed.

Lemma includes_spec (s q : string) :
  includes s q = true <-> exists pre post : string, s = pre +:+ q +:+ post.
Proof.
  induction s as [| c r IH].
  - cbn [includes]. rewrite orb_false_r, prefix_spec. split.
    + intros [post H]. now exists "", post.
    + intros (pre & post & H). destruct pre as [| x pre]; [now exists post |].
      discriminate H.
  - cbn [includes]. rewrite orb_true_iff, prefix_spec, IH. split.
    + intros [[post H] | (pre & post & H)].
      * now exists "", post.
      * exists (String c pre), post.
        change (String c r = String c (pre +:+ q +:+ post)). now rewrite H.
    + intros (pre & post & H). destruct pre as [| x pre].
      * left. now exists post.
      * right. exists pre, post.
        change (String c r = String x (pre +:+ q +:+ post)) in H. now inversion H.
Qed.

Lemma orStr_empty (v : option string) : orStr v "" = Filter.textOf v.
Proof. destruct v as [[| c r] |]; reflexivity. Qed.

Lemma truthyStr_false (s : string) : negb (truthyStr s) = true <-> s = "".
Proof. destruct s; simpl; split; intros H; congruence. Qed.

Example trim_example : asciiTrim "   Cafe Noir  " = "Cafe Noir".
Proof. reflexivity. Qed.

Example trim_blank : asciiTrim "    " = "".
Proof. reflexivity. Qed.

(** Lower-casing gives the empty string for the empty string only. *)
Lemma asciiLowerCase_empty (text : string) : asciiLowerCase text = "" <-> text = "".
Proof. destruct text; simpl; split; intros H; try reflexivity; discriminate H. Qed.

Example toLowerCase_example : asciiLowerCase "Blue Tokai, HSR" = "blue tokai, hsr".
Proof. reflexivity. Qed.

Example includes_inside : includes "blue tokai" "tok" = true.
Proof. reflexivity. Qed.

Example includes_empty : includes "" "" = true.
Proof. reflexivity. Qed.

Example includes_absent : includes "third wave" "tea" = false.
Proof. reflexivity. Qed.

Example join_example : join ", " ["12"; "MG Road"; "Bengaluru"] = "12, MG Road, Bengaluru".
Proof. reflexivity. Qed.

Example matches_name :
  Filter.matches (host := asciiHost) "tok" (Assembler.cafeAt "Blue Tokai" 12.97 77.64) = true.
Proof. reflexivity. Qed.

End StringFacts.

(** ** Rendering *)

Module RenderFacts.
Import Js Data Page Script View.
Local Open Scope js_scope.

(** The callback of [cafes.forEach] in [renderMarkers]. *)
Local Abbreviation draw :=
  (fun cafe : Cafe =>
     stars (rating cafe);;
     marker <- L_marker (lat cafe) (lng cafe);;
     modify (fun s => set_cafeLayer (cafeLayer s ++ [marker]) s);;
     modify (fun s => set_idToMarker (<[id cafe := marker]> (idToMarker s)) s)).

(** [stars] completes exactly when the stars fit, and writes nothing. *)
Lemma stars_run (rating : option R) :
  if starsFit rating then forall s : State, stars rating s = (Normal tt, s)
  else exists e : Error, forall s : State, stars rating s = (Throw e, s).
Proof.
  destruct rating as [rating |]; simpl; [| reflexivity].
  unfold String_repeat, bind, throw, ret.
  destruct (Z.ltb_spec (round rating) 0) as [Hneg | Hpos].
  - rewrite (proj2 (Z.leb_gt 0 (round rating))) by lia. simpl. eauto.
  - rewrite (proj2 (Z.leb_le 0 (round rating))) by lia. simpl.
    destruct (Z.ltb_spec (5 - round rating) 0) as [Hbig | Hfit].
    + rewrite (proj2 (Z.leb_gt (round rating) 5)) by lia. eauto.
    + rewrite (proj2 (Z.leb_le (round rating) 5)) by lia. reflexivity.
Qed.

(** On a drawable cafe the callback adds the marker of the cafe to the
    layer and to the registry. *)
Lemma draw_accepts (cafe : Cafe) (s : State) :
  drawable cafe = true ->
  draw cafe s =
    (Normal tt,
     set_idToMarker (<[id cafe := markerOf cafe]> (idToMarker s))
       (set_cafeLayer (cafeLayer s ++ [markerOf cafe]) s)).
Proof.
  unfold drawable, markerOf. intros Hd. apply andb_true_iff in Hd as [Hs Hc].
  pose proof (stars_run (rating cafe)) as Hrun. rewrite Hs in Hrun.
  unfold bind. rewrite Hrun.
  destruct (lat cafe) as [clat |], (lng cafe) as [clng |]; try discriminate.
  reflexivity.
Qed.

(** On any other cafe it throws and writes nothing. *)
Lemma draw_refuses (cafe : Cafe) :
  drawable cafe = false ->
  exists e : Error, forall s : State, draw cafe s = (Throw e, s).
Proof.
  unfold drawable. intros Hd. pose proof (stars_run (rating cafe)) as Hrun.
  destruct (starsFit (rating cafe)).
  - simpl in Hd. eexists. intros s. unfold bind. rewrite Hrun.
    destruct (lat cafe) as [clat |], (lng cafe) as [clng |]; try discriminate;
      reflexivity.
  - destruct Hrun as [e He]. exists e. intros s. unfold bind. now rewrite He.
Qed.

(** The loop of [renderMarkers]: it draws the cafes before the first that
    is not drawable, and how it completes does not depend on the state. *)
Lemma renderMarkers_loop (cafes : list Cafe) :
  exists r : Completion unit,
    (forall s : State,
        forEach cafes draw s =
          (r, set_idToMarker
                (foldl (fun markers cafe => <[id cafe := markerOf cafe]> markers)
                   (idToMarker s) (drawn cafes))
                (set_cafeLayer (cafeLayer s ++ map markerOf (drawn cafes)) s)))
    /\ (if forallb drawable cafes then r = Normal tt else exists e : Error, r = Throw e).
Proof.
  induction cafes as [| c rest IH].
  - exists (Normal tt). split; [| reflexivity].
    intros s. simpl. rewrite app_nil_r. now destruct s.
  - simpl. destruct (drawable c) eqn:Hc.
    + destruct IH as (r & Hrun & Hr). exists r. split; [| exact Hr].
      intros s. unfold bind at 1. rewrite (draw_accepts c s Hc), Hrun. simpl.
      now rewrite <- app_assoc.
    + destruct (draw_refuses c Hc) as [e He]. exists (Throw e). split.
      * intros s. unfold bind at 1. rewrite He. simpl. rewrite app_nil_r. now destruct s.
      * simpl. eauto.
Qed.

(** [renderMarkers] writes the layer and the marker registry, nothing
    else: the markers of the cafes before the first that is not drawable.
    It completes normally exactly when every cafe is drawable. *)
Lemma renderMarkers_run (cafes : list Cafe) :
  exists r : Completion unit,
    (forall s : State,
        renderMarkers cafes s =
          (r, set_idToMarker (markerRegistry (drawn cafes))
                (set_cafeLayer (map markerOf (drawn cafes)) s)))
    /\ (if forallb drawable cafes then r = Normal tt else exists e : Error, r = Throw e).
Proof.
  destruct (renderMarkers_loop cafes) as (r & Hrun & Hr). exists r. split; [| exact Hr].
  intros s. unfold renderMarkers, bind at 1 2, modify. rewrite Hrun. reflexivity.
Qed.

Lemma renderList_loop (cafes : list Cafe) (s : State) :
  exists (cards : list Card) (registry : gmap string nat),
    foldl (fun s cafe =>
             let card := {| card_id := Some (id cafe); card_selected := false |} in
             let handle := length (cafeListEl s) in
             let s := set_cafeListEl (cafeListEl s ++ [card]) s in
             set_idToCard (<[id cafe := handle]> (idToCard s)) s)
      s cafes
    = set_idToCard registry (set_cafeListEl (cafeListEl s ++ cards) s)
    /\ Forall (fun el => card_selected el = false) cards
    /\ (forall (k : string) (h : nat), registry !! k = Some h ->
          idToCard s !! k = Some h \/ h < length (cafeListEl s ++ cards)).
Proof.
  revert s. induction cafes as [| c r IH]; intros s.
  - exists [], (idToCard s). rewrite app_nil_r.
    split; [now destruct s |]. split; [constructor | auto].
  - simpl. edestruct IH as (cards & registry & -> & Hc & Hv).
    exists ({| card_id := Some (id c); card_selected := false |} :: cards), registry.
    split; [| split; [now constructor |]].
    + simpl. now rewrite <- app_assoc.
    + intros k h Hk. destruct (Hv k h Hk) as [Hin | Hlt].
      * simpl in Hin. apply lookup_insert_Some in Hin as [[_ <-] | [_ Hin]]; [| now left].
        right. rewrite length_app. simpl. lia.
      * right. simpl in Hlt. rewrite <- app_assoc in Hlt. exact Hlt.
Qed.

(** [renderList] writes the list and the card registry, nothing else; no
    card it makes is selected, and every card it registers is in the
    list. *)
Lemma renderList_shape (cafes : list Cafe) (s : State) :
  exists (cards : list Card) (registry : gmap string nat),
    renderList cafes s = set_idToCard registry (set_cafeListEl cards s)
    /\ Forall (fun el => card_selected el = false) cards
    /\ (forall (k : string) (h : nat), registry !! k = Some h -> h < length cards).
Proof.
  unfold renderList. cbv zeta. destruct cafes as [| c r].
  - eexists _, ∅. split; [reflexivity |]. split; [repeat constructor |].
    intros k h Hk. now rewrite lookup_empty in Hk.
  - edestruct renderList_loop as (cards & registry & -> & Hc & Hv).
    exists cards, registry. split; [reflexivity |]. split; [exact Hc |].
    intros k h Hk. destruct (Hv k h Hk) as [Hin | Hlt]; [| exact Hlt].
    simpl in Hin. now rewrite lookup_empty in Hin.
Qed.

Lemma renderList_filteredCafes (cafes : list Cafe) (s : State) :
  filteredCafes (renderList cafes s) = filteredCafes s.
Proof. destruct (renderList_shape cafes s) as (? & ? & -> & _). reflexivity. Qed.

(** [updateUI] writes the filtered set, then the markers; when every cafe
    is drawable it goes on to the list and, after a fetch, to the summary;
    otherwise it throws with the list and the summary as they were. *)
Lemma updateUI_run (cafes : list Cafe) (from : string) (s : State) :
  updateUI cafes from s =
    if forallb drawable cafes then
      (Normal tt, if negb (String.eqb from "search") then fetched cafes s else listed cafes s)
    else (Throw (drawError cafes), marked cafes s).
Proof.
  destruct (renderMarkers_run cafes) as (r & Hrun & Hr).
  assert (Hgo : updateUI cafes from s =
    match r with
    | Normal _ =>
        (Normal tt, if negb (String.eqb from "search") then fetched cafes s else listed cafes s)
    | Throw e => (Throw e, marked cafes s)
    end).
  { unfold updateUI, bind at 1 2, modify at 1, gets at 1. simpl.
    unfold bind at 1. rewrite Hrun. fold (marked cafes s).
    destruct r as [[] | e]; [| reflexivity].
    unfold bind, gets, modify. simpl. fold (listed cafes s).
    destruct (negb (String.eqb from "search")); [| reflexivity].
    unfold fetched, listed. rewrite renderList_filteredCafes. reflexivity. }
  rewrite Hgo. unfold drawError. rewrite (Hrun blank). simpl.
  destruct (forallb drawable cafes).
  - now subst r.
  - now destruct Hr as [e ->].
Qed.

Lemma updateUI_completes (cafes : list Cafe) (from : string) (s : State) :
  fst (updateUI cafes from s) = Normal tt <-> forallb drawable cafes = true.
Proof.
  rewrite updateUI_run. destruct (forallb drawable cafes); simpl; split; congruence.
Qed.

(** [updateUI] writes the filtered set, the layer, the list, the two
    registries and the summary, nothing else; it leaves the list and the
    card registry as they were, or makes them anew. *)
Lemma updateUI_shape (cafes : list Cafe) (from : string) (s : State) :
  exists (summary : string) (layer : list Marker) (markers : gmap string Marker)
         (cards : list Card) (registry : gmap string nat),
    exec (updateUI cafes from) s =
      set_resultSummary summary
        (set_idToCard registry (set_cafeListEl cards
           (set_idToMarker markers (set_cafeLayer layer (set_filteredCafes cafes s)))))
    /\ ((cards = cafeListEl s /\ registry = idToCard s)
        \/ (Forall (fun el => card_selected el = false) cards
            /\ (forall (k : string) (h : nat), registry !! k = Some h -> h < length cards))).
Proof.
  unfold exec. rewrite updateUI_run.
  destruct (forallb drawable cafes); simpl.
  - unfold fetched, listed.
    destruct (renderList_shape cafes (marked cafes s)) as (cards & registry & -> & Hc).
    destruct (negb (String.eqb from "search")).
    + eexists _, _, _, cards, registry. split; [reflexivity | now right].
    + exists (resultSummary s), (map markerOf (drawn cafes)),
        (markerRegistry (drawn cafes)), cards, registry.
      split; [| now right]. unfold marked. now destruct s.
  - exists (resultSummary s), (map markerOf (drawn cafes)),
      (markerRegistry (drawn cafes)), (cafeListEl s), (idToCard s).
    split; [| now left]. unfold marked. now destruct s.
Qed.

Lemma updateUI_filteredCafes (cafes : list Cafe) (from : string) (s : State) :
  filteredCafes (exec (updateUI cafes from) s) = cafes.
Proof. destruct (updateUI_shape cafes from s) as (? & ? & ? & ? & ? & -> & _). reflexivity. Qed.

Lemma updateUI_allCafes (cafes : list Cafe) (from : string) (s : State) :
  allCafes (exec (updateUI cafes from) s) = allCafes s.
Proof. destruct (updateUI_shape cafes from s) as (? & ? & ? & ? & ? & -> & _). reflexivity. Qed.

Lemma updateUI_searchInput (cafes : list Cafe) (from : string) (s : State) :
  searchInput (exec (updateUI cafes from) s) = searchInput s.
Proof. destruct (updateUI_shape cafes from s) as (? & ? & ? & ? & ? & -> & _). reflexivity. Qed.

Lemma updateUI_calls (cafes : list Cafe) (from : string) (s : State) :
  calls (exec (updateUI cafes from) s) = calls s.
Proof. destruct (updateUI_shape cafes from s) as (? & ? & ? & ? & ? & -> & _). reflexivity. Qed.

Lemma updateUI_selectedCafeId (cafes : list Cafe) (from : string) (s : State) :
  selectedCafeId (exec (updateUI cafes from) s) = selectedCafeId s.
Proof. destruct (updateUI_shape cafes from s) as (? & ? & ? & ? & ? & -> & _). reflexivity. Qed.

(** [updateUI] leaves the list alone or makes it anew. *)
Lemma updateUI_calm (cafes : list Cafe) (from : string) (s : State) :
  App.calm s (exec (updateUI cafes from) s).
Proof.
  destruct (updateUI_shape cafes from s) as (? & ? & ? & ? & ? & -> & [[-> ->] | H]).
  - left. repeat split.
  - right. exact H.
Qed.

End RenderFacts.

(** ** Search filter *)

Module FilterFacts.
Import Js Data Filter Page Script App StringFacts RenderFacts.
Local Open Scope js_scope.

Section WithHost.
Context {host : Host}.

Lemma matches_spec (q : string) (c : Cafe) :
  matches q c = true <-> nameOrAreaContains c q.
Proof.
  unfold matches, nameOrAreaContains, containsIgnoringCase.
  rewrite orb_true_iff, !orStr_empty, !includes_spec. reflexivity.
Qed.

(** The cafes [handleSearchInput] hands to [updateUI], and the summary it
    writes when [updateUI] returns. *)
Lemma handleSearchInput_run (s : State) :
  let q := toLowerCase (trim (searchInput s)) in
  let shown :=
    if negb (truthyStr q) then allCafes s else List.filter (matches q) (allCafes s) in
  let text :=
    if negb (truthyStr q) then pretty (length (allCafes s)) +:+ " cafe(s) found"
    else pretty (length shown) +:+ " result(s) for " +:+ quoted q in
  handleSearchInput s =
    match fst (updateUI shown "search" s) with
    | Normal _ => (Normal tt, setSummary text (exec (updateUI shown "search") s))
    | Throw e => (Throw e, exec (updateUI shown "search") s)
    end.
Proof.
  cbv zeta. unfold handleSearchInput, bind at 1, gets at 1. cbv beta iota zeta.
  destruct (negb (truthyStr (toLowerCase (trim (searchInput s))))).
  - unfold bind, gets, modify, exec. cbv beta iota.
    pose proof (updateUI_allCafes (allCafes s) "search" s) as Hall. unfold exec in Hall.
    destruct (updateUI (allCafes s) "search" s) as [[[] | e] s1]; simpl in *;
      [now rewrite Hall | reflexivity].
  - unfold bind, gets, modify, exec. cbv beta iota.
    destruct (updateUI _ "search" s) as [[[] | e] s1]; reflexivity.
Qed.

Lemma handleSearchInput_allCafes (s : State) :
  allCafes (exec handleSearchInput s) = allCafes s.
Proof.
  unfold exec at 1. rewrite handleSearchInput_run. cbv zeta.
  match goal with
  | |- context [updateUI ?c ?f s] =>
      pose proof (updateUI_allCafes c f s) as Hall;
      destruct (fst (updateUI c f s)); exact Hall
  end.
Qed.

Lemma handleSearchInput_searchInput (s : State) :
  searchInput (exec handleSearchInput s) = searchInput s.
Proof.
  unfold exec at 1. rewrite handleSearchInput_run. cbv zeta.
  match goal with
  | |- context [updateUI ?c ?f s] =>
      pose proof (updateUI_searchInput c f s) as Hin;
      destruct (fst (updateUI c f s)); exact Hin
  end.
Qed.

Lemma handleSearchInput_filteredCafes (s : State) :
  filteredCafes (exec handleSearchInput s) = matching s.
Proof.
  unfold exec at 1. rewrite handleSearchInput_run. cbv zeta. unfold matching.
  assert (Hq : (if negb (truthyStr (toLowerCase (trim (searchInput s))))
                then allCafes s
                else List.filter (matches (toLowerCase (trim (searchInput s)))) (allCafes s))
               = if decide (toLowerCase (trim (searchInput s)) = "") then allCafes s
                 else List.filter (matches (toLowerCase (trim (searchInput s)))) (allCafes s)).
  { destruct (negb (truthyStr (toLowerCase (trim (searchInput s))))) eqn:Hq.
    - apply truthyStr_false in Hq. now rewrite decide_True by exact Hq.
    - rewrite decide_False; [reflexivity |].
      intros H. apply truthyStr_false in H. congruence. }
  rewrite <- Hq.
  match goal with
  | |- context [updateUI ?c ?f s] =>
      pose proof (updateUI_filteredCafes c f s) as Hfil;
      destruct (fst (updateUI c f s)); exact Hfil
  end.
Qed.

(** C4. With [cafes] as the canonical set and [query] in the search box,
    the filtered set is [cafes] itself when the trimmed, lower-cased query
    is empty; otherwise it is, in order, the records of [cafes] whose name
    or area, lower-cased, contains the trimmed, lower-cased query.  Only
    [name] and [area] decide whether a record is kept, and they decide it
    case aside: records whose names and areas have the same lower-casing
    are kept or dropped together.  This holds whatever the host's
    [toLowerCase] and [trim] do, and also when rendering the result
    throws.  On a host whose [toLowerCase] gives the empty string for the
    empty string only, as every lower-casing of Unicode does, the query
    the code tests is empty exactly when the trimmed query is. *)
Theorem handleSearchInput_filter (s : State) :
  let q := toLowerCase (trim (searchInput s)) in
  filteredCafes (exec handleSearchInput s) =
    (if decide (q = "") then allCafes s else List.filter (matches q) (allCafes s))
  /\ (forall c : Cafe, matches q c = true <-> nameOrAreaContains c q)
  /\ (forall c c' : Cafe,
        name c = name c' -> area c = area c' -> matches q c = matches q c')
  /\ (forall c c' : Cafe,
        toLowerCase (textOf (name c)) = toLowerCase (textOf (name c')) ->
        toLowerCase (textOf (area c)) = toLowerCase (textOf (area c')) ->
        matches q c = matches q c')
  /\ ((forall text : string, toLowerCase text = "" <-> text = "") ->
      filteredCafes (exec handleSearchInput s) =
        if decide (trim (searchInput s) = "") then allCafes s
        else List.filter (matches q) (allCafes s)).
Proof.
  intros q. split; [| split; [| split; [| split]]].
  - apply handleSearchInput_filteredCafes.
  - intros c. apply matches_spec.
  - intros c c' Hn Ha. unfold matches. now rewrite Hn, Ha.
  - intros c c' Hn Ha. unfold matches. rewrite !orStr_empty. now rewrite Hn, Ha.
  - intros Hempty. rewrite handleSearchInput_filteredCafes.
    unfold matching. cbv zeta. fold q.
    assert (Hiff : q = "" <-> trim (searchInput s) = "") by apply Hempty.
    destruct (decide (q = "")) as [Hq | Hq];
      destruct (decide (trim (searchInput s) = "")) as [Ht | Ht];
      solve [reflexivity | tauto].
Qed.

End WithHost.

End FilterFacts.

(** ** Fetch with fallback *)

Module CoordinatorFacts.
Import Js Data Assembler Page Script App View RenderFacts StringFacts FilterFacts.
Local Open Scope js_scope.

(** The [catch] clause of [searchNearby]. *)
Local Abbreviation onError w latitude longitude err :=
  (call (ConsoleWarn err);;
   tryCatch
     (fallback <- loadFallbackCafes w;;
      let fallback := attachDistances fallback latitude longitude in
      modify (set_allCafes fallback);;
      all <- gets allCafes;;
      updateUI all "fetch";;
      modify (setSummary "Showing fallback cafes"))
     (fun e2 =>
        modify (setSummary "Could not load cafes.");;
        call (ConsoleError e2))).

(** The [catch] clause always completes normally. *)
Lemma onError_run (w : World) (lat lng : R) (err : Error) (s : State) :
  onError w lat lng err s = (Normal tt, caught w lat lng err s).
Proof.
  unfold caught. cbv zeta.
  unfold tryCatch, loadFallbackCafes, call. unfold bind, modify, complete, gets.
  cbv beta iota zeta. fold (warned err s).
  destruct (readFallback (cafes_json w)) as [items | e2]; [| reflexivity].
  cbv beta iota zeta.
  change (allCafes (set_allCafes (attachDistances items lat lng) (warned err s)))
    with (attachDistances items lat lng).
  rewrite updateUI_run.
  destruct (forallb drawable (attachDistances items lat lng)); reflexivity.
Qed.

(** The search always completes normally. *)
Lemma searchNearby_run (w : World) (lat lng radiusMeters : R) (s : State) :
  searchNearby w lat lng radiusMeters s = (Normal tt, searched w lat lng radiusMeters s).
Proof.
  unfold searchNearby, searched. cbv zeta.
  match goal with
  | |- tryFinally (tryCatch _ ?h) _ s = ?rhs => set (handler := h); set (goal := rhs)
  end.
  unfold tryFinally, tryCatch, fetchOverpassCafes, call.
  unfold bind, modify, complete, gets, throw.
  cbv beta iota zeta. fold (asked lat lng radiusMeters s). subst goal.
  destruct (readOverpass (overpass w lat lng radiusMeters)) as [[| c cs] | e];
    cbv beta iota.
  - subst handler. cbv beta. rewrite onError_run. reflexivity.
  - change (allCafes (set_allCafes (attachDistances (c :: cs) lat lng)
                        (asked lat lng radiusMeters s)))
      with (attachDistances (c :: cs) lat lng).
    rewrite updateUI_run.
    destruct (forallb drawable (attachDistances (c :: cs) lat lng)); cbv beta iota.
    + reflexivity.
    + subst handler. cbv beta. rewrite onError_run. reflexivity.
  - subst handler. cbv beta. rewrite onError_run. reflexivity.
Qed.

Lemma searchNearby_exec (w : World) (lat lng radiusMeters : R) (s : State) :
  exec (searchNearby w lat lng radiusMeters) s = searched w lat lng radiusMeters s.
Proof. unfold exec. now rewrite searchNearby_run. Qed.

Lemma drawable_setDistance (d : number) (c : Cafe) : drawable (setDistance d c) = drawable c.
Proof. reflexivity. Qed.

Lemma forallb_Permutation {A : Type} (p : A -> bool) (l l' : list A) :
  Permutation l l' -> forallb p l = forallb p l'.
Proof.
  induction 1 as [| x l l' _ IH | x y l | l l' l'' _ IH1 _ IH2]; simpl.
  - reflexivity.
  - now rewrite IH.
  - now rewrite !andb_assoc, (andb_comm (p y)).
  - congruence.
Qed.

(** Whether every cafe is drawable does not change with the distances
    attached. *)
Lemma drawable_attachDistances (cafes : list Cafe) (lat lng : R) :
  forallb drawable (attachDistances cafes lat lng) = forallb drawable cafes.
Proof.
  unfold attachDistances. cbv zeta.
  rewrite (forallb_Permutation _ _ _ (SortFacts.sort_perm _ _)).
  induction cafes as [| c r IH]; simpl; [reflexivity |].
  now rewrite IH, drawable_setDistance.
Qed.

Lemma fetches_app (s : State) (l : list Call) (s' : State) :
  calls s' = calls s ++ l -> fetches s' = fetches s ++ List.filter isFetch l.
Proof. unfold fetches. intros ->. apply List.filter_app. Qed.

Lemma fetches_showSpinner (show : bool) (s : State) :
  fetches (showSpinner show s) = fetches s.
Proof. reflexivity. Qed.

(** What [listed], [fetched] and [marked] leave in the fields that the
    coordination is about. *)
Lemma listed_fields (cafes : list Cafe) (s : State) :
  calls (listed cafes s) = calls s
  /\ allCafes (listed cafes s) = allCafes s
  /\ filteredCafes (listed cafes s) = cafes
  /\ resultSummary (listed cafes s) = resultSummary s
  /\ searchInput (listed cafes s) = searchInput s.
Proof.
  unfold listed.
  destruct (renderList_shape cafes (marked cafes s)) as (cards & registry & -> & _).
  repeat split.
Qed.

Lemma fetched_fields (cafes : list Cafe) (s : State) :
  calls (fetched cafes s) = calls s
  /\ allCafes (fetched cafes s) = allCafes s
  /\ filteredCafes (fetched cafes s) = cafes
  /\ resultSummary (fetched cafes s) = pretty (length cafes) +:+ " cafe(s) found"
  /\ searchInput (fetched cafes s) = searchInput s.
Proof.
  destruct (listed_fields cafes s) as (H1 & H2 & H3 & _ & H5). unfold fetched.
  repeat split; assumption.
Qed.

(** What the [catch] clause leaves. *)
Lemma caught_fields (w : World) (lat lng : R) (err : Error) (s : State) :
  let s' := caught w lat lng err s in
  fetches s' = fetches s ++ [FetchFallback]
  /\ searchInput s' = searchInput s
  /\ match readFallback (cafes_json w) with
     | Normal items =>
         allCafes s' = attachDistances items lat lng
         /\ filteredCafes s' = attachDistances items lat lng
         /\ resultSummary s' =
              if forallb drawable items then "Showing fallback cafes"
              else "Could not load cafes."
     | Throw _ =>
         resultSummary s' = "Could not load cafes."
         /\ allCafes s' = allCafes s
         /\ filteredCafes s' = filteredCafes s
     end.
Proof.
  cbv zeta. unfold caught. cbv zeta.
  destruct (readFallback (cafes_json w)) as [items | e2].
  - rewrite drawable_attachDistances. destruct (forallb drawable items).
    + destruct (fetched_fields (attachDistances items lat lng)
                  (set_allCafes (attachDistances items lat lng) (warned err s)))
        as (H1 & H2 & H3 & H4 & H5).
      split; [| split; [| repeat split]].
      * apply (fetches_app s [ConsoleWarn err; FetchFallback]).
        unfold setSummary. cbn [calls set_resultSummary]. rewrite H1. simpl.
        now rewrite <- app_assoc.
      * unfold setSummary. cbn [searchInput set_resultSummary]. now rewrite H5.
      * unfold setSummary. cbn [allCafes set_resultSummary]. now rewrite H2.
      * unfold setSummary. cbn [filteredCafes set_resultSummary]. now rewrite H3.
    + split; [| repeat split].
      apply (fetches_app s [ConsoleWarn err; FetchFallback;
                            ConsoleError (drawError (attachDistances items lat lng))]).
      simpl. now rewrite <- !app_assoc.
  - split; [| repeat split].
    apply (fetches_app s [ConsoleWarn err; FetchFallback; ConsoleError e2]).
    simpl. now rewrite <- !app_assoc.
Qed.

(** What the search leaves, by what the two sources answer and by whether
    what they give can be rendered. *)
Lemma searched_fields (w : World) (lat lng radiusMeters : R) (s : State) :
  let s' := searched w lat lng radiusMeters s in
  let both := [FetchOverpass lat lng radiusMeters; FetchFallback] in
  searchInput s' = searchInput s
  /\ match readOverpass (overpass w lat lng radiusMeters) with
     | Normal (c :: cs) =>
         let cafes := attachDistances (c :: cs) lat lng in
         if forallb drawable (c :: cs) then
           fetches s' = fetches s ++ [FetchOverpass lat lng radiusMeters]
           /\ allCafes s' = cafes /\ filteredCafes s' = cafes
           /\ resultSummary s' = pretty (length cafes) +:+ " cafe(s) found"
         else
           fetches s' = fetches s ++ both
           /\ match readFallback (cafes_json w) with
              | Normal items =>
                  allCafes s' = attachDistances items lat lng
                  /\ filteredCafes s' = attachDistances items lat lng
                  /\ resultSummary s' =
                       if forallb drawable items then "Showing fallback cafes"
                       else "Could not load cafes."
              | Throw _ =>
                  resultSummary s' = "Could not load cafes."
                  /\ allCafes s' = cafes /\ filteredCafes s' = cafes
              end
     | Normal [] | Throw _ =>
         fetches s' = fetches s ++ both
         /\ match readFallback (cafes_json w) with
            | Normal items =>
                allCafes s' = attachDistances items lat lng
                /\ filteredCafes s' = attachDistances items lat lng
                /\ resultSummary s' =
                     if forallb drawable items then "Showing fallback cafes"
                     else "Could not load cafes."
            | Throw _ =>
                resultSummary s' = "Could not load cafes."
                /\ allCafes s' = allCafes s /\ filteredCafes s' = filteredCafes s
            end
     end.
Proof.
  cbv zeta. unfold searched. cbv zeta.
  assert (Hasked : fetches (asked lat lng radiusMeters s) =
                   fetches s ++ [FetchOverpass lat lng radiusMeters]).
  { now apply (fetches_app s [FetchOverpass lat lng radiusMeters]). }
  assert (Hfail : forall err : Error,
    let s' := showSpinner false (caught w lat lng err (asked lat lng radiusMeters s)) in
    searchInput s' = searchInput s
    /\ fetches s' = fetches s ++ [FetchOverpass lat lng radiusMeters; FetchFallback]
    /\ match readFallback (cafes_json w) with
       | Normal items =>
           allCafes s' = attachDistances items lat lng
           /\ filteredCafes s' = attachDistances items lat lng
           /\ resultSummary s' =
                if forallb drawable items then "Showing fallback cafes"
                else "Could not load cafes."
       | Throw _ =>
           resultSummary s' = "Could not load cafes."
           /\ allCafes s' = allCafes s /\ filteredCafes s' = filteredCafes s
       end).
  { intros err. cbv zeta.
    destruct (caught_fields w lat lng err (asked lat lng radiusMeters s)) as (Hf & Hin & Hrest).
    cbv zeta in Hf, Hin, Hrest. rewrite fetches_showSpinner. unfold showSpinner.
    cbn [searchInput allCafes filteredCafes resultSummary set_spinnerHidden].
    split; [exact Hin |]. split.
    - rewrite Hf, Hasked. now rewrite <- app_assoc.
    - exact Hrest. }
  destruct (readOverpass (overpass w lat lng radiusMeters)) as [[| c cs] | e].
  - destruct (Hfail (ErrorMsg "No Overpass results")) as (H1 & H2 & H3). auto.
  - rewrite drawable_attachDistances. destruct (forallb drawable (c :: cs)).
    + destruct (fetched_fields (attachDistances (c :: cs) lat lng)
                  (set_allCafes (attachDistances (c :: cs) lat lng)
                     (asked lat lng radiusMeters s))) as (H1 & H2 & H3 & H4 & H5).
      rewrite fetches_showSpinner. unfold showSpinner.
      cbn [searchInput allCafes filteredCafes resultSummary set_spinnerHidden].
      rewrite H2, H3, H4, H5. repeat split.
      rewrite <- Hasked. unfold fetches. now rewrite H1.
    + destruct (caught_fields w lat lng (drawError (attachDistances (c :: cs) lat lng))
                  (marked (attachDistances (c :: cs) lat lng)
                     (set_allCafes (attachDistances (c :: cs) lat lng)
                        (asked lat lng radiusMeters s)))) as (Hf & Hin & Hrest).
      cbv zeta in Hf, Hin, Hrest. rewrite fetches_showSpinner. unfold showSpinner.
      cbn [searchInput allCafes filteredCafes resultSummary set_spinnerHidden].
      split; [exact Hin |]. split.
      * rewrite Hf. change (fetches (marked ?c (set_allCafes ?a ?x))) with (fetches x).
        rewrite Hasked. now rewrite <- app_assoc.
      * destruct (readFallback (cafes_json w)); exact Hrest.
  - destruct (Hfail e) as (H1 & H2 & H3). auto.
Qed.

(** C1. The search asks Overpass first and completes normally.  When the
    request fails or gives no cafe, the bundled file is fetched next, and
    nothing after it; if the file cannot be loaded, the summary reads
    "Could not load cafes." and the canonical and filtered sets stay as
    they were.  When Overpass gives cafes, nothing else is fetched if they
    all can be rendered; if rendering them throws, the [catch] clause
    fetches the bundled file as well.  A file that loads becomes the
    canonical set, and the summary says so if its cafes can be rendered,
    and reads "Could not load cafes." otherwise. *)
Theorem searchNearby_sources (w : World) (lat lng radiusMeters : R) (s : State) :
  let s' := exec (searchNearby w lat lng radiusMeters) s in
  fst (searchNearby w lat lng radiusMeters s) = Normal tt
  /\ match readOverpass (overpass w lat lng radiusMeters) with
     | Normal (c :: cs) =>
         if forallb drawable (c :: cs) then
           fetches s' = fetches s ++ [FetchOverpass lat lng radiusMeters]
           /\ allCafes s' = attachDistances (c :: cs) lat lng
         else
           fetches s' = fetches s ++ [FetchOverpass lat lng radiusMeters; FetchFallback]
           /\ match readFallback (cafes_json w) with
              | Normal items =>
                  allCafes s' = attachDistances items lat lng
                  /\ resultSummary s' =
                       if forallb drawable items then "Showing fallback cafes"
                       else "Could not load cafes."
              | Throw _ =>
                  resultSummary s' = "Could not load cafes."
                  /\ allCafes s' = attachDistances (c :: cs) lat lng
              end
     | Normal [] | Throw _ =>
         fetches s' = fetches s ++ [FetchOverpass lat lng radiusMeters; FetchFallback]
         /\ match readFallback (cafes_json w) with
            | Normal items =>
                allCafes s' = attachDistances items lat lng
                /\ resultSummary s' =
                     if forallb drawable items then "Showing fallback cafes"
                     else "Could not load cafes."
            | Throw _ =>
                resultSummary s' = "Could not load cafes."
                /\ allCafes s' = allCafes s
                /\ filteredCafes s' = filteredCafes s
            end
     end.
Proof.
  cbv zeta. split; [now rewrite searchNearby_run |].
  rewrite searchNearby_exec.
  destruct (searched_fields w lat lng radiusMeters s) as [_ H]. cbv zeta in H.
  destruct (readOverpass (overpass w lat lng radiusMeters)) as [[| c cs] | e].
  - destruct H as [Hf H]. split; [exact Hf |].
    destruct (readFallback (cafes_json w)); tauto.
  - destruct (forallb drawable (c :: cs)); [tauto |].
    destruct H as [Hf H]. split; [exact Hf |].
    destruct (readFallback (cafes_json w)); tauto.
  - destruct H as [Hf H]. split; [exact Hf |].
    destruct (readFallback (cafes_json w)); tauto.
Qed.

Section WithHost.
Context {host : Host}.

Lemma step_InputSearch (w : World) (value : string) (s : State) :
  step w (InputSearch value) s = exec handleSearchInput (set_searchInput value s).
Proof. reflexivity. Qed.

(** C9, as the code has it.  After a change of the search box the filtered
    set is the part of the canonical set that matches the text in the box,
    and the canonical set itself when the trimmed text is empty.  After a
    search that replaces the canonical set the filtered set is the whole
    canonical set, whatever the box holds; a search that fails leaves both
    sets alone. *)
Theorem filtered_view (w : World) (s : State) :
  (forall value : string,
      let s' := step w (InputSearch value) s in
      allCafes s' = allCafes s
      /\ searchInput s' = value
      /\ filteredCafes s' = matching s'
      /\ (toLowerCase (trim value) = "" -> filteredCafes s' = allCafes s'))
  /\ (forall lat lng radiusMeters : R,
        let s' := exec (searchNearby w lat lng radiusMeters) s in
        match primaryFailure w lat lng radiusMeters, readFallback (cafes_json w) with
        | Some _, Throw _ => allCafes s' = allCafes s /\ filteredCafes s' = filteredCafes s
        | _, _ => filteredCafes s' = allCafes s'
        end).
Proof.
  split.
  - intros value s'. subst s'. rewrite step_InputSearch.
    assert (Hin : searchInput (exec handleSearchInput (set_searchInput value s)) = value)
      by now rewrite handleSearchInput_searchInput.
    assert (Hall : allCafes (exec handleSearchInput (set_searchInput value s)) = allCafes s)
      by now rewrite handleSearchInput_allCafes.
    assert (Hfil : filteredCafes (exec handleSearchInput (set_searchInput value s)) =
                   matching (exec handleSearchInput (set_searchInput value s))).
    { rewrite handleSearchInput_filteredCafes. unfold matching.
      now rewrite Hin, Hall. }
    repeat split; try assumption.
    intros Hq. rewrite Hfil. unfold matching. rewrite Hin.
    now rewrite decide_True by exact Hq.
  - intros lat lng radiusMeters s'. subst s'. rewrite searchNearby_exec.
    destruct (searched_fields w lat lng radiusMeters s) as [_ H]. cbv zeta in H.
    unfold primaryFailure.
    destruct (readOverpass (overpass w lat lng radiusMeters)) as [[| c cs] | e].
    + destruct H as [_ H]. destruct (readFallback (cafes_json w)).
      * destruct H as (-> & -> & _). reflexivity.
      * tauto.
    + destruct (forallb drawable (c :: cs)).
      * destruct H as (_ & -> & -> & _). destruct (readFallback (cafes_json w)); reflexivity.
      * destruct H as [_ H]. destruct (readFallback (cafes_json w)).
        -- destruct H as (-> & -> & _). reflexivity.
        -- destruct H as (_ & -> & ->). reflexivity.
    + destruct H as [_ H]. destruct (readFallback (cafes_json w)).
      * destruct H as (-> & -> & _). reflexivity.
      * tauto.
Qed.

End WithHost.

(** The rating 4.5 rounds to 5. *)
Lemma round_4_5 : round 4.5 = 5%Z.
Proof. unfold round. apply Zfloor_eq. simpl. lra. Qed.

(** C9 as stated fails: with "tea" in the search box, a search that falls
    back to the bundled file replaces the canonical set and shows all of
    it, though no record of it matches "tea". *)
Lemma fetch_shows_all_despite_query :
  let s := set_searchInput "tea" (loaded 1000 None) in
  let s' := exec (searchNearby offlineWorld 12.97 77.59 1000) s in
  searchInput s' = "tea"
  /\ length (allCafes s') = 1
  /\ filteredCafes s' = allCafes s'
  /\ matching (host := asciiHost) s' = []
  /\ filteredCafes s' <> matching (host := asciiHost) s'.
Proof.
  cbv zeta. rewrite searchNearby_exec.
  destruct (searched_fields offlineWorld 12.97 77.59 1000
              (set_searchInput "tea" (loaded 1000 None))) as [Hin H].
  cbv zeta in Hin, H.
  remember (searched offlineWorld 12.97 77.59 1000
              (set_searchInput "tea" (loaded 1000 None))) as s' eqn:E.
  clear E. simpl in Hin, H. destruct H as (_ & Hall & Hfil & _).
  unfold matching. rewrite Hin, Hfil, Hall. simpl.
  repeat split; try reflexivity. discriminate.
Qed.

End CoordinatorFacts.

(** ** Preferences *)

Module PrefsFacts.
Import Js Data Page Script App NormalizeFacts.

Ltac run_prefs :=
  unfold exec, loadPrefs, savePrefs, placeOrUpdateUserMarker, parsePrefs, prop,
    tryCatch, bind, modify, gets, throw, ret.

(** [loadPrefs] completes normally, whatever is stored. *)
Lemma loadPrefs_never_throws (s : State) : fst (loadPrefs s) = Normal tt.
Proof.
  unfold loadPrefs, tryCatch.
  match goal with |- context [match ?m s with _ => _ end] => destruct (m s) as [[[] | e] s'] end;
    reflexivity.
Qed.

(** With nothing stored, or with a text that does not parse, [loadPrefs]
    changes nothing. *)
Lemma loadPrefs_defaults (s : State) :
  localStorage s = None \/ localStorage s = Some Garbage \/ localStorage s = Some Blank ->
  exec loadPrefs s = s.
Proof.
  intros [H | [H | H]]; run_prefs; simpl; rewrite H; simpl;
    try rewrite lookup_empty; reflexivity.
Qed.

(** [savePrefs] on a text that does not parse throws, and stores
    nothing. *)
Lemma savePrefs_garbage (partial : gmap string R) (s : State) :
  localStorage s = Some Garbage -> savePrefs partial s = (Throw SyntaxError, s).
Proof. intros H. run_prefs. simpl. now rewrite H. Qed.

(** [savePrefs] on a stored document, or on nothing, stores the union in
    which [partial] wins. *)
Lemma savePrefs_document (partial : gmap string R) (before : option Json) (s : State) :
  localStorage s = Doc <$> before ->
  savePrefs partial s =
    (Normal tt, set_localStorage (Some (prefsText (partial ∪ storedProps before))) s).
Proof.
  intros H. run_prefs. simpl. rewrite H. destruct before as [p |]; reflexivity.
Qed.

(** C7, where the code departs from it.  With a text that does not parse
    under [cf_prefs], [loadPrefs] completes normally and changes nothing,
    but [savePrefs] throws [SyntaxError]: the listener of the radius select
    lets it through to the event loop, and so does the position callback of
    [handleFindNearMe], before any request is made. *)
Theorem savePrefs_throws_on_malformed_text {host : Host} :
  let s := loaded 1000 (Some Garbage) in
  let w := offlineWorld in
  loadPrefs s = (Normal tt, s)
  /\ savePrefs (<["radius" := 2000%R]> ∅) s = (Throw SyntaxError, s)
  /\ fst (handle w (ChangeRadius 2000) s) = Throw SyntaxError
  /\ fst (handle w (ClickLocate (Position 12.97 77.59)) s) = Throw SyntaxError
  /\ fetches (step w (ClickLocate (Position 12.97 77.59)) s) = [].
Proof.
  cbv zeta. repeat split.
Qed.

Lemma truthyR_2000 : truthyR 2000 = true.
Proof. apply truthyR_true. lra. Qed.

(** [loadPrefs] on a stored object with a non-zero radius selects that
    radius. *)
Lemma loadPrefs_radius (p : gmap string R) (radius : R) (s : State) :
  localStorage s = Some (prefsText p) -> p !! "radius" = Some radius ->
  truthyR radius = true ->
  radiusSelect (exec loadPrefs s) = radius.
Proof.
  intros Hs Hr Ht. run_prefs. simpl. rewrite Hs. simpl. rewrite Hr, Ht. simpl.
  destruct (p !! "lastLat") as [lastLat |]; [| reflexivity].
  destruct (p !! "lastLng") as [lastLng |]; [| reflexivity].
  destruct (truthyR lastLat && truthyR lastLng); [| reflexivity].
  rewrite (savePrefs_document _ (Some (JObject p))) by exact Hs. reflexivity.
Qed.

(** C8. Over a stored document, or over nothing stored, [savePrefs partial]
    stores the merge in which [partial] wins and the other stored
    properties stay.  After [savePrefs {radius: 2000}] the stored object
    has radius 2000 next to the [lastLat] and [lastLng] it had, and
    [loadPrefs] selects the radius 2000. *)
Theorem savePrefs_merges :
  (forall (before : option Json) (partial : gmap string R) (s0 : State),
      let s := withStored (Doc <$> before) s0 in
      let s' := exec (savePrefs partial) s in
      fst (savePrefs partial s) = Normal tt
      /\ exists merged : gmap string R,
           parsePrefs s' = (Normal (JObject merged), s')
           /\ (forall (k : string) (v : R), partial !! k = Some v -> merged !! k = Some v)
           /\ (forall k : string,
                 partial !! k = None -> merged !! k = storedProps before !! k))
  /\ (forall (before : option Json) (s0 : State),
        let s := withStored (Doc <$> before) s0 in
        let s' := exec (savePrefs (<["radius" := 2000%R]> ∅)) s in
        exists p : gmap string R,
          parsePrefs s' = (Normal (JObject p), s')
          /\ p !! "radius" = Some 2000%R
          /\ p !! "lastLat" = storedProps before !! "lastLat"
          /\ p !! "lastLng" = storedProps before !! "lastLng"
          /\ radiusSelect (exec loadPrefs s') = 2000%R).
Proof.
  split.
  - intros before partial s0 s s'. subst s s'. unfold exec, withStored.
    rewrite (savePrefs_document partial before (set_localStorage (Doc <$> before) s0))
      by reflexivity.
    split; [reflexivity |].
    exists (partial ∪ storedProps before). split; [reflexivity |]. split.
    + intros k v Hk. now apply lookup_union_Some_l.
    + intros k Hk. now apply lookup_union_r.
  - intros before s0 s s'.
    assert (Hs' : s' = set_localStorage
                         (Some (prefsText (<["radius" := 2000%R]> ∅ ∪ storedProps before))) s).
    { subst s s'. unfold exec, withStored.
      now rewrite (savePrefs_document _ before (set_localStorage (Doc <$> before) s0))
        by reflexivity. }
    rewrite Hs'. clear Hs' s'.
    exists (<["radius" := 2000%R]> ∅ ∪ storedProps before).
    assert (Hr : (<["radius" := 2000%R]> ∅ ∪ storedProps before) !! "radius" = Some 2000%R).
    { apply lookup_union_Some_l. apply lookup_insert_eq. }
    split; [reflexivity |]. split; [exact Hr |]. split; [| split].
    + apply lookup_union_r. rewrite lookup_insert_ne by discriminate. apply lookup_empty.
    + apply lookup_union_r. rewrite lookup_insert_ne by discriminate. apply lookup_empty.
    + apply (loadPrefs_radius (<["radius" := 2000%R]> ∅ ∪ storedProps before) 2000%R);
        [reflexivity | exact Hr | exact truthyR_2000].
Qed.

End PrefsFacts.

(** ** Selection *)

Module SelectionFacts.
Import Js Data Page Script App RenderFacts.

Create HintDb calm.

Lemma calm_refl (s : State) : calm s s.
Proof. left. repeat split. Qed.

Lemma calm_trans (s1 s2 s3 : State) : calm s1 s2 -> calm s2 s3 -> calm s1 s3.
Proof.
  intros H12 [(Hl & Hc & Hs) | H3]; [| now right].
  destruct H12 as [(Hl' & Hc' & Hs') | [Hn Hv]].
  - left. repeat split; congruence.
  - right. unfold freshList, noHighlight, handlesValid in *. now rewrite Hl, Hc.
Qed.

Lemma calmly_ret {A : Type} (a : A) : calmly (ret a).
Proof. intros s. apply calm_refl. Qed.

Lemma calmly_throw {A : Type} (e : Error) : calmly (@throw A e).
Proof. intros s. apply calm_refl. Qed.

Lemma calmly_complete {A : Type} (r : Completion A) : calmly (complete r).
Proof. intros s. apply calm_refl. Qed.

Lemma calmly_gets {A : Type} (f : State -> A) : calmly (gets f).
Proof. intros s. apply calm_refl. Qed.

Lemma calmly_modify (f : State -> State) :
  (forall s : State, calm s (f s)) -> calmly (modify f).
Proof. intros H s. apply H. Qed.

Lemma calmly_call (c : Call) : calmly (call c).
Proof. intros s. left. repeat split. Qed.

Lemma calmly_bind {A B : Type} (m : M A) (k : A -> M B) :
  calmly m -> (forall a : A, calmly (k a)) -> calmly (bind m k).
Proof.
  intros Hm Hk s. specialize (Hm s). unfold exec, bind in *.
  destruct (m s) as [[a | e] s1]; simpl in *; [| exact Hm].
  eapply calm_trans; [exact Hm | apply Hk].
Qed.

Lemma calmly_tryCatch {A : Type} (body : M A) (handler : Error -> M A) :
  calmly body -> (forall e : Error, calmly (handler e)) -> calmly (tryCatch body handler).
Proof.
  intros Hm Hk s. specialize (Hm s). unfold exec, tryCatch in *.
  destruct (body s) as [[a | e] s1]; simpl in *; [exact Hm |].
  eapply calm_trans; [exact Hm | apply Hk].
Qed.

Lemma calmly_tryFinally {A : Type} (body : M A) (final : M unit) :
  calmly body -> calmly final -> calmly (tryFinally body final).
Proof.
  intros Hm Hf s. specialize (Hm s). unfold calmly, exec, tryFinally in *.
  destruct (body s) as [r s1]. specialize (Hf s1). simpl in *.
  destruct (final s1) as [[u | e] s2]; simpl in *; eapply calm_trans; eassumption.
Qed.

#[local] Hint Resolve calmly_ret calmly_throw calmly_complete calmly_gets calmly_call
  calmly_bind calmly_tryCatch calmly_tryFinally calmly_modify calm_refl : calm.

Lemma calmly_updateUI (cafes : list Cafe) (from : string) : calmly (updateUI cafes from).
Proof. intros s. apply updateUI_calm. Qed.

Lemma freshList_empty (s : State) :
  cafeListEl s = [] -> idToCard s = ∅ -> freshList s.
Proof.
  intros Hl Hc. split.
  - unfold noHighlight. rewrite Hl. constructor.
  - intros k h Hk. rewrite Hc, lookup_empty in Hk. discriminate.
Qed.

Lemma calm_clearCafes (s : State) : calm s (clearCafes s).
Proof. right. now apply freshList_empty. Qed.

Lemma calm_handleReset (s : State) : calm s (handleReset s).
Proof. right. now apply freshList_empty. Qed.

(** Setters of fields other than the list, the card registry and the
    selection. *)
Ltac calm_setter := intros; left; repeat split.

Lemma calm_setSummary (text : string) (s : State) : calm s (setSummary text s).
Proof. calm_setter. Qed.

Lemma calm_showSpinner (show : bool) (s : State) : calm s (showSpinner show s).
Proof. calm_setter. Qed.

Lemma calm_setView (center : Marker) (zoom : R) (s : State) : calm s (setView center zoom s).
Proof. calm_setter. Qed.

Lemma calm_set_allCafes (cafes : list Cafe) (s : State) : calm s (set_allCafes cafes s).
Proof. calm_setter. Qed.

Lemma calm_set_searchInput (value : string) (s : State) : calm s (set_searchInput value s).
Proof. calm_setter. Qed.

Lemma calm_set_radiusSelect (value : R) (s : State) : calm s (set_radiusSelect value s).
Proof. calm_setter. Qed.

Lemma calm_set_localStorage (stored : option Text) (s : State) :
  calm s (set_localStorage stored s).
Proof. calm_setter. Qed.

Lemma calm_placeOrUpdate (lat lng : R) (s : State) : calm s (_placeOrUpdate lat lng s).
Proof. calm_setter. Qed.

#[local] Hint Resolve calmly_updateUI calm_clearCafes calm_handleReset
  calm_setSummary calm_showSpinner calm_setView
  calm_set_allCafes calm_set_searchInput calm_set_radiusSelect
  calm_set_localStorage calm_placeOrUpdate : calm.

Lemma calmly_handleSearchInput {host : Host} : calmly handleSearchInput.
Proof.
  unfold handleSearchInput. apply calmly_bind; [auto with calm | intros value].
  cbv zeta. destruct (negb (truthyStr (toLowerCase (trim value)))).
  - apply calmly_bind; [auto with calm | intros all].
    apply calmly_bind; [auto with calm | intros _].
    apply calmly_bind; auto with calm.
  - apply calmly_bind; [auto with calm | intros all].
    apply calmly_bind; auto with calm.
Qed.

Lemma calmly_parsePrefs : calmly parsePrefs.
Proof.
  unfold parsePrefs. apply calmly_bind; [auto with calm |].
  intros [[| |] |]; auto with calm.
Qed.

Lemma calmly_prop (p : Json) (key : string) : calmly (prop p key).
Proof. destruct p; simpl; auto with calm. Qed.

Lemma calmly_savePrefs (partial : gmap string R) : calmly (savePrefs partial).
Proof.
  unfold savePrefs. apply calmly_bind; [apply calmly_parsePrefs |].
  intros p. auto with calm.
Qed.

Lemma calmly_placeOrUpdateUserMarker (lat lng : R) : calmly (placeOrUpdateUserMarker lat lng).
Proof.
  unfold placeOrUpdateUserMarker.
  apply calmly_bind; [auto with calm | intros _; apply calmly_savePrefs].
Qed.

Lemma calmly_loadPrefs : calmly loadPrefs.
Proof.
  unfold loadPrefs. apply calmly_tryCatch; [| auto with calm].
  apply calmly_bind; [apply calmly_parsePrefs | intros p].
  apply calmly_bind; [apply calmly_prop | intros radius].
  apply calmly_bind.
  { destruct radius as [radius |]; [destruct (truthyR radius) |]; auto with calm. }
  intros _. apply calmly_bind; [apply calmly_prop | intros lastLat].
  apply calmly_bind; [apply calmly_prop | intros lastLng].
  destruct lastLat as [lastLat |], lastLng as [lastLng |]; auto with calm.
  destruct (truthyR lastLat && truthyR lastLng); [| auto with calm].
  apply calmly_bind; [apply calmly_placeOrUpdateUserMarker | auto with calm].
Qed.

Lemma calmly_fetchOverpassCafes (w : World) (lat lon radiusMeters : R) :
  calmly (fetchOverpassCafes w lat lon radiusMeters).
Proof. unfold fetchOverpassCafes. auto with calm. Qed.

Lemma calmly_loadFallbackCafes (w : World) : calmly (loadFallbackCafes w).
Proof. unfold loadFallbackCafes. auto with calm. Qed.

Lemma calmly_searchNearby (w : World) (lat lng radiusMeters : R) :
  calmly (searchNearby w lat lng radiusMeters).
Proof.
  unfold searchNearby.
  apply calmly_tryFinally; [| auto with calm].
  apply calmly_tryCatch.
  - apply calmly_bind; [auto with calm | intros _].
    apply calmly_bind; [auto with calm | intros _].
    apply calmly_bind; [apply calmly_fetchOverpassCafes | intros cafes].
    destruct cafes as [| c cs]; [auto with calm |].
    apply calmly_bind; [auto with calm | intros _].
    apply calmly_bind; [auto with calm | intros s']. auto with calm.
  - intros err. apply calmly_bind; [auto with calm | intros _].
    apply calmly_tryCatch.
    + apply calmly_bind; [apply calmly_loadFallbackCafes | intros fallback].
      apply calmly_bind; [auto with calm | intros _].
      apply calmly_bind; [auto with calm | intros s'].
      apply calmly_bind; auto with calm.
    + intros e2. auto with calm.
Qed.

Lemma calmly_handleFindNearMe (w : World) (geo : Geolocation) :
  calmly (handleFindNearMe w geo).
Proof.
  destruct geo as [| latitude longitude | message]; simpl.
  - auto with calm.
  - apply calmly_bind; [auto with calm | intros _].
    apply calmly_bind; [auto with calm | intros radiusMeters].
    apply calmly_bind; [apply calmly_placeOrUpdateUserMarker | intros _].
    apply calmly_bind; [auto with calm | intros _]. apply calmly_searchNearby.
  - apply calmly_bind; [auto with calm | intros _].
    apply calmly_bind; [auto with calm | intros _].
    apply calmly_bind; auto with calm.
Qed.

Lemma calmly_handlePickOnMap (w : World) (lat lng : R) : calmly (handlePickOnMap w lat lng).
Proof.
  unfold handlePickOnMap.
  apply calmly_bind; [auto with calm | intros _].
  apply calmly_bind; [apply calmly_placeOrUpdateUserMarker | intros _].
  apply calmly_bind; [auto with calm | intros _].
  apply calmly_bind; [auto with calm | intros radiusMeters]. apply calmly_searchNearby.
Qed.

Lemma calmly_radiusChanged : calmly radiusChanged.
Proof.
  unfold radiusChanged.
  apply calmly_bind; [auto with calm | intros radius; apply calmly_savePrefs].
Qed.

Section WithHost.
Context {host : Host}.

Lemma calmly_handle (w : World) (e : Event) :
  (forall cafeId : string, e <> ClickCard cafeId) ->
  (forall cafeId : string, e <> ClickMarker cafeId) ->
  calmly (handle w e).
Proof.
  intros Hc Hm. destruct e; simpl.
  - apply calmly_handleFindNearMe.
  - apply calmly_handlePickOnMap.
  - auto with calm.
  - apply calmly_bind; [auto with calm | intros _; apply calmly_handleSearchInput].
  - apply calmly_bind; [auto with calm | intros _; apply calmly_radiusChanged].
  - now destruct (Hc cafeId).
  - now destruct (Hm cafeId).
Qed.

End WithHost.

Lemma noHighlight_highlighted (s : State) (i : nat) : noHighlight s -> ~ highlighted s i.
Proof.
  intros Hn (el & Hel & Hsel). unfold noHighlight in Hn.
  rewrite Forall_lookup in Hn. specialize (Hn i el Hel). simpl in Hn. congruence.
Qed.

(** A calm step keeps the invariant and the validity of the handles. *)
Lemma calm_invariant (s s' : State) :
  calm s s' -> selectionInvariant s /\ handlesValid s ->
  selectionInvariant s' /\ handlesValid s'.
Proof.
  intros [(Hl & Hc & Hs) | [Hn Hv]] [Hinv Hval].
  - split.
    + intros i (el & Hel & Hsel). rewrite Hl in Hel.
      destruct (Hinv i) as (cafeId & H1 & H2); [now exists el |].
      exists cafeId. now rewrite Hs, Hc.
    + intros k h Hk. rewrite Hc in Hk. rewrite Hl. eapply Hval; eassumption.
  - split; [| exact Hv]. intros i Hi. now destruct (noHighlight_highlighted s' i Hn).
Qed.

(** The loop of [selectCafe] over the registered cards writes the list
    only. *)
Lemma clear_loop (hs : list nat) (s : State) :
  foldl (fun s el => set_cafeListEl (alter removeSelected el (cafeListEl s)) s) s hs
  = set_cafeListEl (foldl (fun l el => alter removeSelected el l) (cafeListEl s) hs) s.
Proof.
  revert s. induction hs as [| h r IH]; intros s; simpl.
  - now destruct s.
  - now rewrite IH.
Qed.

(** A card of the list after the loop is the card that was there; if it
    still shows as selected, it did before and the loop did not visit
    it. *)
Lemma cleared_lookup (hs : list nat) (l : list Card) (i : nat) (el : Card) :
  foldl (fun l el => alter removeSelected el l) l hs !! i = Some el ->
  exists el0 : Card,
    l !! i = Some el0 /\ card_id el = card_id el0
    /\ (card_selected el = true -> card_selected el0 = true /\ i ∉ hs).
Proof.
  revert l. induction hs as [| h r IH]; intros l H; simpl in H.
  - exists el. repeat split; auto. apply not_elem_of_nil.
  - destruct (IH _ H) as (el1 & H1 & Hid & Hsel).
    destruct (decide (h = i)) as [-> | Hne].
    + rewrite list_lookup_alter_eq in H1.
      destruct (l !! i) as [el0 |] eqn:Hl; [| discriminate].
      simpl in H1. inversion H1; subst. exists el0.
      split; [reflexivity |]. split; [now rewrite Hid |].
      intros Ht. destruct (Hsel Ht) as [Hf _]. discriminate Hf.
    + rewrite list_lookup_alter_ne in H1 by exact Hne.
      exists el1. split; [exact H1 |]. split; [exact Hid |].
      intros Ht. destruct (Hsel Ht) as [Hs Hr]. split; [exact Hs |].
      rewrite not_elem_of_cons. auto.
Qed.

Lemma cleared_length (hs : list nat) (l : list Card) :
  length (foldl (fun l el => alter removeSelected el l) l hs) = length l.
Proof.
  revert l. induction hs as [| h r IH]; intros l; simpl; [reflexivity |].
  now rewrite IH, length_alter.
Qed.

Lemma registered_handle (m : gmap string nat) (k : string) (h : nat) :
  m !! k = Some h -> h ∈ (map_to_list m).*2.
Proof.
  intros Hk. apply list_elem_of_fmap. exists (k, h). split; [reflexivity |].
  now apply elem_of_map_to_list.
Qed.

(** What [selectCafe] leaves in the list, the registries and the
    selection. *)
Lemma selectCafe_fields (cafeId : string) (fly : bool) (s : State) :
  let cleared :=
    foldl (fun l el => alter removeSelected el l) (cafeListEl s)
      (map_to_list (idToCard s)).*2 in
  cafeListEl (selectCafe cafeId fly s) =
    match idToCard s !! cafeId with
    | Some card => alter addSelected card cleared
    | None => cleared
    end
  /\ idToCard (selectCafe cafeId fly s) = idToCard s
  /\ idToMarker (selectCafe cafeId fly s) = idToMarker s
  /\ selectedCafeId (selectCafe cafeId fly s) = Some cafeId.
Proof.
  unfold selectCafe. cbv zeta. rewrite clear_loop. simpl.
  destruct (idToCard s !! cafeId) as [card |]; simpl;
    (destruct (idToMarker s !! cafeId) as [marker |]; [destruct fly |]);
    simpl; repeat split.
Qed.

(** On an id in neither registry [selectCafe] makes no call and leaves
    the map where it is. *)
Lemma selectCafe_unknown (cafeId : string) (fly : bool) (s : State) :
  idToCard s !! cafeId = None -> idToMarker s !! cafeId = None ->
  calls (selectCafe cafeId fly s) = calls s
  /\ mapView (selectCafe cafeId fly s) = mapView s.
Proof.
  intros Hc Hm. unfold selectCafe. cbv zeta. rewrite clear_loop. simpl.
  rewrite Hc. simpl. rewrite Hm. split; reflexivity.
Qed.

(** After [selectCafe], a registered card that shows as selected is the
    card of the id. *)
Lemma selectCafe_registered (cafeId : string) (fly : bool) (s : State) (k : string) (h : nat) :
  idToCard s !! k = Some h -> highlighted (selectCafe cafeId fly s) h ->
  idToCard s !! cafeId = Some h.
Proof.
  intros Hk (el & Hel & Hsel).
  destruct (selectCafe_fields cafeId fly s) as (Hl & _). rewrite Hl in Hel. clear Hl.
  assert (Hclear : forall el' : Card,
    foldl (fun l el => alter removeSelected el l) (cafeListEl s)
      (map_to_list (idToCard s)).*2 !! h = Some el' -> card_selected el' = false).
  { intros el' H'. destruct (cleared_lookup _ _ _ _ H') as (el0 & _ & _ & Hs).
    destruct (card_selected el') eqn:Ht; [| reflexivity].
    destruct (Hs eq_refl) as [_ Hnot]. destruct Hnot. eapply registered_handle, Hk. }
  destruct (idToCard s !! cafeId) as [card |]; [| now rewrite (Hclear el Hel) in Hsel].
  destruct (decide (card = h)) as [-> | Hne]; [reflexivity |].
  rewrite list_lookup_alter_ne in Hel by exact Hne.
  now rewrite (Hclear el Hel) in Hsel.
Qed.

(** After [selectCafe], the card of the id shows as selected, if it is in
    the list. *)
Lemma selectCafe_highlights (cafeId : string) (fly : bool) (s : State) (h : nat) :
  idToCard s !! cafeId = Some h -> h < length (cafeListEl s) ->
  highlighted (selectCafe cafeId fly s) h.
Proof.
  intros Hk Hlt. destruct (selectCafe_fields cafeId fly s) as (Hl & _).
  unfold highlighted. rewrite Hl, Hk, list_lookup_alter_eq.
  destruct (lookup_lt_is_Some_2
              (foldl (fun l el => alter removeSelected el l) (cafeListEl s)
                 (map_to_list (idToCard s)).*2) h) as [el Hel].
  { now rewrite cleared_length. }
  rewrite Hel. simpl. eexists. split; reflexivity.
Qed.

(** From a state that satisfies the invariant, [selectCafe] leaves at most
    the card of the id selected. *)
Lemma selectCafe_only (cafeId : string) (fly : bool) (s : State) (i : nat) :
  selectionInvariant s -> highlighted (selectCafe cafeId fly s) i ->
  idToCard s !! cafeId = Some i.
Proof.
  intros Hinv Hi. pose proof Hi as (el & Hel & Hsel).
  destruct (selectCafe_fields cafeId fly s) as (Hl & _). rewrite Hl in Hel. clear Hl.
  assert (Hclear : forall el' : Card,
    foldl (fun l el => alter removeSelected el l) (cafeListEl s)
      (map_to_list (idToCard s)).*2 !! i = Some el' -> card_selected el' = false).
  { intros el' H'. destruct (cleared_lookup _ _ _ _ H') as (el0 & Hel0 & _ & Hs).
    destruct (card_selected el') eqn:Ht; [| reflexivity].
    destruct (Hs eq_refl) as [Hwas Hnot].
    destruct (Hinv i) as (sel & _ & Hreg); [now exists el0 |].
    destruct Hnot. eapply registered_handle, Hreg. }
  destruct (idToCard s !! cafeId) as [card |]; [| now rewrite (Hclear el Hel) in Hsel].
  destruct (decide (card = i)) as [-> | Hne]; [reflexivity |].
  rewrite list_lookup_alter_ne in Hel by exact Hne.
  now rewrite (Hclear el Hel) in Hsel.
Qed.

Lemma selectCafe_invariant (cafeId : string) (fly : bool) (s : State) :
  selectionInvariant s /\ handlesValid s ->
  selectionInvariant (selectCafe cafeId fly s) /\ handlesValid (selectCafe cafeId fly s).
Proof.
  intros [Hinv Hval]. destruct (selectCafe_fields cafeId fly s) as (Hl & Hc & _ & Hs).
  split.
  - intros i Hi. exists cafeId. rewrite Hs, Hc. split; [reflexivity |].
    now apply (selectCafe_only cafeId fly s i Hinv).
  - intros k h Hk. rewrite Hc in Hk. rewrite Hl.
    destruct (idToCard s !! cafeId); rewrite ?length_alter, cleared_length;
      eapply Hval; eassumption.
Qed.

Lemma boot_invariant (radius : R) (stored : option Text) :
  selectionInvariant (boot radius stored) /\ handlesValid (boot radius stored).
Proof.
  apply (calm_invariant (loaded radius stored)); [apply calmly_loadPrefs |].
  split.
  - intros i (el & Hel & _). discriminate Hel.
  - intros k h Hk. simpl in Hk. rewrite lookup_empty in Hk. discriminate.
Qed.

Section Reachable.
Context {host : Host}.

(** The invariant holds in every state the page can reach. *)
Lemma reachable_invariant (s : State) :
  reachable s -> selectionInvariant s /\ handlesValid s.
Proof.
  induction 1 as [radius stored | w e s Hs IH]; [apply boot_invariant |].
  destruct e as [geo | lat lng | | value | value | cafeId | cafeId];
    try (apply (calm_invariant s); [apply calmly_handle; discriminate | exact IH]).
  - apply selectCafe_invariant, IH.
  - apply selectCafe_invariant, IH.
Qed.

(** C6. In every state the page can reach at most one card shows as
    selected, and it is the card of the selected id.  [selectCafe] sets the
    selection to the id it is given, known or not, and leaves the
    registries as they are; after it no registered card other than the card
    of the id shows as selected, and the card of the id does; on an id in
    neither registry it makes no call.  From a reachable state the card of
    the id is then the only one that shows as selected. *)
Theorem selectCafe_single_selection :
  (forall s : State, reachable s ->
     forall i j : nat, highlighted s i -> highlighted s j -> i = j)
  /\ (forall (s : State) (cafeId : string) (fly : bool),
        let s' := selectCafe cafeId fly s in
        selectedCafeId s' = Some cafeId
        /\ idToCard s' = idToCard s
        /\ idToMarker s' = idToMarker s
        /\ (forall (k : string) (h : nat),
              idToCard s !! k = Some h -> highlighted s' h ->
              idToCard s !! cafeId = Some h)
        /\ (forall h : nat,
              idToCard s !! cafeId = Some h -> h < length (cafeListEl s) ->
              highlighted s' h)
        /\ (idToCard s !! cafeId = None -> idToMarker s !! cafeId = None ->
              calls s' = calls s /\ mapView s' = mapView s))
  /\ (forall (s : State) (cafeId : string) (fly : bool),
        reachable s ->
        let s' := selectCafe cafeId fly s in
        (forall i : nat, highlighted s' i -> idToCard s !! cafeId = Some i)
        /\ (forall h : nat, idToCard s !! cafeId = Some h -> highlighted s' h)
        /\ (idToCard s !! cafeId = None -> forall i : nat, ~ highlighted s' i)).
Proof.
  split; [| split].
  - intros s Hs i j Hi Hj. destruct (reachable_invariant s Hs) as [Hinv _].
    destruct (Hinv i Hi) as (a & Ha & Hia). destruct (Hinv j Hj) as (b & Hb & Hjb).
    congruence.
  - intros s cafeId fly s'. subst s'.
    destruct (selectCafe_fields cafeId fly s) as (_ & Hc & Hm & Hs).
    split; [exact Hs |]. split; [exact Hc |]. split; [exact Hm |].
    split; [| split].
    + intros k h. apply selectCafe_registered.
    + intros h. apply selectCafe_highlights.
    + apply selectCafe_unknown.
  - intros s cafeId fly Hs s'. subst s'.
    destruct (reachable_invariant s Hs) as [Hinv Hval].
    split; [| split].
    + intros i. now apply selectCafe_only.
    + intros h Hh. apply selectCafe_highlights; [exact Hh |]. eapply Hval, Hh.
    + intros Hnone i Hi. pose proof (selectCafe_only cafeId fly s i Hinv Hi). congruence.
Qed.

End Reachable.

End SelectionFacts.

(** * Further properties *)

(** ** Distances on the sphere *)

Module GeometryMore.
Import Geometry GeometryFacts.
Local Open Scope R_scope.



Lemma atan2_sin_cos (y : R) : 0 <= y <= PI / 2 -> atan2 (sin y) (cos y) = y.
Proof.
  intros [Hy0 Hy1]. unfold atan2.
  destruct (Rlt_dec 0 (cos y)) as [Hpos | Hnpos].
  - assert (Hlt : y < PI / 2).
    { destruct (Rle_lt_or_eq_dec _ _ Hy1) as [H | H]; [exact H |].
      rewrite H, cos_PI2 in Hpos. lra. }
    change (sin y / cos y) with (tan y). apply atan_tan. lra.
  - assert (Heq : y = PI / 2).
    { destruct (Rle_lt_or_eq_dec _ _ Hy1) as [H | H]; [| exact H].
      destruct Hnpos. apply cos_gt_0; lra. }
    rewrite Heq, cos_PI2, sin_PI2.
    destruct (Rlt_dec 0 0) as [H | _]; [lra |].
    destruct (Rlt_dec 0 1) as [_ | H]; [reflexivity | lra].
Qed.

Lemma sin_sq_abs (x : R) : sin x ^ 2 = sin (Rabs x) ^ 2.
Proof.
  unfold Rabs. destruct (Rcase_abs x) as [_ | _]; [| reflexivity].
  rewrite sin_neg. ring.
Qed.

(** X2. Along a meridian, between latitudes at most 180 degrees apart, the
    distance is the arc: the radius times the difference of latitude in
    radians. *)
Theorem haversineDistance_meridian (lat1 lat2 lon : R) :
  Rabs (lat2 - lat1) <= 180 ->
  haversineDistance lat1 lon lat2 lon = 6371e3 * Rabs (toRad (lat2 - lat1)).
Proof.
  intros Hd. pose proof PI_RGT_0 as Hpi.
  unfold haversineDistance, haversine. cbv zeta.
  set (x := toRad (lat2 - lat1) / 2).
  assert (Hy : 0 <= Rabs x <= PI / 2).
  { split; [apply Rabs_pos |]. unfold x, toRad.
    replace ((lat2 - lat1) * PI / 180 / 2) with ((lat2 - lat1) * (PI / 360)) by field.
    rewrite Rabs_mult, (Rabs_right (PI / 360)) by lra.
    pose proof (Rabs_pos (lat2 - lat1)). nra. }
  replace (toRad (lon - lon) / 2) with 0 by (unfold toRad; field).
  rewrite sin_0, (sin_sq_abs x).
  replace (sin (Rabs x) ^ 2 + cos (toRad lat1) * cos (toRad lat2) * 0 ^ 2)
    with (Rsqr (sin (Rabs x))) by (unfold Rsqr; ring).
  replace (1 - Rsqr (sin (Rabs x))) with (Rsqr (cos (Rabs x))).
  2: { pose proof (sin2_cos2 (Rabs x)) as H. lra. }
  rewrite !sqrt_Rsqr.
  - rewrite atan2_sin_cos by exact Hy.
    replace (Rabs (toRad (lat2 - lat1))) with (2 * Rabs x); [ring |].
    unfold x. unfold Rdiv at 1. rewrite Rabs_mult, (Rabs_right (/ 2)) by lra. field.
  - apply cos_ge_0; lra.
  - apply sin_ge_0; lra.
Qed.

(** X2 between the equator and the pole. *)
Lemma haversineDistance_meridian_witness :
  haversineDistance 0 77 90 77 = 6371e3 * Rabs (toRad (90 - 0)).
Proof.
  apply (haversineDistance_meridian 0 90 77).
  rewrite Rabs_right; lra.
Defined.

End GeometryMore.

(** ** More on normalization *)

Module NormalizeMore.
Import Js Data Assembler StringFacts NormalizeFacts.

Lemma normalizeElement_id (el : Element) (c : Cafe) :
  normalizeElement el = Some c -> id c = pretty (el_id el).
Proof.
  unfold normalizeElement. cbv zeta.
  destruct (el_lat el) as [nlat |], (el_lon el) as [nlon |];
    try destruct (truthyR nlat && truthyR nlon);
    try destruct (el_center el);
    intros H; inversion H; reflexivity.
Qed.

Lemma filterBoolean_app {A : Type} (l k : list (option A)) :
  filterBoolean (l ++ k) = filterBoolean l ++ filterBoolean k.
Proof.
  induction l as [| [x |] r IH]; simpl; [reflexivity | now rewrite IH | exact IH].
Qed.

(** X4. Normalization works element by element: the records come in the
    order of their elements, each under the decimal id of its element, and
    there are never more records than elements. *)
Theorem normalize_keeps_order (elements more : list Element) :
  normalize (elements ++ more) = normalize elements ++ normalize more
  /\ sublist (map id (normalize elements))
             (map (fun el => pretty (el_id el)) elements)
  /\ length (normalize elements) <= length elements.
Proof.
  assert (Hsub : sublist (map id (normalize elements))
                         (map (fun el => pretty (el_id el)) elements)).
  { unfold normalize. induction elements as [| el r IH]; simpl; [constructor |].
    destruct (normalizeElement el) as [c |] eqn:Hc.
    - simpl. rewrite (normalizeElement_id el c Hc). now apply sublist_skip.
    - now apply sublist_cons. }
  split; [| split].
  - unfold normalize. now rewrite map_app, filterBoolean_app.
  - exact Hsub.
  - apply sublist_length in Hsub. now rewrite !length_map in Hsub.
Qed.

Lemma orStr_default (v : option string) (d : string) : d <> "" -> orStr v d <> "".
Proof. intros Hd. destruct v as [[| c r] |]; simpl; congruence. Qed.

Lemma normalizeElement_defaults (el : Element) (c : Cafe) :
  normalizeElement el = Some c ->
  (exists n : string, name c = Some n /\ n <> "")
  /\ is_Some (area c) /\ rating c = None /\ distanceMeters c = None.
Proof.
  unfold normalizeElement. cbv zeta.
  destruct (el_lat el) as [nlat |], (el_lon el) as [nlon |];
    try destruct (truthyR nlat && truthyR nlon);
    try destruct (el_center el);
    intros H; inversion H; simpl;
    (split; [eexists; split; [reflexivity | now apply orStr_default] | eauto]).
Qed.

(** X5. Every record made from an Overpass element has a name that is not
    empty (the tag [name], or "Cafe"), an area that is a string, and no
    rating and no distance yet. *)
Theorem normalize_defaults (elements : list Element) :
  Forall (fun c =>
            (exists n : string, name c = Some n /\ n <> "")
            /\ is_Some (area c) /\ rating c = None /\ distanceMeters c = None)
         (normalize elements).
Proof.
  unfold normalize. induction elements as [| el r IH]; simpl; [constructor |].
  destruct (normalizeElement el) as [c |] eqn:Hc; [| exact IH].
  constructor; [now apply (normalizeElement_defaults el) | exact IH].
Qed.

Lemma truthyStrings_elem (l : list (option string)) (v : string) :
  v ∈ truthyStrings l <-> Some v ∈ l /\ v <> "".
Proof.
  induction l as [| [s |] r IH]; simpl.
  - split; [intros H; inversion H | intros [H _]; inversion H].
  - destruct s as [| a s']; simpl.
    + rewrite IH, elem_of_cons. split; [intros [H1 H2]; auto |].
      intros [[H | H] Hne]; [congruence | auto].
    + rewrite !elem_of_cons, IH. split.
      * intros [-> | [H1 H2]]; [split; [now left | discriminate] | auto].
      * intros [[H | H] Hne]; [left; congruence | auto].
  - rewrite IH, elem_of_cons. split; [intros [H1 H2]; auto |].
    intros [[H | H] Hne]; [discriminate | auto].
Qed.

Lemma includes_join (sep : string) (parts : list string) (v : string) :
  v ∈ parts -> includes (join sep parts) v = true.
Proof.
  induction parts as [| p r IH]; intros Hin; [inversion Hin |].
  apply includes_spec. apply elem_of_cons in Hin as [-> | Hin].
  - destruct r as [| q r'].
    + exists "", "". simpl. now rewrite append_nil_r.
    + exists "", (sep +:+ join sep (q :: r')). reflexivity.
  - destruct r as [| q r']; [inversion Hin |].
    apply IH, includes_spec in Hin as (pre & post & Heq).
    exists (p +:+ sep +:+ pre), post.
    change (join sep (p :: q :: r')) with (p +:+ sep +:+ join sep (q :: r')).
    rewrite Heq, !append_assoc. reflexivity.
Qed.

Lemma truthyStrings_nonempty (l : list (option string)) :
  Forall (fun s => s <> "") (truthyStrings l).
Proof.
  induction l as [| [[| a s] |] r IH]; simpl; auto.
Qed.

Lemma join_empty (sep : string) (parts : list string) :
  Forall (fun s => s <> "") parts -> (join sep parts = "" <-> parts = []).
Proof.
  intros Hne. destruct parts as [| p r]; [easy |].
  split; [| discriminate]. inversion Hne as [| ? ? Hp _]; subst.
  destruct p as [| a p']; [congruence |].
  destruct r; simpl; discriminate.
Qed.

Lemma normalizeElement_address (el : Element) (c : Cafe) :
  normalizeElement el = Some c ->
  address c =
    join ", "
      (truthyStrings
         (map (fun key => nullish (el_tags el) ∅ !! key)
            ["addr:housename"; "addr:housenumber"; "addr:street"; "addr:suburb";
             "addr:city"])).
Proof.
  unfold normalizeElement. cbv zeta.
  destruct (el_lat el) as [nlat |], (el_lon el) as [nlon |];
    try destruct (truthyR nlat && truthyR nlon);
    try destruct (el_center el);
    intros H; inversion H; reflexivity.
Qed.

(** X6. The address of a record contains every address tag of its element
    that is not empty (house name, house number, street, suburb, city), and
    it is the empty string exactly when the element has none. *)
Theorem normalizeElement_address_parts (el : Element) (c : Cafe) :
  normalizeElement el = Some c ->
  let tags := nullish (el_tags el) ∅ in
  let keys := ["addr:housename"; "addr:housenumber"; "addr:street"; "addr:suburb";
               "addr:city"] in
  (forall key v : string,
      key ∈ keys -> tags !! key = Some v -> v <> "" -> includes (address c) v = true)
  /\ (address c = "" <-> forall key : string, key ∈ keys -> orStr (tags !! key) "" = "").
Proof.
  intros Hc tags keys. rewrite (normalizeElement_address el c Hc). fold tags. fold keys.
  split.
  - intros key v Hk Hv Hne. apply includes_join, truthyStrings_elem.
    split; [| exact Hne]. apply list_elem_of_fmap. exists key. now rewrite Hv.
  - rewrite join_empty by apply truthyStrings_nonempty. split.
    + intros Hnil key Hk.
      destruct (tags !! key) as [v |] eqn:Hv; [| reflexivity].
      destruct v as [| a v']; [reflexivity |].
      assert (Hin : String a v' ∈ truthyStrings (map (fun key => tags !! key) keys)).
      { apply truthyStrings_elem. split; [| discriminate].
        apply list_elem_of_fmap. exists key. now rewrite Hv. }
      rewrite Hnil in Hin. inversion Hin.
    + intros Hall.
      destruct (truthyStrings (map (fun key => tags !! key) keys)) as [| v r] eqn:Ht;
        [reflexivity |].
      assert (Hin : v ∈ truthyStrings (map (fun key => tags !! key) keys))
        by (rewrite Ht; left).
      apply truthyStrings_elem in Hin as [Hin Hne].
      apply list_elem_of_fmap in Hin as (key & Hv & Hk).
      specialize (Hall key Hk). rewrite <- Hv in Hall. simpl in Hall.
      destruct v; [congruence | discriminate].
Qed.

(** X6 at a way whose street is "MG Road". *)
Lemma normalizeElement_address_parts_witness :
  exists c : Cafe,
    normalizeElement Samples.streetWay = Some c
    /\ includes (address c) "MG Road" = true.
Proof.
  eexists. split; [reflexivity |].
  refine (proj1 (normalizeElement_address_parts Samples.streetWay _ eq_refl)
            "addr:street" "MG Road" _ _ _).
  - do 2 apply list_elem_of_further. apply list_elem_of_here.
  - reflexivity.
  - discriminate.
Defined.

(** X7. When an element has coordinates of its own, both other than 0, its
    center is not consulted: the record is the same whatever the center,
    and it has the element's own coordinates. *)
Theorem normalizeElement_direct_wins (el el' : Element) :
  directCoordinates el ->
  el_id el' = el_id el -> el_tags el' = el_tags el ->
  el_lat el' = el_lat el -> el_lon el' = el_lon el ->
  normalizeElement el' = normalizeElement el
  /\ exists c : Cafe,
       normalizeElement el = Some c /\ lat c = el_lat el /\ lng c = el_lon el.
Proof.
  intros Hd Hid Htags Hlat Hlon. split; [| now apply normalizeElement_direct].
  destruct Hd as (nlat & nlon & Hnlat & Hnlon & H1 & H2).
  apply truthyR_true in H1, H2.
  unfold normalizeElement. cbv zeta.
  rewrite Hid, Htags, Hlat, Hlon, Hnlat, Hnlon, H1, H2. reflexivity.
Qed.

(** X7 at a node with and without a center. *)
Lemma normalizeElement_direct_wins_witness :
  normalizeElement Samples.streetNodeWithCenter = normalizeElement Samples.streetNode.
Proof.
  refine (proj1 (normalizeElement_direct_wins Samples.streetNode
                   Samples.streetNodeWithCenter _ eq_refl eq_refl eq_refl eq_refl)).
  exists 12.97%R, 77.59%R. repeat split; lra.
Defined.

End NormalizeMore.

(** ** More on distances and order *)

Module AssemblerMore.
Import Js Data Assembler SortFacts AssemblerFacts.

Section SortedInput.
Context {A : Type} (compareFn : A -> A -> number) (dom : A -> Prop) (key : A -> R).
Hypothesis compare_key :
  forall x y : A, dom x -> dom y ->
    (isPositive (compareFn x y) = true <-> (key y < key x)%R).

End SortedInput.




(** X8. Whatever the records, [attachDistances] loses none and adds none:
    the array holds the same records in some order, each with a
    [distanceMeters] that is the distance from the origin to its own
    coordinates ([NaN] when one is missing). *)
Theorem attachDistances_keeps_records (cafes : list Cafe) (originLat originLng : R) :
  let sorted := attachDistances cafes originLat originLng in
  Permutation sorted
    (map (fun c => setDistance (distanceFrom originLat originLng c) c) cafes)
  /\ Permutation (map id sorted) (map id cafes)
  /\ length sorted = length cafes
  /\ Forall (fun c => distanceMeters c = Some (distanceFrom originLat originLng c)) sorted.
Proof.
  intros sorted.
  assert (Hperm : Permutation sorted
            (map (fun c => setDistance (distanceFrom originLat originLng c) c) cafes))
    by apply sort_perm.
  split; [exact Hperm |]. split; [| split].
  - rewrite Hperm, map_map. simpl. reflexivity.
  - rewrite (Permutation_length Hperm). apply length_map.
  - apply (Permutation_Forall (Permutation_sym Hperm)).
    apply Forall_map. apply Forall_forall. intros c _. reflexivity.
Qed.





End AssemblerMore.

(** ** What rendering builds *)

Module RenderMore.
Import Js Data Page Script App View RenderFacts.
Local Open Scope R_scope.

Lemma lastWith_snoc (l : list Cafe) (x : Cafe) (k : string) (h : nat) :
  lastWith (l ++ [x]) k h <->
  (id x = k /\ h = length l) \/ (id x <> k /\ lastWith l k h).
Proof.
  unfold lastWith. split.
  - intros [(c & Hc & Hid) Hlast].
    apply lookup_snoc_Some in Hc as [[Hlt Hc] | [-> <-]].
    + right. assert (Hx : id x <> k).
      { apply (Hlast (length l) x Hlt). apply list_lookup_middle. reflexivity. }
      split; [exact Hx |]. split; [now exists c |].
      intros j c' Hj Hc'. apply (Hlast j c' Hj).
      apply lookup_snoc_Some. left. split; [| exact Hc'].
      now apply lookup_lt_Some in Hc'.
    + left. auto.
  - intros [[Hid ->] | [Hx [(c & Hc & Hid) Hlast]]].
    + split.
      * exists x. split; [| exact Hid]. apply list_lookup_middle. reflexivity.
      * intros j c' Hj Hc'. apply lookup_lt_Some in Hc'.
        rewrite length_app in Hc'. simpl in Hc'. lia.
    + split.
      * exists c. split; [| exact Hid]. apply lookup_snoc_Some. left.
        split; [now apply lookup_lt_Some in Hc | exact Hc].
      * intros j c' Hj Hc'. apply lookup_snoc_Some in Hc' as [[_ Hc'] | [_ <-]];
          [now apply (Hlast j c') | exact Hx].
Qed.

Lemma lastWith_nil (k : string) (h : nat) : ~ lastWith [] k h.
Proof. intros [(c & Hc & _) _]. discriminate Hc. Qed.

(** A cafe of id [k] in the list has a last position. *)
Lemma lastWith_exists (cafes : list Cafe) (k : string) :
  (exists c : Cafe, c ∈ cafes /\ id c = k) <-> exists h : nat, lastWith cafes k h.
Proof.
  split.
  - induction cafes as [| x l IH] using rev_ind; intros (c & Hin & Hid).
    + inversion Hin.
    + destruct (decide (id x = k)) as [Hx | Hx].
      * exists (length l). apply lastWith_snoc. left. auto.
      * apply elem_of_app in Hin as [Hin | Hin].
        -- destruct IH as [h Hh]; [now exists c |].
           exists h. apply lastWith_snoc. right. auto.
        -- apply list_elem_of_singleton in Hin. congruence.
  - intros (h & (c & Hc & Hid) & _). exists c. split; [| exact Hid].
    eapply list_elem_of_lookup_2, Hc.
Qed.

Lemma lastWith_unique (cafes : list Cafe) (k : string) (h h' : nat) :
  lastWith cafes k h -> lastWith cafes k h' -> h = h'.
Proof.
  intros [(c & Hc & Hid) Hlast] [(c' & Hc' & Hid') Hlast'].
  destruct (Nat.lt_trichotomy h h') as [Hlt | [Heq | Hgt]]; [| exact Heq |].
  - now destruct (Hlast h' c' Hlt Hc').
  - now destruct (Hlast' h c Hgt Hc).
Qed.

(** The loop of [renderList], from an empty list and registry. *)
Lemma renderList_from_empty (cafes : list Cafe) (s : State) :
  cafeListEl s = [] -> idToCard s = ∅ ->
  let s' :=
    foldl (fun s cafe =>
             let card := {| card_id := Some (id cafe); card_selected := false |} in
             let handle := length (cafeListEl s) in
             let s := set_cafeListEl (cafeListEl s ++ [card]) s in
             set_idToCard (<[id cafe := handle]> (idToCard s)) s)
      s cafes in
  cafeListEl s' = map cardOf cafes
  /\ forall (k : string) (h : nat), idToCard s' !! k = Some h <-> lastWith cafes k h.
Proof.
  intros Hl Hc. cbv zeta. induction cafes as [| x l IH] using rev_ind.
  - simpl. split; [exact Hl |]. intros k h. rewrite Hc, lookup_empty.
    split; [discriminate | intros H; now destruct (lastWith_nil k h)].
  - rewrite foldl_snoc. destruct IH as [IHl IHc].
    match goal with |- context [foldl ?f s l] => remember (foldl f s l) as sl eqn:E end.
    clear E. simpl. split.
    + rewrite IHl, map_app. reflexivity.
    + intros k h. rewrite lookup_insert_Some, lastWith_snoc, IHl, length_map, IHc.
      split; intros [[H1 H2] | [H1 H2]]; auto.
Qed.

(** What [renderList] writes, as a function of the cafes. *)
Lemma renderList_closed (cafes : list Cafe) (s : State) :
  renderList cafes s = set_idToCard (cardRegistry cafes) (set_cafeListEl (cardsFor cafes) s)
  /\ forall (k : string) (h : nat), cardRegistry cafes !! k = Some h <-> lastWith cafes k h.
Proof.
  assert (Hany : forall s0 : State,
    cafeListEl (renderList cafes s0) = cardsFor cafes
    /\ forall (k : string) (h : nat),
         idToCard (renderList cafes s0) !! k = Some h <-> lastWith cafes k h).
  { intros s0. unfold renderList. cbv zeta. destruct cafes as [| c r].
    - simpl. split; [reflexivity |]. intros k h. rewrite lookup_empty.
      split; [discriminate | intros H; now destruct (lastWith_nil k h)].
    - apply (renderList_from_empty (c :: r)); reflexivity. }
  split; [| apply Hany].
  destruct (renderList_shape cafes s) as (cards & registry & Heq & _).
  destruct (Hany s) as [Hl Hc]. destruct (Hany blank) as [_ Hb].
  rewrite Heq in Hl, Hc. simpl in Hl, Hc. rewrite Heq. f_equal; [| now rewrite Hl].
  apply map_eq. intros k. apply option_eq. intros h.
  unfold cardRegistry. now rewrite Hc, Hb.
Qed.

(** X11. [renderList] writes the list and the card registry and nothing
    else, and what it writes depends on the cafes only: one card per cafe,
    in order, none selected (one placeholder card when there is no cafe),
    and under each id the position of the last cafe that has it. *)
Theorem renderList_builds (cafes : list Cafe) (s : State) :
  renderList cafes s = set_idToCard (cardRegistry cafes) (set_cafeListEl (cardsFor cafes) s)
  /\ forall (k : string) (h : nat), cardRegistry cafes !! k = Some h <-> lastWith cafes k h.
Proof. exact (renderList_closed cafes s). Qed.

(** The registry of the markers of [cafes] holds, under each id, the
    marker of the last cafe that has it. *)
Lemma markerRegistry_lookup (cafes : list Cafe) (k : string) (m : Marker) :
  markerRegistry cafes !! k = Some m <->
  exists (h : nat) (c : Cafe),
    lastWith cafes k h /\ cafes !! h = Some c /\ m = markerOf c.
Proof.
  unfold markerRegistry. revert m. induction cafes as [| x l IH] using rev_ind; intros m.
  - simpl. rewrite lookup_empty.
    split; [discriminate | intros (h & c & H & _); now destruct (lastWith_nil k h)].
  - rewrite foldl_snoc, lookup_insert_Some, IH. split.
    + intros [[H1 H2] | [H1 (h & c & Hh & Hc' & Hm)]].
      * exists (length l), x. split; [apply lastWith_snoc; auto |].
        split; [apply list_lookup_middle; reflexivity | now rewrite <- H2].
      * exists h, c. split; [apply lastWith_snoc; auto |]. split; [| exact Hm].
        apply lookup_snoc_Some. left.
        split; [now apply lookup_lt_Some in Hc' | exact Hc'].
    + intros (h & c & Hh & Hc' & Hm). apply lastWith_snoc in Hh as [[H1 ->] | [H1 Hh]].
      * left. split; [exact H1 |]. rewrite list_lookup_middle in Hc' by reflexivity.
        inversion Hc'; subst. reflexivity.
      * right. split; [exact H1 |]. exists h, c. split; [exact Hh |]. split; [| exact Hm].
        apply lookup_snoc_Some in Hc' as [[_ Hc'] | [-> _]]; [exact Hc' |].
        destruct Hh as [(c0 & Hc0 & _) _]. apply lookup_lt_Some in Hc0. lia.
Qed.

(** When every cafe is drawable, all are drawn. *)
Lemma drawn_all (cafes : list Cafe) : forallb drawable cafes = true -> drawn cafes = cafes.
Proof.
  induction cafes as [| c r IH]; simpl; [reflexivity |].
  destruct (drawable c); [| discriminate]. simpl. intros H. now rewrite IH.
Qed.

(** The cafes drawn are the cafes before the first that is not
    drawable. *)
Lemma drawn_prefix (cafes : list Cafe) :
  exists rest : list Cafe,
    cafes = drawn cafes ++ rest
    /\ forallb drawable (drawn cafes) = true
    /\ match rest with
       | [] => forallb drawable cafes = true
       | cafe :: _ => drawable cafe = false /\ forallb drawable cafes = false
       end.
Proof.
  induction cafes as [| c r (rest & Heq & Hd & Hrest)]; [now exists [] |].
  simpl. destruct (drawable c) eqn:Hc.
  - exists rest. simpl. rewrite Hc. split; [now rewrite <- Heq |]. split; [exact Hd |].
    exact Hrest.
  - exists (c :: r). auto.
Qed.

Lemma drawn_elem (cafes : list Cafe) (c : Cafe) : c ∈ drawn cafes -> c ∈ cafes.
Proof.
  destruct (drawn_prefix cafes) as (rest & Heq & _). intros Hin. rewrite Heq.
  apply elem_of_app. now left.
Qed.

(** The ratings whose stars fit are those from -0.5 up to 5.5, the bound
    5.5 left out. *)
Lemma starsFit_range (r : R) : starsFit (Some r) = true <-> -1 / 2 <= r < 11 / 2.
Proof.
  unfold starsFit, round. rewrite andb_true_iff, !Z.leb_le.
  pose proof (Zfloor_bound (r + 1 / 2)) as Hb. split.
  - intros [H0 H5]. apply IZR_le in H0, H5. lra.
  - intros [Hlo Hhi]. split.
    + apply Zfloor_lub. lra.
    + assert (H : (Zfloor (r + 1 / 2) < 6)%Z); [| lia].
      apply lt_IZR. lra.
Qed.

(** X12. [renderMarkers] writes the layer and the marker registry and
    nothing else.  It draws the cafes in order up to the first one that is
    not drawable, where it throws; it completes normally exactly when
    every cafe is drawable.  A cafe is drawable when it has both
    coordinates and its rating, if it is a number, lies from -0.5 up to 5.5,
    the bound left out.  The layer holds one marker for each cafe drawn, at
    the coordinates of the cafe, and the registry holds under each id the
    marker of the last cafe drawn that has it. *)
Theorem renderMarkers_builds (cafes : list Cafe) (s : State) :
  exec (renderMarkers cafes) s =
    set_idToMarker (markerRegistry (drawn cafes)) (set_cafeLayer (map markerOf (drawn cafes)) s)
  /\ (fst (renderMarkers cafes s) = Normal tt <-> forallb drawable cafes = true)
  /\ (exists rest : list Cafe,
        cafes = drawn cafes ++ rest
        /\ forallb drawable (drawn cafes) = true
        /\ match rest with
           | [] => forallb drawable cafes = true
           | cafe :: _ => drawable cafe = false /\ forallb drawable cafes = false
           end)
  /\ (forall cafe : Cafe,
        drawable cafe = true <->
        match rating cafe with Some r => -1 / 2 <= r < 11 / 2 | None => True end
        /\ is_Some (lat cafe) /\ is_Some (lng cafe))
  /\ forall (k : string) (m : Marker),
       markerRegistry (drawn cafes) !! k = Some m <->
       exists (h : nat) (c : Cafe),
         lastWith (drawn cafes) k h /\ drawn cafes !! h = Some c /\ m = markerOf c.
Proof.
  destruct (renderMarkers_run cafes) as (r & Hrun & Hr).
  split; [| split; [| split; [| split]]].
  - unfold exec. now rewrite Hrun.
  - rewrite Hrun. simpl. destruct (forallb drawable cafes).
    + now subst r.
    + destruct Hr as [e ->]. split; discriminate.
  - apply drawn_prefix.
  - intros cafe. unfold drawable. rewrite andb_true_iff.
    assert (Hc : match lat cafe, lng cafe with
                 | Some _, Some _ => true
                 | _, _ => false
                 end = true <-> is_Some (lat cafe) /\ is_Some (lng cafe)).
    { destruct (lat cafe), (lng cafe); split; try discriminate; eauto;
        intros [Ha Hb]; try (destruct Ha; discriminate); destruct Hb; discriminate. }
    rewrite Hc. destruct (rating cafe) as [r0 |]; [rewrite starsFit_range |]; simpl; tauto.
  - intros k m. apply markerRegistry_lookup.
Qed.

End RenderMore.

(** ** What the handlers leave alone *)

Module FrameFacts.
Import Js Data Page Script App View RenderFacts.
Local Open Scope js_scope.

(** A way to show that a handler relates the state it starts from to the
    state it leaves by [rel], a reflexive and transitive relation: it is
    enough that each write of the handler does. *)
Section Frame.
Context (rel : State -> State -> Prop).
Hypothesis rel_refl : forall s : State, rel s s.
Hypothesis rel_trans : forall s1 s2 s3 : State, rel s1 s2 -> rel s2 s3 -> rel s1 s3.

Local Abbreviation respects := (View.respects rel).

Lemma respects_ret {A : Type} (a : A) : respects (ret a).
Proof. intros s. apply rel_refl. Qed.

Lemma respects_throw {A : Type} (e : Error) : respects (@throw A e).
Proof. intros s. apply rel_refl. Qed.

Lemma respects_complete {A : Type} (r : Completion A) : respects (complete r).
Proof. intros s. apply rel_refl. Qed.

Lemma respects_gets {A : Type} (f : State -> A) : respects (gets f).
Proof. intros s. apply rel_refl. Qed.

Lemma respects_modify (f : State -> State) :
  (forall s : State, rel s (f s)) -> respects (modify f).
Proof. intros H s. apply H. Qed.

Lemma respects_bind {A B : Type} (m : M A) (k : A -> M B) :
  respects m -> (forall a : A, respects (k a)) -> respects (bind m k).
Proof.
  intros Hm Hk s. specialize (Hm s). unfold respects, exec, bind in *.
  destruct (m s) as [[a | e] s1]; simpl in *; [| exact Hm].
  eapply rel_trans; [exact Hm | apply Hk].
Qed.

Lemma respects_tryCatch {A : Type} (body : M A) (handler : Error -> M A) :
  respects body -> (forall e : Error, respects (handler e)) ->
  respects (tryCatch body handler).
Proof.
  intros Hm Hk s. specialize (Hm s). unfold respects, exec, tryCatch in *.
  destruct (body s) as [[a | e] s1]; simpl in *; [exact Hm |].
  eapply rel_trans; [exact Hm | apply Hk].
Qed.

Lemma respects_tryFinally {A : Type} (body : M A) (final : M unit) :
  respects body -> respects final -> respects (tryFinally body final).
Proof.
  intros Hm Hf s. specialize (Hm s). unfold respects, exec, tryFinally in *.
  destruct (body s) as [r s1]. specialize (Hf s1). simpl in *.
  destruct (final s1) as [[u | e] s2]; simpl in *; eapply rel_trans; eassumption.
Qed.

(** The writes of [searchNearby]. *)
Hypothesis rel_call : forall (c : Call) (s : State), rel s (set_calls (calls s ++ [c]) s).
Hypothesis rel_setSummary : forall (text : string) (s : State), rel s (setSummary text s).
Hypothesis rel_showSpinner : forall (show : bool) (s : State), rel s (showSpinner show s).
Hypothesis rel_set_allCafes :
  forall (cafes : list Cafe) (s : State), rel s (set_allCafes cafes s).
Hypothesis rel_updateUI :
  forall (cafes : list Cafe) (from : string) (s : State), rel s (exec (updateUI cafes from) s).

Lemma respects_call (c : Call) : respects (call c).
Proof. intros s. apply rel_call. Qed.

Lemma respects_updateUI (cafes : list Cafe) (from : string) : respects (updateUI cafes from).
Proof. intros s. apply rel_updateUI. Qed.

Create HintDb frame.

Hint Resolve respects_ret respects_throw respects_complete respects_gets respects_modify
  respects_bind respects_tryCatch respects_tryFinally respects_call respects_updateUI
  rel_setSummary rel_showSpinner rel_set_allCafes : frame.

Lemma respects_searchNearby (w : World) (lat lng radiusMeters : R) :
  respects (searchNearby w lat lng radiusMeters).
Proof.
  unfold searchNearby, fetchOverpassCafes, loadFallbackCafes.
  apply respects_tryFinally; [| auto with frame].
  apply respects_tryCatch.
  - apply respects_bind; [auto with frame | intros _].
    apply respects_bind; [auto with frame | intros _].
    apply respects_bind; [auto with frame | intros cafes].
    destruct cafes as [| c cs]; [auto with frame |].
    apply respects_bind; [auto with frame | intros _].
    apply respects_bind; auto with frame.
  - intros err. apply respects_bind; [auto with frame | intros _].
    apply respects_tryCatch.
    + apply respects_bind; [auto with frame | intros fallback].
      apply respects_bind; [auto with frame | intros _].
      apply respects_bind; [auto with frame | intros all].
      apply respects_bind; auto with frame.
    + intros e2. auto with frame.
Qed.

(** The other writes of the handlers. *)
Hypothesis rel_setView :
  forall (center : Marker) (zoom : R) (s : State), rel s (setView center zoom s).
Hypothesis rel_set_searchInput :
  forall (value : string) (s : State), rel s (set_searchInput value s).
Hypothesis rel_set_radiusSelect :
  forall (value : R) (s : State), rel s (set_radiusSelect value s).
Hypothesis rel_set_localStorage :
  forall (stored : option Text) (s : State), rel s (set_localStorage stored s).
Hypothesis rel_placeOrUpdate :
  forall (lat lng : R) (s : State), rel s (_placeOrUpdate lat lng s).
Hypothesis rel_handleReset : forall s : State, rel s (handleReset s).

Hint Resolve rel_setView rel_set_searchInput rel_set_radiusSelect rel_set_localStorage
  rel_placeOrUpdate rel_handleReset : frame.

Lemma respects_parsePrefs : respects parsePrefs.
Proof.
  unfold parsePrefs. apply respects_bind; [auto with frame |].
  intros [[| |] |]; auto with frame.
Qed.

Lemma respects_prop (p : Json) (key : string) : respects (prop p key).
Proof. destruct p; simpl; auto with frame. Qed.

Lemma respects_savePrefs (partial : gmap string R) : respects (savePrefs partial).
Proof.
  unfold savePrefs. apply respects_bind; [apply respects_parsePrefs |].
  intros p. auto with frame.
Qed.

Lemma respects_placeOrUpdateUserMarker (lat lng : R) :
  respects (placeOrUpdateUserMarker lat lng).
Proof.
  unfold placeOrUpdateUserMarker.
  apply respects_bind; [auto with frame | intros _; apply respects_savePrefs].
Qed.

Lemma respects_loadPrefs : respects loadPrefs.
Proof.
  unfold loadPrefs. apply respects_tryCatch; [| auto with frame].
  apply respects_bind; [apply respects_parsePrefs | intros p].
  apply respects_bind; [apply respects_prop | intros radius].
  apply respects_bind.
  { destruct radius as [radius |]; [destruct (truthyR radius) |]; auto with frame. }
  intros _. apply respects_bind; [apply respects_prop | intros lastLat].
  apply respects_bind; [apply respects_prop | intros lastLng].
  destruct lastLat as [lastLat |], lastLng as [lastLng |]; auto with frame.
  destruct (truthyR lastLat && truthyR lastLng); [| auto with frame].
  apply respects_bind; [apply respects_placeOrUpdateUserMarker | auto with frame].
Qed.

Lemma respects_handleFindNearMe (w : World) (geo : Geolocation) :
  respects (handleFindNearMe w geo).
Proof.
  destruct geo as [| latitude longitude | message]; simpl.
  - auto with frame.
  - apply respects_bind; [auto with frame | intros _].
    apply respects_bind; [auto with frame | intros radiusMeters].
    apply respects_bind; [apply respects_placeOrUpdateUserMarker | intros _].
    apply respects_bind; [auto with frame | intros _]. apply respects_searchNearby.
  - apply respects_bind; [auto with frame | intros _].
    apply respects_bind; [auto with frame | intros _].
    apply respects_bind; auto with frame.
Qed.

Lemma respects_handlePickOnMap (w : World) (lat lng : R) :
  respects (handlePickOnMap w lat lng).
Proof.
  unfold handlePickOnMap.
  apply respects_bind; [auto with frame | intros _].
  apply respects_bind; [apply respects_placeOrUpdateUserMarker | intros _].
  apply respects_bind; [auto with frame | intros _].
  apply respects_bind; [auto with frame | intros radiusMeters]. apply respects_searchNearby.
Qed.

Context {host : Host}.

Lemma respects_handleSearchInput : respects handleSearchInput.
Proof.
  unfold handleSearchInput. apply respects_bind; [auto with frame | intros value].
  cbv zeta. destruct (negb (truthyStr (toLowerCase (trim value)))).
  - apply respects_bind; [auto with frame | intros all].
    apply respects_bind; [auto with frame | intros _].
    apply respects_bind; auto with frame.
  - apply respects_bind; [auto with frame | intros all].
    apply respects_bind; auto with frame.
Qed.

Lemma respects_handle (w : World) (e : Event) :
  (forall cafeId : string, e <> ClickCard cafeId) ->
  (forall cafeId : string, e <> ClickMarker cafeId) ->
  respects (handle w e).
Proof.
  intros Hc Hm. destruct e as [geo | lat lng | | value | value | cafeId | cafeId]; simpl.
  - apply respects_handleFindNearMe.
  - apply respects_handlePickOnMap.
  - auto with frame.
  - apply respects_bind; [auto with frame | intros _; apply respects_handleSearchInput].
  - apply respects_bind; [auto with frame | intros _]. unfold radiusChanged.
    apply respects_bind; [auto with frame | intros radius; apply respects_savePrefs].
  - now destruct (Hc cafeId).
  - now destruct (Hm cafeId).
Qed.

End Frame.

End FrameFacts.

(** ** More on the search *)

Module CoordinatorMore.
Import Js Data Assembler Page Script App View RenderFacts StringFacts CoordinatorFacts
  NormalizeFacts PrefsFacts FrameFacts.

Lemma searchNearby_completes (w : World) (lat lng radiusMeters : R) (s : State) :
  fst (searchNearby w lat lng radiusMeters s) = Normal tt.
Proof. now rewrite searchNearby_run. Qed.

Lemma untouched_trans (s1 s2 s3 : State) :
  untouched s1 s2 -> untouched s2 s3 -> untouched s1 s3.
Proof.
  intros (H1 & H2 & H3 & H4 & H5 & H6) (K1 & K2 & K3 & K4 & K5 & K6).
  repeat split; congruence.
Qed.

Lemma untouched_updateUI (cafes : list Cafe) (from : string) (s : State) :
  untouched s (exec (updateUI cafes from) s).
Proof.
  destruct (updateUI_shape cafes from s) as (? & ? & ? & ? & ? & -> & _). repeat split.
Qed.

Lemma searchNearby_untouched (w : World) (lat lng radiusMeters : R) (s : State) :
  untouched s (exec (searchNearby w lat lng radiusMeters) s).
Proof.
  apply (respects_searchNearby untouched);
    first [ exact untouched_trans | exact untouched_updateUI | intros; repeat split ].
Qed.

(** X19. A search never throws, whatever the two sources answer and
    whether or not what they give can be rendered, and it always ends with
    the spinner hidden.  It leaves the search box, the selected id, the
    visitor's marker, the radius, the stored preferences and the view of
    the map as they were. *)
Theorem searchNearby_never_throws (w : World) (lat lng radiusMeters : R) (s : State) :
  let s' := exec (searchNearby w lat lng radiusMeters) s in
  fst (searchNearby w lat lng radiusMeters s) = Normal tt
  /\ spinnerHidden s' = true
  /\ searchInput s' = searchInput s
  /\ selectedCafeId s' = selectedCafeId s
  /\ userMarker s' = userMarker s
  /\ radiusSelect s' = radiusSelect s
  /\ localStorage s' = localStorage s
  /\ mapView s' = mapView s.
Proof.
  cbv zeta.
  destruct (searchNearby_untouched w lat lng radiusMeters s) as (H1 & H2 & H3 & H4 & H5 & H6).
  split; [apply searchNearby_completes |].
  split; [now rewrite searchNearby_exec |]. repeat split; assumption.
Qed.

Lemma attachDistances_ids (cafes : list Cafe) (originLat originLng : R) :
  Permutation (map id (attachDistances cafes originLat originLng)) (map id cafes).
Proof.
  unfold attachDistances. cbv zeta. rewrite SortFacts.sort_perm, map_map. reflexivity.
Qed.

(** X20. The fallback is not filtered by the radius: when Overpass gives no
    cafe and the bundled file is an array, the canonical set and the
    filtered set hold every entry of the file, one record each, whatever
    the radius and the origin.  The summary says that the fallback shows
    when every record can be rendered, and "Could not load cafes."
    otherwise. *)
Theorem searchNearby_fallback_whole_file (w : World) (lat lng radiusMeters : R)
    (s : State) (e : Error) (items : list Item) :
  primaryFailure w lat lng radiusMeters = Some e ->
  cafes_json w = Body (Some items) ->
  let s' := exec (searchNearby w lat lng radiusMeters) s in
  length (allCafes s') = length items
  /\ Permutation (map id (allCafes s')) (map (fun c => pretty (it_id c)) items)
  /\ filteredCafes s' = allCafes s'
  /\ resultSummary s' =
       if forallb drawable (map normalizeItem items) then "Showing fallback cafes"
       else "Could not load cafes.".
Proof.
  intros Hp Hj. cbv zeta. rewrite searchNearby_exec.
  destruct (searched_fields w lat lng radiusMeters s) as [_ H]. cbv zeta in H.
  assert (Hf : readFallback (cafes_json w) = Normal (map normalizeItem items))
    by now rewrite Hj.
  assert (Hall : allCafes (searched w lat lng radiusMeters s) =
                   attachDistances (map normalizeItem items) lat lng
                 /\ filteredCafes (searched w lat lng radiusMeters s) =
                      attachDistances (map normalizeItem items) lat lng
                 /\ resultSummary (searched w lat lng radiusMeters s) =
                      if forallb drawable (map normalizeItem items)
                      then "Showing fallback cafes" else "Could not load cafes.").
  { unfold primaryFailure in Hp. rewrite Hf in H.
    destruct (readOverpass (overpass w lat lng radiusMeters)) as [[| c cs] | e'];
      [| discriminate |]; now destruct H. }
  destruct Hall as (Hall & Hfil & Hsum). rewrite Hall, Hfil, Hsum.
  pose proof (attachDistances_ids (map normalizeItem items) lat lng) as Hperm.
  rewrite map_map in Hperm. simpl in Hperm.
  repeat split; [| exact Hperm].
  apply Permutation_length in Hperm. now rewrite !length_map in Hperm.
Qed.

(** The rating 4.5 shows as five stars. *)
Lemma starsFit_4_5 : starsFit (Some 4.5%R) = true.
Proof. unfold starsFit. now rewrite round_4_5. Qed.

(** The cafe of the bundled file of [offlineWorld] is drawable. *)
Lemma offline_drawable (items : list Item) :
  cafes_json offlineWorld = Body (Some items) ->
  forallb drawable (map normalizeItem items) = true.
Proof.
  intros H. inversion H. subst items. unfold drawable. cbn -[starsFit].
  now rewrite starsFit_4_5.
Qed.

(** X20 in a world where Overpass cannot be reached. *)
Lemma searchNearby_fallback_whole_file_witness :
  resultSummary (exec (searchNearby offlineWorld 12.97 77.59 500) (loaded 500 None))
  = "Showing fallback cafes".
Proof.
  refine (eq_trans
    (proj2 (proj2 (proj2
       (searchNearby_fallback_whole_file offlineWorld 12.97 77.59 500 (loaded 500 None)
          _ _ eq_refl eq_refl)))) _).
  now rewrite (offline_drawable _ eq_refl).
Defined.

(** X21. When Overpass gives at least one cafe and every cafe it gives can
    be rendered, the canonical set and the filtered set hold one record
    per normalized element and the summary gives their number. *)
Theorem searchNearby_primary_count (w : World) (lat lng radiusMeters : R) (s : State)
    (c : Cafe) (cs : list Cafe) :
  readOverpass (overpass w lat lng radiusMeters) = Normal (c :: cs) ->
  forallb drawable (c :: cs) = true ->
  let s' := exec (searchNearby w lat lng radiusMeters) s in
  fetches s' = fetches s ++ [FetchOverpass lat lng radiusMeters]
  /\ length (allCafes s') = S (length cs)
  /\ Permutation (map id (allCafes s')) (map id (c :: cs))
  /\ filteredCafes s' = allCafes s'
  /\ resultSummary s' = pretty (S (length cs)) +:+ " cafe(s) found".
Proof.
  intros Hr Hd. cbv zeta. rewrite searchNearby_exec.
  destruct (searched_fields w lat lng radiusMeters s) as [_ H]. cbv zeta in H.
  rewrite Hr, Hd in H. destruct H as (Hf & Hall & Hfil & Hsum).
  rewrite Hf, Hall, Hfil, Hsum.
  pose proof (attachDistances_ids (c :: cs) lat lng) as Hperm.
  pose proof (Permutation_length Hperm) as Hlen. rewrite !length_map in Hlen.
  simpl in Hlen. rewrite Hlen. repeat split. exact Hperm.
Qed.

(** The record Overpass's node of [onlineWorld] becomes is drawable. *)
Lemma online_reply (lat lng radiusMeters : R) :
  exists c : Cafe,
    readOverpass (overpass Worlds.onlineWorld lat lng radiusMeters) = Normal [c]
    /\ forallb drawable [c] = true.
Proof.
  assert (Hd : directCoordinates Samples.streetNode).
  { exists 12.97%R, 77.59%R. repeat split; lra. }
  destruct (normalizeElement_direct _ Hd) as (c & Hc & Hlat & Hlng).
  destruct (NormalizeMore.normalizeElement_defaults _ _ Hc) as (_ & _ & Hr & _).
  exists c. split.
  - simpl. unfold normalize. now rewrite filterBoolean_map_singleton, Hc.
  - simpl. unfold drawable. now rewrite Hr, Hlat, Hlng.
Qed.

(** X21 in a world where Overpass answers with one node. *)
Lemma searchNearby_primary_count_witness :
  resultSummary (exec (searchNearby Worlds.onlineWorld 12.97 77.59 500) (loaded 500 None))
  = "1 cafe(s) found".
Proof.
  destruct (online_reply 12.97 77.59 500) as (c & Hr & Hd).
  exact (proj2 (proj2 (proj2 (proj2
    (searchNearby_primary_count Worlds.onlineWorld 12.97 77.59 500 (loaded 500 None)
       c [] Hr Hd))))).
Defined.

Lemma forallb_elem_false {A : Type} (p : A -> bool) (l : list A) (x : A) :
  x ∈ l -> p x = false -> forallb p l = false.
Proof.
  intros Hin Hx. induction l as [| y l IH]; [inversion Hin |]. simpl.
  apply elem_of_cons in Hin as [<- | Hin].
  - now rewrite Hx.
  - rewrite IH by exact Hin. apply andb_false_r.
Qed.

Lemma normalize_elem (elements : list Element) (el : Element) (c : Cafe) :
  el ∈ elements -> normalizeElement el = Some c -> c ∈ normalize elements.
Proof.
  unfold normalize. intros Hin Hc. induction elements as [| y l IH]; [inversion Hin |].
  simpl. apply elem_of_cons in Hin as [<- | Hin].
  - rewrite Hc. left.
  - destruct (normalizeElement y); [right |]; now apply IH.
Qed.

(** X30. A way or a relation sends the search to the bundled file.  Under
    [out tags center] Overpass gives such an element no coordinates of its
    own and a center that names its longitude [lon]; the record made from
    it has no [lng], [L.marker] refuses it, and the [catch] clause takes
    over although Overpass gave cafes: the bundled file is fetched, and
    becomes the canonical set if it loads. *)
Theorem searchNearby_way_falls_back (w : World) (lat lng radiusMeters : R) (s : State)
    (elements : list Element) (way : Element) (center : gmap string R) :
  overpass w lat lng radiusMeters = Body (Some elements) ->
  way ∈ elements ->
  el_lat way = None -> el_center way = Some center -> center !! "lng" = None ->
  let s' := exec (searchNearby w lat lng radiusMeters) s in
  fetches s' = fetches s ++ [FetchOverpass lat lng radiusMeters; FetchFallback]
  /\ match readFallback (cafes_json w) with
     | Normal items =>
         allCafes s' = attachDistances items lat lng
         /\ resultSummary s' =
              if forallb drawable items then "Showing fallback cafes"
              else "Could not load cafes."
     | Throw _ => resultSummary s' = "Could not load cafes."
     end.
Proof.
  intros Hreply Hin Hlat Hcenter Hlng. cbv zeta. rewrite searchNearby_exec.
  destruct (searched_fields w lat lng radiusMeters s) as [_ H]. cbv zeta in H.
  assert (Hn : ~ directCoordinates way).
  { intros (nlat & nlon & Hl & _). congruence. }
  destruct (normalizeElement_center way center Hn Hcenter) as (c & Hc & _ & Hclng).
  assert (Hread : readOverpass (overpass w lat lng radiusMeters) = Normal (normalize elements))
    by now rewrite Hreply.
  assert (Hbad : forallb drawable (normalize elements) = false).
  { apply (forallb_elem_false _ _ c); [now apply (normalize_elem elements way) |].
    unfold drawable. rewrite Hclng, Hlng. destruct (Data.lat c); apply andb_false_r. }
  rewrite Hread in H.
  destruct (normalize elements) as [| c0 cs]; [discriminate Hbad |].
  rewrite Hbad in H. destruct H as [Hf H]. split; [exact Hf |].
  destruct (readFallback (cafes_json w)); tauto.
Qed.

(** X30 in a world where Overpass answers with a node and a way. *)
Lemma searchNearby_way_falls_back_witness :
  resultSummary (exec (searchNearby Worlds.wayWorld 12.97 77.59 500) (loaded 500 None))
  = "Showing fallback cafes".
Proof.
  assert (Hlng : (<["lat" := 12.97%R]> (<["lon" := 77.59%R]> (∅ : gmap string R)))
                   !! "lng" = None).
  { rewrite !lookup_insert_ne by discriminate. apply lookup_empty. }
  assert (Hin : Samples.streetWay ∈ [Samples.streetNode; Samples.streetWay]).
  { right. left. }
  refine (eq_trans
    (proj2 (proj2
       (searchNearby_way_falls_back Worlds.wayWorld 12.97 77.59 500 (loaded 500 None)
          _ Samples.streetWay _ eq_refl Hin eq_refl eq_refl Hlng))) _).
  now rewrite (offline_drawable _ eq_refl).
Defined.

End CoordinatorMore.

(** ** More on preferences and on locating *)

Module PrefsMore.
Import Js Data Assembler Page Script App RenderFacts StringFacts CoordinatorFacts
  NormalizeFacts PrefsFacts CoordinatorMore.

(** [loadPrefs] on a stored object: the radius is selected when it is
    there and not 0, then the visitor's marker is placed and the map
    centered when the two coordinates are there and not 0. *)
Lemma loadPrefs_object (p : gmap string R) (s : State) :
  localStorage s = Some (prefsText p) ->
  exec loadPrefs s =
    let s1 :=
      match p !! "radius" with
      | Some radius => if truthyR radius then set_radiusSelect radius s else s
      | None => s
      end in
    match p !! "lastLat", p !! "lastLng" with
    | Some lastLat, Some lastLng =>
        if truthyR lastLat && truthyR lastLng then
          setView (Some lastLat, Some lastLng) 13%R
            (set_localStorage
               (Some (prefsText (<["lastLat" := lastLat]> (<["lastLng" := lastLng]> ∅) ∪ p)))
               (_placeOrUpdate lastLat lastLng s1))
        else s1
    | _, _ => s1
    end.
Proof.
  intros Hs. run_prefs. simpl. rewrite Hs. simpl.
  destruct (p !! "radius") as [radius |]; [destruct (truthyR radius) |]; simpl;
    (destruct (p !! "lastLat") as [lastLat |]; [| reflexivity]);
    (destruct (p !! "lastLng") as [lastLng |]; [| reflexivity]);
    (destruct (truthyR lastLat && truthyR lastLng); [| reflexivity]);
    rewrite (savePrefs_document _ (Some (JObject p))) by exact Hs; reflexivity.
Qed.

Lemma union_known (p : gmap string R) (a b : R) :
  p !! "lastLat" = Some a -> p !! "lastLng" = Some b ->
  <["lastLat" := a]> (<["lastLng" := b]> ∅) ∪ p = p.
Proof.
  intros Ha Hb. apply map_subseteq_union. apply insert_subseteq_l; [exact Ha |].
  apply insert_subseteq_l; [exact Hb |]. apply map_empty_subseteq.
Qed.

Lemma loadPrefs_storage (s : State) : localStorage (exec loadPrefs s) = localStorage s.
Proof.
  destruct (localStorage s) as [[| | [p | |]] |] eqn:Hs.
  - rewrite loadPrefs_defaults by auto. exact Hs.
  - rewrite loadPrefs_defaults by auto. exact Hs.
  - rewrite (loadPrefs_object p s Hs). cbv zeta.
    destruct (p !! "radius") as [radius |]; [destruct (truthyR radius) |];
      (destruct (p !! "lastLat") as [lastLat |] eqn:Ha; [| exact Hs]);
      (destruct (p !! "lastLng") as [lastLng |] eqn:Hb; [| exact Hs]);
      (destruct (truthyR lastLat && truthyR lastLng); [| exact Hs]);
      simpl; now rewrite (union_known p lastLat lastLng Ha Hb).
  - run_prefs. simpl. rewrite Hs. simpl. exact Hs.
  - run_prefs. simpl. rewrite Hs. simpl. exact Hs.
  - rewrite loadPrefs_defaults by auto. exact Hs.
Qed.

(** X22. [loadPrefs] never throws, whatever is stored, and never changes
    what is stored: placing the marker it restores saves the same location
    again.  It leaves the cafes, the list and the selection alone. *)
Theorem loadPrefs_harmless (s : State) :
  fst (loadPrefs s) = Normal tt
  /\ localStorage (exec loadPrefs s) = localStorage s
  /\ allCafes (exec loadPrefs s) = allCafes s
  /\ filteredCafes (exec loadPrefs s) = filteredCafes s
  /\ cafeListEl (exec loadPrefs s) = cafeListEl s
  /\ selectedCafeId (exec loadPrefs s) = selectedCafeId s
  /\ calls (exec loadPrefs s) = calls s.
Proof.
  split; [apply loadPrefs_never_throws |]. split; [apply loadPrefs_storage |].
  destruct (localStorage s) as [[| | [p | |]] |] eqn:Hs.
  - rewrite loadPrefs_defaults by auto. repeat split.
  - rewrite loadPrefs_defaults by auto. repeat split.
  - rewrite (loadPrefs_object p s Hs). cbv zeta.
    destruct (p !! "radius") as [radius |]; [destruct (truthyR radius) |];
      (destruct (p !! "lastLat") as [lastLat |]; [| repeat split]);
      (destruct (p !! "lastLng") as [lastLng |]; [| repeat split]);
      (destruct (truthyR lastLat && truthyR lastLng); repeat split).
  - run_prefs. simpl. rewrite Hs. simpl. repeat split.
  - run_prefs. simpl. rewrite Hs. simpl. repeat split.
  - rewrite loadPrefs_defaults by auto. repeat split.
Qed.

(** X23. A radius other than 0 comes back: after the radius select changes
    to [radius], over a stored document or nothing stored, the page loaded
    again with what is stored selects [radius]. *)
Theorem radius_round_trip {host : Host} (w : World) (radius other : R) (before : option Json)
    (s0 : State) :
  radius <> 0%R ->
  let s := step w (ChangeRadius radius) (withStored (Doc <$> before) s0) in
  radiusSelect (boot other (localStorage s)) = radius.
Proof.
  intros Hr. cbv zeta.
  assert (Hs : localStorage (step w (ChangeRadius radius) (withStored (Doc <$> before) s0))
               = Some (prefsText (<["radius" := radius]> ∅ ∪ storedProps before))).
  { unfold step, exec, handle, radiusChanged, bind, modify, gets. simpl.
    now rewrite (savePrefs_document _ before) by reflexivity. }
  rewrite Hs. unfold boot.
  apply (loadPrefs_radius (<["radius" := radius]> ∅ ∪ storedProps before));
    [reflexivity | | now apply truthyR_true].
  apply lookup_union_Some_l, lookup_insert_eq.
Qed.

(** X23 with the radius 2000 over nothing stored. *)
Lemma radius_round_trip_witness :
  radiusSelect
    (boot 1000 (localStorage (step (host := asciiHost) offlineWorld (ChangeRadius 2000)
                                (withStored (Doc <$> None) (loaded 1000 None)))))
  = 2000%R.
Proof.
  apply (radius_round_trip (host := asciiHost) offlineWorld 2000 1000 None (loaded 1000 None)).
  lra.
Defined.

Lemma placed_storage (lat lng : R) (before : option Json) (s0 : State) :
  exec (placeOrUpdateUserMarker lat lng) (withStored (Doc <$> before) s0) =
    set_localStorage
      (Some (prefsText (<["lastLat" := lat]> (<["lastLng" := lng]> ∅) ∪ storedProps before)))
      (_placeOrUpdate lat lng (withStored (Doc <$> before) s0)).
Proof.
  unfold exec, placeOrUpdateUserMarker, bind, modify. simpl.
  now rewrite (savePrefs_document _ before) by reflexivity.
Qed.

Lemma placed_props (lat lng : R) (props : gmap string R) :
  (<["lastLat" := lat]> (<["lastLng" := lng]> ∅) ∪ props) !! "lastLat" = Some lat
  /\ (<["lastLat" := lat]> (<["lastLng" := lng]> ∅) ∪ props) !! "lastLng" = Some lng
  /\ (<["lastLat" := lat]> (<["lastLng" := lng]> ∅) ∪ props) !! "radius" = props !! "radius".
Proof.
  split; [| split].
  - apply lookup_union_Some_l, lookup_insert_eq.
  - apply lookup_union_Some_l. rewrite lookup_insert_ne by discriminate.
    apply lookup_insert_eq.
  - apply lookup_union_r. rewrite !lookup_insert_ne by discriminate. apply lookup_empty.
Qed.

(** X24. A location off the equator and off the prime meridian comes back:
    after the visitor's marker is placed at [lat], [lng], the page loaded
    again with what is stored has the marker there and the map centered
    there at zoom 13. *)
Theorem location_round_trip (lat lng radius : R) (before : option Json) (s0 : State) :
  lat <> 0%R -> lng <> 0%R ->
  let s := exec (placeOrUpdateUserMarker lat lng) (withStored (Doc <$> before) s0) in
  userMarker (boot radius (localStorage s)) = Some (Some lat, Some lng)
  /\ mapView (boot radius (localStorage s)) = ((Some lat, Some lng), 13%R).
Proof.
  intros Hlat Hlng. cbv zeta. rewrite placed_storage. simpl.
  destruct (placed_props lat lng (storedProps before)) as (Ha & Hb & _).
  apply truthyR_true in Hlat, Hlng.
  unfold boot.
  rewrite (loadPrefs_object
             (<["lastLat" := lat]> (<["lastLng" := lng]> ∅) ∪ storedProps before))
    by reflexivity.
  cbv zeta. rewrite Ha, Hb, Hlat, Hlng.
  destruct ((<["lastLat" := lat]> (<["lastLng" := lng]> ∅) ∪ storedProps before) !! "radius")
    as [r |]; [destruct (truthyR r) |]; split; reflexivity.
Qed.

(** X24 at a point in Bengaluru. *)
Lemma location_round_trip_witness :
  userMarker
    (boot 1000 (localStorage (exec (placeOrUpdateUserMarker 12.97 77.59)
                                (withStored (Doc <$> None) (loaded 1000 None)))))
  = Some (Some 12.97%R, Some 77.59%R).
Proof.
  refine (proj1 (location_round_trip 12.97 77.59 1000 None (loaded 1000 None) _ _)); lra.
Defined.

(** X25. A location on the equator or on the prime meridian is stored but
    does not come back: the page loaded again with what is stored has no
    marker for the visitor and shows the default view. *)
Theorem location_on_axis_not_restored (lat lng radius : R) (before : option Json)
    (s0 : State) :
  lat = 0%R \/ lng = 0%R ->
  let s := exec (placeOrUpdateUserMarker lat lng) (withStored (Doc <$> before) s0) in
  (exists p : gmap string R,
      localStorage s = Some (prefsText p)
      /\ p !! "lastLat" = Some lat /\ p !! "lastLng" = Some lng)
  /\ userMarker (boot radius (localStorage s)) = None
  /\ mapView (boot radius (localStorage s)) = (INDIA_CENTER, INDIA_ZOOM).
Proof.
  intros Hz. cbv zeta. rewrite placed_storage. simpl.
  destruct (placed_props lat lng (storedProps before)) as (Ha & Hb & _).
  split; [eexists; split; [reflexivity | split; assumption] |].
  assert (Ht : truthyR lat && truthyR lng = false).
  { destruct Hz as [-> | ->]; rewrite truthyR_0; [reflexivity | apply andb_false_r]. }
  unfold boot.
  rewrite (loadPrefs_object
             (<["lastLat" := lat]> (<["lastLng" := lng]> ∅) ∪ storedProps before))
    by reflexivity.
  cbv zeta. rewrite Ha, Hb, Ht.
  destruct ((<["lastLat" := lat]> (<["lastLng" := lng]> ∅) ∪ storedProps before) !! "radius")
    as [r |]; [destruct (truthyR r) |]; split; reflexivity.
Qed.

(** X25 at a point on the prime meridian. *)
Lemma location_on_axis_not_restored_witness :
  userMarker
    (boot 1000 (localStorage (exec (placeOrUpdateUserMarker 51.48 0)
                                (withStored (Doc <$> None) (loaded 1000 None)))))
  = None.
Proof.
  refine (proj1 (proj2 (location_on_axis_not_restored 51.48 0 1000 None
                          (loaded 1000 None) _))).
  right. reflexivity.
Defined.

End PrefsMore.

(** ** Locating the visitor *)

Module LocateMore.
Import Js Data Assembler Page Script App View RenderFacts StringFacts CoordinatorFacts
  NormalizeFacts PrefsFacts CoordinatorMore PrefsMore Worlds.

(** The summary a search starts from does not matter: the search writes
    its own before anything else. *)
Lemma searched_summary (w : World) (lat lng radiusMeters : R) (text : string) (s : State) :
  searched w lat lng radiusMeters (set_resultSummary text s)
  = searched w lat lng radiusMeters s.
Proof. reflexivity. Qed.

(** Placing the marker succeeds when what is stored parses, and writes the
    marker and the storage only. *)
Lemma placeOrUpdateUserMarker_parsed (lat lng : R) (s : State) :
  localStorage s <> Some Garbage ->
  exists stored : option Text,
    placeOrUpdateUserMarker lat lng s
    = (Normal tt, set_localStorage stored (_placeOrUpdate lat lng s)).
Proof.
  intros Hs. unfold placeOrUpdateUserMarker, savePrefs, parsePrefs, bind, modify, gets,
    ret, throw. simpl.
  destruct (localStorage s) as [[| | p] |]; [congruence | | |]; eexists; reflexivity.
Qed.

(** The click on the map, once the marker is placed. *)
Lemma handlePickOnMap_run (w : World) (lat lng : R) (s : State) (stored : option Text) :
  placeOrUpdateUserMarker lat lng (setSummary "Click on the map to set your location…" s)
  = (Normal tt,
     set_localStorage stored
       (_placeOrUpdate lat lng (setSummary "Click on the map to set your location…" s))) ->
  handlePickOnMap w lat lng s =
    (Normal tt,
     searched w lat lng (radiusSelect s)
       (setView (Some lat, Some lng) 14
          (set_localStorage stored (_placeOrUpdate lat lng s)))).
Proof.
  intros H. unfold handlePickOnMap, bind, modify, gets. cbv beta iota. rewrite H.
  cbv beta iota. rewrite searchNearby_run.
  change (setView (Some lat, Some lng) 14
            (set_localStorage stored
               (_placeOrUpdate lat lng
                  (setSummary "Click on the map to set your location…" s))))
    with (set_resultSummary "Click on the map to set your location…"
            (setView (Some lat, Some lng) 14
               (set_localStorage stored (_placeOrUpdate lat lng s)))).
  now rewrite searched_summary.
Qed.

(** The position callback, once the marker is placed. *)
Lemma handleFindNearMe_run (w : World) (lat lng : R) (s : State) (stored : option Text) :
  placeOrUpdateUserMarker lat lng (setSummary "Locating you…" s)
  = (Normal tt,
     set_localStorage stored (_placeOrUpdate lat lng (setSummary "Locating you…" s))) ->
  handleFindNearMe w (Position lat lng) s =
    (Normal tt,
     searched w lat lng (radiusSelect s)
       (setView (Some lat, Some lng) 14
          (set_localStorage stored (_placeOrUpdate lat lng s)))).
Proof.
  intros H. unfold handleFindNearMe, bind, modify, gets. cbv beta iota. rewrite H.
  cbv beta iota. rewrite searchNearby_run.
  change (setView (Some lat, Some lng) 14
            (set_localStorage stored
               (_placeOrUpdate lat lng (setSummary "Locating you…" s))))
    with (set_resultSummary "Locating you…"
            (setView (Some lat, Some lng) 14
               (set_localStorage stored (_placeOrUpdate lat lng s)))).
  now rewrite searched_summary.
Qed.

(** X26. When what is stored parses, picking a point on the map does the
    same as being located at that point: the two handlers leave the same
    state. *)
Theorem handlePickOnMap_as_located (w : World) (lat lng : R) (s : State) :
  localStorage s <> Some Garbage ->
  exec (handlePickOnMap w lat lng) s = exec (handleFindNearMe w (Position lat lng)) s.
Proof.
  intros Hs.
  destruct (placeOrUpdateUserMarker_parsed lat lng
              (setSummary "Click on the map to set your location…" s) Hs)
    as [stored1 H1].
  destruct (placeOrUpdateUserMarker_parsed lat lng (setSummary "Locating you…" s) Hs)
    as [stored2 H2].
  assert (Hst : stored1 = stored2).
  { revert H1 H2. unfold placeOrUpdateUserMarker, savePrefs, parsePrefs, bind, modify,
      gets, ret, throw. simpl.
    destruct (localStorage s) as [[| | p] |]; [congruence | | |];
      intros H1 H2; inversion H1; inversion H2; congruence. }
  subst stored2. unfold exec.
  now rewrite (handlePickOnMap_run w lat lng s stored1 H1),
    (handleFindNearMe_run w lat lng s stored1 H2).
Qed.

(** X26 on the page as loaded, with nothing stored. *)
Lemma handlePickOnMap_as_located_witness :
  exec (handlePickOnMap offlineWorld 12.97 77.59) (loaded 1000 None)
  = exec (handleFindNearMe offlineWorld (Position 12.97 77.59)) (loaded 1000 None).
Proof.
  apply (handlePickOnMap_as_located offlineWorld 12.97 77.59 (loaded 1000 None)).
  discriminate.
Defined.

(** X27. Over a stored document, or nothing stored, being located at a
    point puts the visitor's marker there, centers the map there at zoom
    14, and stores the point as the last location next to the radius that
    was stored, whatever the search that follows finds. *)
Theorem handleFindNearMe_keeps_location (w : World) (lat lng : R) (before : option Json)
    (s0 : State) :
  let s := withStored (Doc <$> before) s0 in
  let s' := exec (handleFindNearMe w (Position lat lng)) s in
  fst (handleFindNearMe w (Position lat lng) s) = Normal tt
  /\ userMarker s' = Some (Some lat, Some lng)
  /\ mapView s' = ((Some lat, Some lng), 14%R)
  /\ exists p : gmap string R,
       localStorage s' = Some (prefsText p)
       /\ p !! "lastLat" = Some lat /\ p !! "lastLng" = Some lng
       /\ p !! "radius" = storedProps before !! "radius".
Proof.
  cbv zeta.
  assert (Hplace :
    placeOrUpdateUserMarker lat lng (setSummary "Locating you…" (withStored (Doc <$> before) s0))
    = (Normal tt,
       set_localStorage
         (Some (prefsText (<["lastLat" := lat]> (<["lastLng" := lng]> ∅) ∪ storedProps before)))
         (_placeOrUpdate lat lng
            (setSummary "Locating you…" (withStored (Doc <$> before) s0))))).
  { unfold placeOrUpdateUserMarker, bind, modify. simpl.
    now rewrite (savePrefs_document _ before) by reflexivity. }
  unfold exec. rewrite (handleFindNearMe_run w lat lng _ _ Hplace). simpl fst. simpl snd.
  rewrite <- searchNearby_exec.
  match goal with
  | |- context [exec (searchNearby w lat lng ?r) ?x] =>
      destruct (searchNearby_untouched w lat lng r x) as (_ & _ & Hm & _ & Hst & Hv)
  end.
  split; [reflexivity |]. split; [exact Hm |]. split; [exact Hv |].
  exists (<["lastLat" := lat]> (<["lastLng" := lng]> ∅) ∪ storedProps before).
  split; [exact Hst |]. apply placed_props.
Qed.

Lemma offlineCafes_drawable : forallb drawable offlineCafes = true.
Proof. exact (offline_drawable _ eq_refl). Qed.

(** In [offlineWorld] a search shows the bundled file. *)
Lemma searched_offline (lat lng radiusMeters : R) (s : State) :
  searched offlineWorld lat lng radiusMeters s =
    let fallback := attachDistances offlineCafes lat lng in
    showSpinner false
      (setSummary "Showing fallback cafes"
         (fetched fallback
            (set_allCafes fallback
               (warned (TypeError "Failed to fetch") (asked lat lng radiusMeters s))))).
Proof.
  unfold searched, caught. cbv zeta.
  change (readOverpass (overpass offlineWorld lat lng radiusMeters))
    with (@Throw (list Cafe) (TypeError "Failed to fetch")).
  change (readFallback (cafes_json offlineWorld)) with (Normal offlineCafes).
  cbv beta iota.
  rewrite drawable_attachDistances, offlineCafes_drawable. reflexivity.
Qed.

(** The page after a point is picked in [offlineWorld], from the page as
    loaded with nothing stored. *)
Lemma picked_offline (lat lng : R) :
  exists s : State,
    step (host := asciiHost) offlineWorld (ClickPick lat lng) (boot 1000 None) =
      showSpinner false
        (setSummary "Showing fallback cafes"
           (fetched (attachDistances offlineCafes lat lng) s)).
Proof.
  unfold step, handle, boot. rewrite loadPrefs_defaults by (left; reflexivity).
  destruct (placeOrUpdateUserMarker_parsed lat lng
              (setSummary "Click on the map to set your location…" (loaded 1000 None)))
    as [stored H]; [discriminate |].
  unfold exec. rewrite (handlePickOnMap_run _ _ _ _ _ H). simpl snd.
  rewrite searched_offline. cbv zeta. eexists. reflexivity.
Qed.

End LocateMore.

(** ** The list and the map stay in step *)

Module SyncFacts.
Import Js Data Assembler Page Script App View RenderFacts RenderMore SelectionFacts
  FrameFacts CoordinatorFacts CoordinatorMore LocateMore Worlds.

Lemma sameView_trans (s1 s2 s3 : State) : sameView s1 s2 -> sameView s2 s3 -> sameView s1 s3.
Proof.
  intros (H1 & H2 & H3 & H4 & H5) (K1 & K2 & K3 & K4 & K5).
  repeat split; congruence.
Qed.

Lemma sameView_fields (s s' : State) :
  cafeListEl s' = cafeListEl s -> idToCard s' = idToCard s ->
  idToMarker s' = idToMarker s -> cafeLayer s' = cafeLayer s ->
  filteredCafes s' = filteredCafes s ->
  sameView s s'.
Proof. intros H1 H2 H3 H4 H5. repeat split; congruence. Qed.

Lemma inStep_same (s s' : State) : sameView s s' -> inStep s -> inStep s'.
Proof.
  intros (H1 & H2 & H3 & H4 & H5) [[Hd (K1 & K2 & K3 & K4)] | [(K1 & K2 & K3 & K4) | [Hd (T1 & T2 & T3)]]].
  - left. rewrite H5. split; [exact Hd |]. unfold shows. rewrite H1, H2, H3, H4. auto.
  - right. left. unfold cleared. rewrite H2, H3, H4. repeat split; auto.
    rewrite K1 in H1. simpl in H1. now apply map_eq_nil in H1.
  - right. right. rewrite H5. split; [exact Hd |]. unfold torn. rewrite H2, H3, H4.
    split; [exact T1 |]. split; [exact T2 |].
    destruct T3 as [[E1 E2] | (before & B1 & B2)].
    + left. split; [| exact E2]. rewrite E1 in H1. simpl in H1. now apply map_eq_nil in H1.
    + right. exists before. now rewrite H1.
Qed.

(** What [updateUI] leaves when it returns. *)
Lemma listed_view (cafes : list Cafe) (s : State) :
  cafeListEl (listed cafes s) = cardsFor cafes
  /\ idToCard (listed cafes s) = cardRegistry cafes
  /\ idToMarker (listed cafes s) = markerRegistry (drawn cafes)
  /\ cafeLayer (listed cafes s) = map markerOf (drawn cafes)
  /\ filteredCafes (listed cafes s) = cafes.
Proof.
  unfold listed. rewrite (proj1 (renderList_closed cafes _)). repeat split.
Qed.

Lemma inStep_listed (cafes : list Cafe) (s : State) :
  forallb drawable cafes = true -> inStep (listed cafes s).
Proof.
  intros Hd. destruct (listed_view cafes s) as (H1 & H2 & H3 & H4 & H5).
  rewrite (drawn_all cafes Hd) in H3, H4.
  left. unfold shows. rewrite H1, H2, H3, H4, H5. auto.
Qed.

Lemma inStep_updateUI (cafes : list Cafe) (from : string) (s : State) :
  inStep s -> inStep (exec (updateUI cafes from) s).
Proof.
  intros Hs. unfold exec. rewrite updateUI_run.
  destruct (forallb drawable cafes) eqn:Hd; simpl.
  - destruct (negb (String.eqb from "search")).
    + apply (inStep_same (listed cafes s)); [| now apply inStep_listed].
      now apply sameView_fields.
    + now apply inStep_listed.
  - right. right. split; [exact Hd |]. split; [reflexivity |]. split; [reflexivity |].
    change (cafeListEl (marked cafes s)) with (cafeListEl s).
    change (idToCard (marked cafes s)) with (idToCard s).
    destruct Hs as [[_ (K1 & K2 & _)] | [(K1 & K2 & _) | [_ (_ & _ & T3)]]].
    + right. now exists (filteredCafes s).
    + now left.
    + exact T3.
Qed.

Lemma cleared_card_ids (hs : list nat) (l : list Card) :
  map card_id (foldl (fun l el => alter removeSelected el l) l hs) = map card_id l.
Proof.
  revert l. induction hs as [| h r IH]; intros l; simpl; [reflexivity |].
  rewrite IH. apply list_eq. intros i. rewrite !list_lookup_fmap.
  destruct (decide (h = i)) as [-> | Hne].
  - rewrite list_lookup_alter_eq. now destruct (l !! i).
  - now rewrite list_lookup_alter_ne.
Qed.

Lemma addSelected_card_ids (h : nat) (l : list Card) :
  map card_id (alter addSelected h l) = map card_id l.
Proof.
  apply list_eq. intros i. rewrite !list_lookup_fmap.
  destruct (decide (h = i)) as [-> | Hne].
  - rewrite list_lookup_alter_eq. now destruct (l !! i).
  - now rewrite list_lookup_alter_ne.
Qed.

Lemma stays_fields (s s' : State) :
  cafeListEl s' = cafeListEl s -> idToCard s' = idToCard s ->
  idToMarker s' = idToMarker s -> cafeLayer s' = cafeLayer s ->
  filteredCafes s' = filteredCafes s ->
  stays s s'.
Proof. intros H1 H2 H3 H4 H5. unfold stays. apply inStep_same. now apply sameView_fields. Qed.

Ltac stays_step :=
  solve
    [ exact inStep_updateUI
    | unfold stays; tauto
    | intros; apply stays_fields; reflexivity
    | intros; intros _; right; left; repeat split; reflexivity ].

Lemma stays_loadPrefs (s : State) : stays s (exec loadPrefs s).
Proof. apply (respects_loadPrefs stays); stays_step. Qed.

Section WithHost.
Context {host : Host}.

Lemma stays_handle (w : World) (e : Event) (s : State) :
  (forall cafeId : string, e <> ClickCard cafeId) ->
  (forall cafeId : string, e <> ClickMarker cafeId) ->
  stays s (exec (handle w e) s).
Proof. intros Hc Hm. apply (respects_handle stays); try assumption; stays_step. Qed.

Lemma sameView_selectCafe (cafeId : string) (fly : bool) (s : State) :
  sameView s (selectCafe cafeId fly s).
Proof.
  destruct (selectCafe_fields cafeId fly s) as (Hl & Hc & Hm & _).
  split; [| split; [exact Hc | split; [exact Hm |]]].
  - rewrite Hl. destruct (idToCard s !! cafeId);
      rewrite ?addSelected_card_ids; apply cleared_card_ids.
  - unfold selectCafe. cbv zeta. rewrite clear_loop. simpl.
    destruct (idToCard s !! cafeId) as [card |]; simpl;
      (destruct (idToMarker s !! cafeId) as [marker |]; [destruct fly |]);
      simpl; split; reflexivity.
Qed.

Lemma reachable_inStep (s : State) : reachable s -> inStep s.
Proof.
  induction 1 as [radius stored | w e s Hs IH].
  - apply (stays_loadPrefs (loaded radius stored)). right. left. repeat split.
  - destruct e as [geo | lat lng | | value | value | cafeId | cafeId];
      try (apply (stays_handle w _ s); [discriminate | discriminate | exact IH]).
    + apply (inStep_same s); [apply sameView_selectCafe | exact IH].
    + apply (inStep_same s); [apply sameView_selectCafe | exact IH].
Qed.

(** X13. In every state the page can reach, one of three holds.  The list
    and the map show the filtered set, every cafe of which is drawable: the
    cards are those of the filtered cafes, in order, the layer holds their
    markers, and the two registries are the ones built from them.  Or the
    list and the map show nothing at all.  Or the filtered set holds a cafe
    that is not drawable and its rendering stopped there: the map shows the
    cafes before that one, and the list is empty or still the list of an
    earlier rendering. *)
Theorem list_and_map_in_step (s : State) :
  reachable s ->
  (forallb drawable (filteredCafes s) = true
   /\ map card_id (cafeListEl s) = map card_id (cardsFor (filteredCafes s))
   /\ idToCard s = cardRegistry (filteredCafes s)
   /\ idToMarker s = markerRegistry (filteredCafes s)
   /\ cafeLayer s = map markerOf (filteredCafes s))
  \/ (cafeListEl s = [] /\ idToCard s = ∅ /\ idToMarker s = ∅ /\ cafeLayer s = [])
  \/ (forallb drawable (filteredCafes s) = false
      /\ idToMarker s = markerRegistry (drawn (filteredCafes s))
      /\ cafeLayer s = map markerOf (drawn (filteredCafes s))
      /\ ((cafeListEl s = [] /\ idToCard s = ∅)
          \/ exists before : list Cafe,
               map card_id (cafeListEl s) = map card_id (cardsFor before)
               /\ idToCard s = cardRegistry before)).
Proof. intros Hs. exact (reachable_inStep s Hs). Qed.

Lemma registry_keys (cafes : list Cafe) (k : string) :
  (is_Some (cardRegistry cafes !! k) <-> exists c : Cafe, c ∈ cafes /\ id c = k)
  /\ (is_Some (markerRegistry cafes !! k) <-> exists c : Cafe, c ∈ cafes /\ id c = k).
Proof.
  pose proof (proj2 (renderList_closed cafes blank)) as Hc.
  pose proof (markerRegistry_lookup cafes k) as Hm.
  rewrite (lastWith_exists cafes k). split; split.
  - intros [h Hh]. exists h. now apply Hc.
  - intros [h Hh]. exists h. now apply Hc.
  - intros [m Hk]. apply Hm in Hk as (h & c & Hh & _). now exists h.
  - intros [h Hh]. pose proof Hh as [(c & Hcl & _) _].
    exists (markerOf c). apply Hm. now exists h, c.
Qed.

(** A card registered for a list that was rendered carries its id. *)
Lemma registered_card (cafes : list Cafe) (s : State) (k : string) (h : nat) :
  map card_id (cafeListEl s) = map card_id (cardsFor cafes) ->
  idToCard s = cardRegistry cafes ->
  idToCard s !! k = Some h ->
  exists el : Card, cafeListEl s !! h = Some el /\ card_id el = Some k.
Proof.
  intros Hl Hc Hk. rewrite Hc in Hk.
  apply (proj2 (renderList_closed cafes blank)) in Hk.
  destruct Hk as [(c & Hcl & Hid) _].
  assert (Hid' : map card_id (cafeListEl s) !! h = Some (Some k)).
  { rewrite Hl. destruct cafes as [| c0 r]; [discriminate Hcl |].
    unfold cardsFor. rewrite map_map, list_lookup_fmap, Hcl. simpl. now rewrite Hid. }
  rewrite list_lookup_fmap in Hid'.
  destruct (cafeListEl s !! h) as [el |]; [| discriminate].
  exists el. split; [reflexivity |]. simpl in Hid'. congruence.
Qed.

(** A marker registered for cafes that were drawn stands at one of
    them. *)
Lemma registered_marker (cafes : list Cafe) (k : string) (m : Marker) :
  markerRegistry cafes !! k = Some m ->
  exists c : Cafe, c ∈ cafes /\ id c = k /\ m = (lat c, lng c).
Proof.
  intros Hk. apply markerRegistry_lookup in Hk.
  destruct Hk as (h & c & [(c' & Hc' & Hid) _] & Hcl & ->).
  exists c. rewrite Hcl in Hc'. inversion Hc'; subst c'.
  split; [eapply list_elem_of_lookup_2, Hcl |]. auto.
Qed.

(** X14. In every state the page can reach, the card registered under an
    id carries that id, and the marker registered under an id stands at the
    coordinates of a cafe of the filtered set that has that id.  When every
    cafe of the filtered set is drawable, an id has a card exactly when it
    has a marker. *)
Theorem registries_agree (s : State) :
  reachable s ->
  (forallb drawable (filteredCafes s) = true ->
   forall k : string, is_Some (idToCard s !! k) <-> is_Some (idToMarker s !! k))
  /\ (forall (k : string) (h : nat),
        idToCard s !! k = Some h ->
        exists el : Card, cafeListEl s !! h = Some el /\ card_id el = Some k)
  /\ (forall (k : string) (m : Marker),
        idToMarker s !! k = Some m ->
        exists c : Cafe, c ∈ filteredCafes s /\ id c = k /\ m = (lat c, lng c)).
Proof.
  intros Hs.
  destruct (reachable_inStep s Hs)
    as [[Hd (Hl & Hc & Hm & _)] | [(_ & Hc & Hm & _) | [Hd (Hm & _ & Hcards)]]].
  - split; [| split].
    + intros _ k. rewrite Hc, Hm.
      destruct (registry_keys (filteredCafes s) k) as [-> ->]. reflexivity.
    + intros k h. now apply (registered_card (filteredCafes s)).
    + intros k m Hk. rewrite Hm in Hk. now apply registered_marker.
  - split; [| split].
    + intros _ k. rewrite Hc, Hm, !lookup_empty. split; intros [x Hx]; discriminate Hx.
    + intros k h Hk. rewrite Hc, lookup_empty in Hk. discriminate.
    + intros k m Hk. rewrite Hm, lookup_empty in Hk. discriminate.
  - split; [| split].
    + intros Hd'. congruence.
    + intros k h Hk. destruct Hcards as [[_ Hc] | (before & Hl & Hc)].
      * rewrite Hc, lookup_empty in Hk. discriminate.
      * now apply (registered_card before).
    + intros k m Hk. rewrite Hm in Hk.
      destruct (registered_marker _ _ _ Hk) as (c & Hin & Hrest).
      exists c. split; [now apply drawn_elem | exact Hrest].
Qed.

End WithHost.

(** What the list shows after a search that ends with the bundled file
    on the page. *)
Lemma fallback_shown (cafes : list Cafe) (s : State) :
  let s' := showSpinner false (setSummary "Showing fallback cafes" (fetched cafes s)) in
  filteredCafes s' = cafes
  /\ cafeListEl s' = cardsFor cafes
  /\ idToCard s' = cardRegistry cafes.
Proof.
  cbv zeta. destruct (listed_view cafes s) as (H1 & H2 & _ & _ & H5).
  unfold showSpinner, setSummary, fetched.
  cbn [filteredCafes cafeListEl idToCard set_spinnerHidden set_resultSummary].
  auto.
Qed.

(** The page [picked] shows the one cafe of the bundled file. *)
Lemma picked_view :
  exists c : Cafe,
    id c = "1"
    /\ drawable c = true
    /\ filteredCafes picked = [c]
    /\ cafeListEl picked = cardsFor [c]
    /\ idToCard picked = cardRegistry [c].
Proof.
  destruct (picked_offline 12.97 77.59) as [s Hs]. fold picked in Hs.
  assert (Hfb : exists c : Cafe,
    attachDistances offlineCafes 12.97 77.59 = [c] /\ id c = "1" /\ drawable c = true).
  { eexists. split; [reflexivity |]. split; [reflexivity |].
    rewrite drawable_setDistance. pose proof offlineCafes_drawable as Hd.
    simpl in Hd. now rewrite andb_true_r in Hd. }
  destruct Hfb as (c & Hfb & Hid & Hd). rewrite Hfb in Hs.
  destruct (fallback_shown [c] s) as (H1 & H2 & H3). cbv zeta in H1, H2, H3.
  rewrite <- Hs in H1, H2, H3. exists c. auto.
Qed.

(** X13 on the page [picked]: the list and the map show the one cafe of
    the bundled file. *)
Lemma list_and_map_in_step_witness :
  length (filteredCafes picked) = 1
  /\ forallb drawable (filteredCafes picked) = true
  /\ length (cafeListEl picked) = 1
  /\ cafeLayer picked = map markerOf (filteredCafes picked).
Proof.
  destruct picked_view as (c & _ & Hd & Hf & Hl & _).
  assert (Hr : reachable (host := asciiHost) picked).
  { apply reachable_step, reachable_boot. }
  split; [now rewrite Hf |].
  destruct (list_and_map_in_step picked Hr)
    as [(Hall & _ & _ & _ & Hlayer) | [(Hnil & _) | (Hbad & _)]].
  - split; [exact Hall |]. split; [now rewrite Hl | exact Hlayer].
  - rewrite Hl in Hnil. discriminate Hnil.
  - rewrite Hf in Hbad. simpl in Hbad. rewrite Hd in Hbad. discriminate Hbad.
Defined.

(** X14 on the page [picked]: the id of the one cafe has a card and a
    marker. *)
Lemma registries_agree_witness :
  is_Some (idToCard picked !! "1") /\ is_Some (idToMarker picked !! "1").
Proof.
  destruct picked_view as (c & Hid & Hd & Hf & _ & Hc).
  assert (Hr : reachable (host := asciiHost) picked).
  { apply reachable_step, reachable_boot. }
  assert (Hall : forallb drawable (filteredCafes picked) = true).
  { rewrite Hf. simpl. now rewrite Hd. }
  assert (Hcard : is_Some (idToCard picked !! "1")).
  { rewrite Hc. apply (proj1 (registry_keys [c] "1")). exists c. split; [left | exact Hid]. }
  split; [exact Hcard |].
  exact (proj1 (proj1 (registries_agree picked Hr) Hall "1") Hcard).
Defined.

End SyncFacts.

(** ** More on the search box *)

Module FilterMore.
Import Js Data Filter Page Script App View StringFacts RenderFacts FilterFacts
  CoordinatorFacts.

Section WithHost.
Context {host : Host}.




(** [handleSearchInput] in one piece: it hands the matching cafes to
    [updateUI]; when they can be rendered it writes its summary, and
    otherwise it throws what [renderMarkers] threw. *)
Lemma handleSearchInput_closed (s : State) :
  handleSearchInput s =
    if forallb drawable (matching s)
    then (Normal tt, setSummary (matchingSummary s) (listed (matching s) s))
    else (Throw (drawError (matching s)), marked (matching s) s).
Proof.
  rewrite handleSearchInput_run. cbv zeta. unfold matchingSummary, exec. cbv zeta.
  assert (Hm : matching s =
               if negb (truthyStr (toLowerCase (trim (searchInput s)))) then allCafes s
               else List.filter (matches (toLowerCase (trim (searchInput s)))) (allCafes s)).
  { unfold matching.
    destruct (negb (truthyStr (toLowerCase (trim (searchInput s))))) eqn:Hq.
    - apply truthyStr_false in Hq. now rewrite decide_True by exact Hq.
    - rewrite decide_False; [reflexivity |].
      intros H. apply truthyStr_false in H. congruence. }
  rewrite <- Hm, updateUI_run.
  destruct (negb (truthyStr (toLowerCase (trim (searchInput s))))) eqn:Hq.
  - apply truthyStr_false in Hq. rewrite decide_True by exact Hq.
    destruct (forallb drawable (matching s)); reflexivity.
  - rewrite decide_False by (intros H; apply truthyStr_false in H; congruence).
    rewrite Hm. destruct (forallb drawable _); reflexivity.
Qed.

(** The summary starts with the number of the cafes that match. *)
Lemma matchingSummary_count (s : State) :
  exists rest : string, matchingSummary s = pretty (length (matching s)) +:+ rest.
Proof.
  unfold matchingSummary, matching. cbv zeta.
  destruct (decide (toLowerCase (trim (searchInput s)) = "")); eexists; reflexivity.
Qed.

(** Neither the cafes that match nor the summary for them change when
    [handleSearchInput] has run. *)
Lemma matching_again (s : State) :
  matching (exec handleSearchInput s) = matching s
  /\ matchingSummary (exec handleSearchInput s) = matchingSummary s.
Proof.
  unfold matchingSummary, matching. cbv zeta.
  now rewrite handleSearchInput_searchInput, handleSearchInput_allCafes.
Qed.

(** X29. When the cafes that match can all be rendered, [handleSearchInput]
    completes normally and the summary it leaves starts with the number of
    cafes shown; otherwise it throws and the summary stays as it was.
    Either way the filtered set is the set of the cafes that match, and
    handling the same text again changes neither the filtered set nor the
    summary. *)
Theorem handleSearchInput_summary (s : State) :
  let s' := exec handleSearchInput s in
  (if forallb drawable (filteredCafes s') then
     fst (handleSearchInput s) = Normal tt
     /\ exists rest : string,
          resultSummary s' = pretty (length (filteredCafes s')) +:+ rest
   else
     (exists e : Error, fst (handleSearchInput s) = Throw e)
     /\ resultSummary s' = resultSummary s)
  /\ filteredCafes s' = matching s
  /\ filteredCafes (exec handleSearchInput s') = filteredCafes s'
  /\ resultSummary (exec handleSearchInput s') = resultSummary s'.
Proof.
  cbv zeta. rewrite !handleSearchInput_filteredCafes.
  destruct (matching_again s) as [Hsame Hsum]. rewrite Hsame.
  assert (Hres : forall s0 : State,
    resultSummary (exec handleSearchInput s0) =
      if forallb drawable (matching s0) then matchingSummary s0 else resultSummary s0).
  { intros s0. unfold exec. rewrite handleSearchInput_closed.
    destruct (forallb drawable (matching s0)); reflexivity. }
  split; [| split; [reflexivity | split; [reflexivity |]]].
  - rewrite Hres, handleSearchInput_closed.
    destruct (forallb drawable (matching s)).
    + split; [reflexivity |]. apply matchingSummary_count.
    + split; [now eexists | reflexivity].
  - rewrite (Hres (exec handleSearchInput s)), Hsame, Hsum, Hres.
    destruct (forallb drawable (matching s)); reflexivity.
Qed.

End WithHost.


End FilterMore.

(** ** More on selection *)

Module SelectionMore.
Import Js Data Assembler Page Script App View RenderFacts StringFacts FilterFacts
  SelectionFacts CoordinatorFacts RenderMore CoordinatorMore SyncFacts FilterMore.

Lemma removeSelected_twice (el : Card) : removeSelected (removeSelected el) = removeSelected el.
Proof. reflexivity. Qed.

(** The cards after the loop of [selectCafe]: the registered ones without
    highlight, the others as they were. *)
Lemma cleared_lookup_eq (hs : list nat) (l : list Card) (i : nat) :
  foldl (fun l el => alter removeSelected el l) l hs !! i =
    if decide (i ∈ hs) then removeSelected <$> l !! i else l !! i.
Proof.
  revert l. induction hs as [| h r IH]; intros l; cbn [foldl].
  - destruct (decide (i ∈ [])) as [Hin | _]; [inversion Hin | reflexivity].
  - rewrite IH. destruct (decide (h = i)) as [-> | Hne].
    + rewrite list_lookup_alter_eq.
      destruct (decide (i ∈ i :: r)) as [_ | Hnin]; [| destruct Hnin; left].
      destruct (decide (i ∈ r)); [| reflexivity].
      now destruct (l !! i).
    + rewrite list_lookup_alter_ne by exact Hne.
      destruct (decide (i ∈ r)) as [Hin | Hnin];
        destruct (decide (i ∈ h :: r)) as [Hin' | Hnin']; try reflexivity.
      * destruct Hnin'. now right.
      * apply elem_of_cons in Hin' as [-> | Hin']; [now destruct Hne | now destruct Hnin].
Qed.

(** X15. Selection has no memory: the cards, the registries and the
    selected id after [selectCafe] are the same whatever was selected just
    before. *)
Theorem selectCafe_forgets (a b : string) (fa fb : bool) (s : State) :
  cafeListEl (selectCafe b fb (selectCafe a fa s)) = cafeListEl (selectCafe b fb s)
  /\ idToCard (selectCafe b fb (selectCafe a fa s)) = idToCard (selectCafe b fb s)
  /\ idToMarker (selectCafe b fb (selectCafe a fa s)) = idToMarker (selectCafe b fb s)
  /\ selectedCafeId (selectCafe b fb (selectCafe a fa s)) = selectedCafeId (selectCafe b fb s).
Proof.
  destruct (selectCafe_fields a fa s) as (Hl & Hc & Hm & _).
  destruct (selectCafe_fields b fb s) as (Hl2 & Hc2 & Hm2 & Hs2).
  destruct (selectCafe_fields b fb (selectCafe a fa s)) as (Hl1 & Hc1 & Hm1 & Hs1).
  split; [| repeat split; congruence].
  rewrite Hl1, Hl2, Hc.
  assert (Hclear :
    foldl (fun l el => alter removeSelected el l) (cafeListEl (selectCafe a fa s))
      (map_to_list (idToCard s)).*2
    = foldl (fun l el => alter removeSelected el l) (cafeListEl s)
        (map_to_list (idToCard s)).*2); [| now rewrite Hclear].
  apply list_eq. intros i.
  rewrite !cleared_lookup_eq, Hl.
  destruct (idToCard s !! a) as [ha |] eqn:Ha.
  - assert (Hin : ha ∈ (map_to_list (idToCard s)).*2) by (eapply registered_handle, Ha).
    destruct (decide (i ∈ (map_to_list (idToCard s)).*2)) as [Hi | Hi].
    + destruct (decide (ha = i)) as [-> | Hne].
      * rewrite list_lookup_alter_eq, cleared_lookup_eq, decide_True by exact Hi.
        now destruct (cafeListEl s !! i).
      * rewrite list_lookup_alter_ne, cleared_lookup_eq, decide_True by assumption.
        now destruct (cafeListEl s !! i).
    + assert (Hne : ha <> i) by congruence.
      rewrite list_lookup_alter_ne, cleared_lookup_eq, decide_False by assumption.
      reflexivity.
  - rewrite cleared_lookup_eq.
    destruct (decide (i ∈ (map_to_list (idToCard s)).*2)); [| reflexivity].
    now destruct (cafeListEl s !! i).
Qed.


(** The cards [renderList] makes show no highlight. *)
Lemma cardsFor_unselected (cafes : list Cafe) :
  Forall (fun el => card_selected el = false) (cardsFor cafes).
Proof.
  destruct cafes as [| c r]; [repeat constructor |].
  unfold cardsFor. apply Forall_forall. intros el Hin.
  apply list_elem_of_fmap in Hin as (c' & -> & _). reflexivity.
Qed.

Lemma listed_unselected (cafes : list Cafe) (s s' : State) (i : nat) :
  cafeListEl s' = cafeListEl (listed cafes s) -> ~ highlighted s' i.
Proof.
  intros Hl. apply noHighlight_highlighted. unfold noHighlight.
  rewrite Hl, (proj1 (listed_view cafes s)). apply cardsFor_unselected.
Qed.

(** What the [catch] clause of [searchNearby] leaves of the list. *)
Lemma caught_list (w : World) (lat lng : R) (err : Error) (s : State) :
  let s' := caught w lat lng err s in
  match readFallback (cafes_json w) with
  | Throw _ => cafeListEl s' = cafeListEl s /\ filteredCafes s' = filteredCafes s
  | Normal items =>
      filteredCafes s' = attachDistances items lat lng
      /\ if forallb drawable items then forall i : nat, ~ highlighted s' i
         else cafeListEl s' = cafeListEl s
  end.
Proof.
  cbv zeta. unfold caught. cbv zeta.
  destruct (readFallback (cafes_json w)) as [items | e2]; [| split; reflexivity].
  rewrite drawable_attachDistances. destruct (forallb drawable items).
  - split; [apply fetched_fields |].
    intros i. apply (listed_unselected (attachDistances items lat lng)
                       (set_allCafes (attachDistances items lat lng) (warned err s))).
    reflexivity.
  - split; reflexivity.
Qed.

Section WithHost.
Context {host : Host}.

(** X17. A rendering that completes takes the highlight away and leaves
    the selected id as it was: after a change of the search box, and after
    a search, no card shows as selected when the filtered set can be
    rendered, whatever [selectedCafeId] holds.  When it cannot, or when
    both sources fail, the list stays as it was, highlight and all. *)
Theorem rendering_drops_highlight (w : World) (s : State) :
  (forall value : string,
      let s' := step w (InputSearch value) s in
      selectedCafeId s' = selectedCafeId s
      /\ if forallb drawable (filteredCafes s') then forall i : nat, ~ highlighted s' i
         else cafeListEl s' = cafeListEl s)
  /\ (forall lat lng radiusMeters : R,
        let s' := exec (searchNearby w lat lng radiusMeters) s in
        selectedCafeId s' = selectedCafeId s
        /\ match primaryFailure w lat lng radiusMeters, readFallback (cafes_json w) with
           | Some _, Throw _ => cafeListEl s' = cafeListEl s
           | _, _ =>
               if forallb drawable (filteredCafes s') then forall i : nat, ~ highlighted s' i
               else cafeListEl s' = cafeListEl s
           end).
Proof.
  split.
  - intros value s'. subst s'. rewrite step_InputSearch.
    rewrite handleSearchInput_filteredCafes. unfold exec.
    rewrite handleSearchInput_closed.
    destruct (forallb drawable (matching (set_searchInput value s))).
    + split.
      * unfold setSummary, listed. cbn [snd selectedCafeId set_resultSummary].
        destruct (renderList_shape (matching (set_searchInput value s))
                    (marked (matching (set_searchInput value s)) (set_searchInput value s)))
          as (cards & registry & -> & _). reflexivity.
      * intros i. apply (listed_unselected (matching (set_searchInput value s))
                           (set_searchInput value s)). reflexivity.
    + split; reflexivity.
  - intros lat lng radiusMeters s'. subst s'.
    split; [apply searchNearby_untouched |].
    rewrite searchNearby_exec. unfold primaryFailure, searched. cbv zeta.
    assert (Hfail : forall err : Error,
      let s' := showSpinner false (caught w lat lng err (asked lat lng radiusMeters s)) in
      match readFallback (cafes_json w) with
      | Throw _ => cafeListEl s' = cafeListEl s
      | Normal _ =>
          if forallb drawable (filteredCafes s') then forall i : nat, ~ highlighted s' i
          else cafeListEl s' = cafeListEl s
      end).
    { intros err. cbv zeta.
      pose proof (caught_list w lat lng err (asked lat lng radiusMeters s)) as H.
      cbv zeta in H. unfold showSpinner.
      cbn [cafeListEl filteredCafes set_spinnerHidden].
      destruct (readFallback (cafes_json w)) as [items | e2]; [| apply H].
      destruct H as [-> H]. rewrite drawable_attachDistances.
      destruct (forallb drawable items); exact H. }
    destruct (readOverpass (overpass w lat lng radiusMeters)) as [[| c cs] | e].
    + apply Hfail.
    + destruct (forallb drawable (attachDistances (c :: cs) lat lng)) eqn:Hd.
      * assert (Hgoal :
          if forallb drawable
               (filteredCafes
                  (showSpinner false
                     (fetched (attachDistances (c :: cs) lat lng)
                        (set_allCafes (attachDistances (c :: cs) lat lng)
                           (asked lat lng radiusMeters s)))))
          then forall i : nat,
                 ~ highlighted
                     (showSpinner false
                        (fetched (attachDistances (c :: cs) lat lng)
                           (set_allCafes (attachDistances (c :: cs) lat lng)
                              (asked lat lng radiusMeters s)))) i
          else cafeListEl
                 (showSpinner false
                    (fetched (attachDistances (c :: cs) lat lng)
                       (set_allCafes (attachDistances (c :: cs) lat lng)
                          (asked lat lng radiusMeters s)))) = cafeListEl s).
        { unfold showSpinner. cbn [filteredCafes set_spinnerHidden].
          rewrite (proj1 (proj2 (proj2 (fetched_fields _ _)))), Hd.
          intros i. apply (listed_unselected (attachDistances (c :: cs) lat lng)
                             (set_allCafes (attachDistances (c :: cs) lat lng)
                                (asked lat lng radiusMeters s))). reflexivity. }
        destruct (readFallback (cafes_json w)); exact Hgoal.
      * pose proof (caught_list w lat lng (drawError (attachDistances (c :: cs) lat lng))
                      (marked (attachDistances (c :: cs) lat lng)
                         (set_allCafes (attachDistances (c :: cs) lat lng)
                            (asked lat lng radiusMeters s)))) as H.
        cbv zeta in H. unfold showSpinner.
        cbn [cafeListEl filteredCafes set_spinnerHidden].
        destruct (readFallback (cafes_json w)) as [items | e2].
        -- destruct H as [-> H]. rewrite drawable_attachDistances.
           destruct (forallb drawable items); exact H.
        -- destruct H as [-> ->].
           change (filteredCafes (marked ?c0 ?x)) with c0. rewrite Hd. reflexivity.
    + apply Hfail.
Qed.

(** X18. [handleReset] empties the list and the map and forgets the
    selection, but keeps the canonical set and the stored preferences: the
    next change of the search box shows the cafes of the last search
    again. *)
Theorem handleReset_keeps_cafes (w : World) (s : State) :
  let s1 := step w ClickReset s in
  cafeListEl s1 = [] /\ cafeLayer s1 = [] /\ selectedCafeId s1 = None
  /\ allCafes s1 = allCafes s
  /\ localStorage s1 = localStorage s
  /\ forall value : string,
       filteredCafes (step w (InputSearch value) s1) =
         if decide (toLowerCase (trim value) = "") then allCafes s
         else List.filter (Filter.matches (toLowerCase (trim value))) (allCafes s).
Proof.
  cbv zeta. change (step w ClickReset s) with (handleReset s).
  repeat split. intros value.
  rewrite step_InputSearch, handleSearchInput_filteredCafes. reflexivity.
Qed.

End WithHost.

End SelectionMore.
